(** * geocat.comp: the [linint2] wrapper

    A shallow embedding of [src/geocat/comp/__init__.py].  The module is
    glue around three libraries: numpy (in-memory arrays), dask (chunked
    arrays, [map_blocks], [compute]) and xarray (labelled arrays), plus the
    native extension [_ncomp], whose code is not part of the repository.

    - Python objects that can be shared or mutated (arrays, lists, dicts,
      DataArrays) live in a heap and are passed by reference.
    - Exceptions are the [Raise] outcome of a state-and-error monad.
    - The native kernel [_ncomp._linint2] and the table
      [_ncomp.dtype_default_fill] are parameters of the development; the
      kernel may keep hidden state of its own and may raise; it is handed
      array values and does not write to them.
    - Array elements are an abstract type: the wrapper never inspects them.

    What is taken from the libraries:
    - numpy: [concatenate] needs equal shapes off the axis; [ndarray] has
      [dtype], [shape], [ndim], [data], but no [coords], [dims], [chunks].
    - dask: [map_blocks] with [drop_axis] concatenates the chunks along
      the dropped axes before it calls the function, and calls it once for
      every block of the remaining axes; arguments that are not dask
      arrays go to every call unchanged; called without [meta=], it first
      calls the function once on empty stand-ins of the arrays and drops
      the outcome; [compute] runs the tasks one after the other in an
      order the scheduler chooses (a parameter of the development) and
      concatenates the resulting blocks, whatever the declared chunks.
      Only calls that drop the last two axes and add two axes of one chunk
      each are modelled.
    - xarray: [chunks] of a DataArray around a numpy array is [None];
      [coords[d]] of a dimension without coordinate is the default index
      [0 .. n-1]; the constructor wraps data without a copy, copies the
      attributes, names missing dimensions [dim_0], [dim_1], ..., turns a
      bare one-dimensional array into a coordinate of its own name, and
      rejects coordinates whose sizes disagree with the data. *)

From Stdlib Require Import Lia ZArith DecimalString.
From stdpp Require Import base list strings.

Set Warnings "-register-all".

(** ** Outcomes and exceptions *)

Inductive exn :=
| AttributeError
| TypeError
| KeyError
| IndexError
| ValueError
| ImportError
| Unmodelled. (* library behaviour outside the fragment modelled here *)

Inductive outcome (A : Type) :=
| Ok (a : A)
| Raise (e : exn).
Arguments Ok {A} a.
Arguments Raise {A} e.

Fixpoint sequence {A} (l : list (outcome A)) : outcome (list A) :=
  match l with
  | [] => Ok []
  | Ok a :: l' =>
      match sequence l' with
      | Ok r => Ok (a :: r)
      | Raise e => Raise e
      end
  | Raise e :: _ => Raise e
  end.

(** ** The package namespace

    The names bound by the top-level statements of [__init__.py], in
    order: three imports, one from-import and one [def]. *)

Module Package.

Local Open Scope string_scope.

Definition namespace : list string :=
  [ "_ncomp";      (* from . import _ncomp *)
    "np";          (* import numpy as np *)
    "xr";          (* import xarray as xr *)
    "map_blocks";  (* from dask.array.core import map_blocks *)
    "linint2" ].   (* def linint2(...) *)

(** Sub-modules of the package directory ([_ncomp] is the only one). *)
Definition submodules : list string := [ "_ncomp" ].

(** [from geocat.comp import name]: the attribute is looked up on the
    package; failing that, a sub-module of that name is tried. *)
Definition import_from (name : string) : outcome unit :=
  if bool_decide (name ∈ namespace) then Ok tt
  else if bool_decide (name ∈ submodules) then Ok tt
  else Raise ImportError.

End Package.

(** ** numpy arrays and chunk grids *)

(** Element types are named as numpy prints them; a reference is an index
    into the heap. *)
Abbreviation dtype := string (only parsing).
Abbreviation loc := nat (only parsing).

(** Python tuples and lists shrink from the right under negative indices. *)
Definition tuple_getitem_neg {A} (t : list A) (k : nat) : outcome A :=
  match k with
  | 0 => Raise Unmodelled
  | S _ =>
      if decide (k ≤ length t)
      then match t !! (length t - k) with
           | Some x => Ok x
           | None => Raise IndexError
           end
      else Raise IndexError
  end.

(** [t[-2:]] *)
Definition slice_last2 {A} (t : list A) : list A := drop (length t - 2) t.

(** [l[-2:] = items] on a list. *)
Definition setslice_last2 {A} (l items : list A) : list A :=
  take (length l - 2) l ++ items.

Fixpoint product (l : list nat) : nat :=
  match l with
  | [] => 1
  | n :: l' => n * product l'
  end.

Definition default_dim_name (i : nat) : string :=
  ("dim_" +:+ NilZero.string_of_uint (Nat.to_uint i))%string.

(** xarray's names for unnamed dimensions: [dim_0], [dim_1], ... *)
Definition default_dims (n : nat) : list string :=
  map default_dim_name (seq 0 n).

Inductive grid (B : Type) :=
| Block (b : B)
| Axis (gs : list (grid B)).
Arguments Block {B} b.
Arguments Axis {B} gs.

Section Glue.

(** Array elements (floats or integers in the program). *)
Variable elt : Type.
(** The element that stands for an integer position (default indexes). *)
Variable of_nat : nat → elt.
(** Hidden state of the native library. *)
Variable KS : Type.

Record ndarray := Ndarray {
  nd_dtype : dtype;
  nd_shape : list nat;
  nd_data : list elt   (* row-major *)
}.

(** Computations of the native library and of a dask graph. *)
Definition KM (A : Type) : Type := KS → outcome A * KS.
Definition task := KM ndarray.

(** [_ncomp.dtype_default_fill], a dict keyed by dtype. *)
Variable dtype_default_fill : dtype → option elt.
(** [_ncomp._linint2 (xi, yi, fi, xo, yo, icycx, xmsg)]. *)
Variable _linint2 :
  ndarray → ndarray → ndarray → ndarray → ndarray → bool → elt → task.
(** The policy of the dask scheduler: with [k] tasks ready to run, the one
    it starts next (counted from 0, modulo [k]). *)
Variable scheduler : nat → nat.

(** *** numpy.concatenate *)

Fixpoint interleave (n ca cb : nat) (a b : list elt) : list elt :=
  match n with
  | 0 => []
  | S n' => take ca a ++ take cb b ++ interleave n' ca cb (drop ca a) (drop cb b)
  end.

Definition concat2 (axis : nat) (a b : ndarray) : outcome ndarray :=
  let sa := nd_shape a in
  let sb := nd_shape b in
  if bool_decide (<[axis:=0]> sa = <[axis:=0]> sb)
  then Ok {| nd_dtype := nd_dtype a;
             nd_shape := <[axis := default 0 (sa !! axis) + default 0 (sb !! axis)]> sa;
             nd_data := interleave (product (take axis sa))
                          (product (drop axis sa)) (product (drop axis sb))
                          (nd_data a) (nd_data b) |}
  else Raise ValueError.

Fixpoint concatenate_from (axis : nat) (acc : ndarray) (l : list ndarray)
  : outcome ndarray :=
  match l with
  | [] => Ok acc
  | b :: l' =>
      match concat2 axis acc b with
      | Ok c => concatenate_from axis c l'
      | Raise e => Raise e
      end
  end.

Definition np_concatenate (l : list ndarray) (axis : nat) : outcome ndarray :=
  match l with
  | [] => Raise ValueError
  | a :: l' =>
      if decide (axis < length (nd_shape a))
      then concatenate_from axis a l'
      else Raise ValueError
  end.

(** dask's recursive concatenation of a nested list of blocks; the
    outermost nesting level is axis [axis]. *)
Fixpoint concatenate3 (axis : nat) (g : grid ndarray) : outcome ndarray :=
  match g with
  | Block b => Ok b
  | Axis gs =>
      match sequence (map (concatenate3 (S axis)) gs) with
      | Ok parts => np_concatenate parts axis
      | Raise e => Raise e
      end
  end.

(** *** dask arrays *)

Record dask_array (B : Type) := DaskArray {
  dk_chunks : list (list nat);
  dk_dtype : dtype;
  dk_blocks : grid B
}.
Arguments dk_chunks {B} d.
Arguments dk_dtype {B} d.
Arguments dk_blocks {B} d.

Definition dk_shape {B} (d : dask_array B) : list nat :=
  map list_sum (dk_chunks d).

(** The blocks [map_blocks] builds when the last two axes are dropped and
    two axes are added in their place: above the last two axes the grid
    is kept; below, the blocks are concatenated and the function is
    called once on the result. *)
Fixpoint map_blocks_grid (f : ndarray → task) (lead axis : nat)
    (g : grid ndarray) : grid task :=
  match lead with
  | 0 =>
      Axis [Axis [Block (λ s,
        match concatenate3 axis g with
        | Ok b => f b s
        | Raise e => (Raise e, s)
        end)]]
  | S lead' =>
      match g with
      | Axis gs => Axis (map (map_blocks_grid f lead' (S axis)) gs)
      | Block _ => Block (λ s, (Raise Unmodelled, s))
      end
  end.

Definition map_blocks (f : ndarray → task) (src : dask_array ndarray)
    (chunks : list (list nat)) (dt : dtype) (drop_axis new_axis : list Z)
  : outcome (dask_array task) :=
  let n := length (dk_chunks src) in
  if bool_decide (2 ≤ n
                  ∧ drop_axis = [Z.of_nat n - 2; Z.of_nat n - 1]%Z
                  ∧ new_axis = drop_axis
                  ∧ Forall (λ c, length c = 1) (slice_last2 chunks))
  then
    if decide (length chunks = n)
    then Ok {| dk_chunks := chunks; dk_dtype := dt;
               dk_blocks := map_blocks_grid f (n - 2) 0 (dk_blocks src) |}
    else Raise ValueError
  else Raise Unmodelled.

(** Running a list of computations from left to right. *)
Definition mapKM {A B} (f : A → KM B) : list A → KM (list B) :=
  fix go (l : list A) : KM (list B) :=
    match l with
    | [] => λ s, (Ok [], s)
    | a :: l' => λ s,
        match f a s with
        | (Ok x, s1) =>
            match go l' s1 with
            | (Ok xs, s2) => (Ok (x :: xs), s2)
            | (Raise e, s2) => (Raise e, s2)
            end
        | (Raise e, s1) => (Raise e, s1)
        end
    end.

(** The blocks of a grid, in row-major order. *)
Fixpoint blocks_of {B} (g : grid B) : list B :=
  match g with
  | Block b => [b]
  | Axis gs => concat (map blocks_of gs)
  end.

Definition refill_children {A B C} (f : A → list B → option (C * list B))
  : list A → list B → option (list C * list B) :=
  fix go (gs : list A) (l : list B) : option (list C * list B) :=
    match gs with
    | [] => Some ([], l)
    | g :: gs' =>
        match f g l with
        | Some (g', l') =>
            match go gs' l' with
            | Some (gs'', l'') => Some (g' :: gs'', l'')
            | None => None
            end
        | None => None
        end
    end.

(** The grid [g] with its blocks replaced, in row-major order, by the
    first elements of [l]; what is left of [l] is returned beside it. *)
Fixpoint refill {A B} (g : grid A) (l : list B) : option (grid B * list B) :=
  match g with
  | Block _ =>
      match l with
      | b :: l' => Some (Block b, l')
      | [] => None
      end
  | Axis gs =>
      match refill_children refill gs l with
      | Some (gs', l') => Some (Axis gs', l')
      | None => None
      end
  end.

(** The order in which the scheduler starts the tasks of [ready]. *)
Fixpoint schedule {A} (fuel : nat) (ready : list A) : list A :=
  match fuel with
  | 0 => []
  | S fuel' =>
      let i := scheduler (length ready) `mod` length ready in
      match ready !! i with
      | Some t => t :: schedule fuel' (delete i ready)
      | None => []
      end
  end.

(** The result stored under key [i]. *)
Fixpoint pick {B} (i : nat) (l : list (nat * B)) : option B :=
  match l with
  | [] => None
  | (j, b) :: l' => if decide (j = i) then Some b else pick i l'
  end.

Fixpoint pick_all {B} (l : list (nat * B)) (keys : list nat)
  : option (list B) :=
  match keys with
  | [] => Some []
  | i :: keys' =>
      match pick i l, pick_all l keys' with
      | Some b, Some bs => Some (b :: bs)
      | _, _ => None
      end
  end.

(** The results of tasks [0 .. n-1], by position. *)
Definition unscramble {B} (n : nat) (l : list (nat * B)) : option (list B) :=
  pick_all l (seq 0 n).

(** Running the tasks of a graph: the tasks are independent, the scheduler
    starts them one after the other in the order of its choice, each result
    is kept under the position of its task, and the first exception ends
    the run. *)
Definition run_tasks (ts : list task) : KM (list ndarray) := λ s,
  let n := length ts in
  match mapKM (λ (it : nat * task) s,
                 match it.2 s with
                 | (Ok b, s') => (Ok (it.1, b), s')
                 | (Raise e, s') => (Raise e, s')
                 end)
          (schedule n (zip (seq 0 n) ts)) s with
  | (Ok results, s') =>
      match unscramble n results with
      | Some outs => (Ok outs, s')
      | None => (Raise Unmodelled, s')
      end
  | (Raise e, s') => (Raise e, s')
  end.

Definition run_grid (g : grid task) : KM (grid ndarray) := λ s,
  match run_tasks (blocks_of g) s with
  | (Ok outs, s') =>
      match refill g outs with
      | Some (g', _) => (Ok g', s')
      | None => (Raise Unmodelled, s')
      end
  | (Raise e, s') => (Raise e, s')
  end.

(** [fo.compute ()], up to the allocation of the result. *)
Definition compute_blocks (d : dask_array task) : KM ndarray := λ s,
  match run_grid (dk_blocks d) s with
  | (Ok g, s') => (concatenate3 0 g, s')
  | (Raise e, s') => (Raise e, s')
  end.

(** *** The heap of Python objects *)

(** A coordinate variable: the dimensions it spans and its values. *)
Record variable := Variable_ {
  v_dims : list string;
  v_data : loc
}.

Record DataArray := DataArray_ {
  da_data : loc;                           (* numpy or dask array *)
  da_dims : list string;                   (* a tuple *)
  da_coords : list (string * variable);    (* an ordered dict *)
  da_attrs : loc                           (* an ordered dict *)
}.

Inductive object :=
| ONdarray (a : ndarray)
| ODask (d : dask_array ndarray)
| OList (l : list (list nat))
| ODict (d : list (string * string))
| ODataArray (x : DataArray).

Record world := World {
  heap : list object;
  kstate : KS
}.

Definition M (A : Type) : Type := world → outcome A * world.

Definition ret {A} (a : A) : M A := λ w, (Ok a, w).
Definition raise {A} (e : exn) : M A := λ w, (Raise e, w).
Definition bind {A B} (m : M A) (f : A → M B) : M B := λ w,
  match m w with
  | (Ok a, w') => f a w'
  | (Raise e, w') => (Raise e, w')
  end.

Notation "'let*' x ':=' m 'in' k" := (bind m (λ x, k))
  (at level 10, x name, m at level 100, k at level 200).

Definition lift {A} (o : outcome A) : M A := λ w, (o, w).

Definition alloc (o : object) : M loc := λ w,
  (Ok (length (heap w)), {| heap := heap w ++ [o]; kstate := kstate w |}).

Definition deref (l : loc) : M object := λ w,
  match heap w !! l with
  | Some o => (Ok o, w)
  | None => (Raise Unmodelled, w)
  end.

Definition store (l : loc) (o : object) : M unit := λ w,
  (Ok tt, {| heap := <[l := o]> (heap w); kstate := kstate w |}).

(** A call into native code or into the dask scheduler. *)
Definition call {A} (k : KM A) : M A := λ w,
  let (r, s) := k (kstate w) in (r, {| heap := heap w; kstate := s |}).

Fixpoint mapM {A B} (f : A → M B) (l : list A) : M (list B) :=
  match l with
  | [] => ret []
  | a :: l' => let* b := f a in let* bs := mapM f l' in ret (b :: bs)
  end.

(** *** Attributes of arrays *)

Definition deref_ndarray (l : loc) : M ndarray :=
  let* o := deref l in
  match o with
  | ONdarray a => ret a
  | _ => raise Unmodelled
  end.

(** [a.shape] *)
Definition get_shape (l : loc) : M (list nat) :=
  let* o := deref l in
  match o with
  | ONdarray a => ret (nd_shape a)
  | ODask d => ret (dk_shape d)
  | ODataArray x =>
      let* o' := deref (da_data x) in
      match o' with
      | ONdarray a => ret (nd_shape a)
      | ODask d => ret (dk_shape d)
      | _ => raise Unmodelled
      end
  | OList _ | ODict _ => raise AttributeError
  end.

(** [a.ndim] *)
Definition get_ndim (l : loc) : M nat :=
  let* s := get_shape l in ret (length s).

(** [a.dtype] *)
Definition get_dtype (l : loc) : M dtype :=
  let* o := deref l in
  match o with
  | ONdarray a => ret (nd_dtype a)
  | ODask d => ret (dk_dtype d)
  | ODataArray x =>
      let* o' := deref (da_data x) in
      match o' with
      | ONdarray a => ret (nd_dtype a)
      | ODask d => ret (dk_dtype d)
      | _ => raise Unmodelled
      end
  | OList _ | ODict _ => raise AttributeError
  end.

(** [fi.dims], only on a DataArray. *)
Definition get_dims (l : loc) : M (list string) :=
  let* o := deref l in
  match o with
  | ODataArray x => ret (da_dims x)
  | _ => raise AttributeError
  end.

(** [fi.attrs], only on a DataArray. *)
Definition get_attrs (l : loc) : M loc :=
  let* o := deref l in
  match o with
  | ODataArray x => ret (da_attrs x)
  | _ => raise AttributeError
  end.

(** [fi.coords.items ()], only on a DataArray. *)
Definition coords_items (l : loc) : M (list (string * variable)) :=
  let* o := deref l in
  match o with
  | ODataArray x => ret (da_coords x)
  | _ => raise AttributeError
  end.

(** [fi.data]: the wrapped array of a DataArray; on a numpy array, a view
    of its own buffer. *)
Definition get_data (l : loc) : M loc :=
  let* o := deref l in
  match o with
  | ODataArray x => ret (da_data x)
  | ONdarray _ => ret l
  | ODask _ => raise Unmodelled
  | OList _ | ODict _ => raise AttributeError
  end.

(** [fi.chunks]: [None] on a DataArray that wraps a numpy array; a numpy
    array has no such attribute. *)
Definition get_chunks (l : loc) : M (option (list (list nat))) :=
  let* o := deref l in
  match o with
  | ODataArray x =>
      let* o' := deref (da_data x) in
      match o' with
      | ODask d => ret (Some (dk_chunks d))
      | _ => ret None
      end
  | ODask d => ret (Some (dk_chunks d))
  | ONdarray _ | OList _ | ODict _ => raise AttributeError
  end.

(** *** Coordinates *)

Fixpoint assoc {V} (k : string) (l : list (string * V)) : option V :=
  match l with
  | [] => None
  | (k', v) :: l' => if decide (k' = k) then Some v else assoc k l'
  end.

Fixpoint index_of (k : string) (l : list string) : option nat :=
  match l with
  | [] => None
  | k' :: l' => if decide (k' = k) then Some 0 else S <$> index_of k l'
  end.

Definition arange (n : nat) : ndarray :=
  {| nd_dtype := "int64"; nd_shape := [n]; nd_data := map of_nat (seq 0 n) |}.

(** [fi.coords[k]].  A dimension that carries no coordinate answers with
    xarray's default index [0 .. size-1]. *)
Definition coords_getitem (l : loc) (k : string) : M variable :=
  let* o := deref l in
  match o with
  | ODataArray x =>
      match assoc k (da_coords x) with
      | Some v => ret v
      | None =>
          match index_of k (da_dims x) with
          | Some i =>
              let* s := get_shape l in
              let* a := alloc (ONdarray (arange (default 0 (s !! i)))) in
              ret {| v_dims := [k]; v_data := a |}
          | None => raise KeyError
          end
      end
  | _ => raise AttributeError
  end.

(** [v.values]: the numpy array behind a coordinate (no copy). *)
Definition values (v : variable) : M loc :=
  let* o := deref (v_data v) in
  match o with
  | ONdarray _ => ret (v_data v)
  | _ => raise Unmodelled
  end.

(** *** The DataArray constructor *)

(** A value of the [coords] dict handed to the constructor: a coordinate
    taken from another DataArray, or a bare array. *)
Inductive coord_arg :=
| CVar (v : variable)
| CRaw (a : loc).

Definition as_variable (kc : string * coord_arg) : M (string * variable) :=
  match kc.2 with
  | CVar v => ret (kc.1, v)
  | CRaw a =>
      let* s := get_shape a in
      if decide (length s = 1)
      then ret (kc.1, {| v_dims := [kc.1]; v_data := a |})
      else raise ValueError
  end.

(** Every dimension of a coordinate is a dimension of the data, with the
    same size. *)
Definition coord_fits (dims : list string) (shape : list nat)
    (vdims : list string) (vshape : list nat) : bool :=
  bool_decide (length vdims = length vshape)
  && forallb (λ dn : string * nat,
                match index_of dn.1 dims with
                | Some i => bool_decide (shape !! i = Some dn.2)
                | None => false
                end) (zip vdims vshape).

Definition check_coord (dims : list string) (shape : list nat)
    (kv : string * variable) : M unit :=
  let* s := get_shape (v_data kv.2) in
  if coord_fits dims shape (v_dims kv.2) s then ret tt else raise ValueError.

Definition deref_dict (l : loc) : M (list (string * string)) :=
  let* o := deref l in
  match o with
  | ODict d => ret d
  | _ => raise Unmodelled
  end.

(** [xr.DataArray (data, coords=..., dims=..., attrs=...)].  The data is
    wrapped without a copy, the attributes are copied into a new dict. *)
Definition xr_DataArray (data : loc) (coords : list (string * coord_arg))
    (dims : option (list string)) (attrs : option loc) : M loc :=
  let* a := deref_ndarray data in
  let shape := nd_shape a in
  let* dims :=
    match dims with
    | None => ret (default_dims (length shape))
    | Some d =>
        if decide (length d = length shape) then ret d else raise ValueError
    end in
  let* vars := mapM as_variable coords in
  let* _ := mapM (check_coord dims shape) vars in
  let* d :=
    match attrs with
    | None => ret []
    | Some l => deref_dict l
    end in
  let* at_ := alloc (ODict d) in
  alloc (ODataArray {| da_data := data; da_dims := dims;
                       da_coords := vars; da_attrs := at_ |}).

(** *** Lists, dask calls *)

(** [list (t)] *)
Definition list_of (t : option (list (list nat))) : M loc :=
  match t with
  | None => raise TypeError
  | Some c => alloc (OList c)
  end.

(** [l[-2:] = items], in place. *)
Definition list_setslice_last2 (l : loc) (items : list (list nat)) : M unit :=
  let* o := deref l in
  match o with
  | OList c => store l (OList (setslice_last2 c items))
  | _ => raise Unmodelled
  end.

(** [_ncomp.dtype_default_fill[dt]] *)
Definition default_fill_getitem (dt : dtype) : M elt :=
  match dtype_default_fill dt with
  | Some x => ret x
  | None => raise KeyError
  end.

(** The stand-in dask uses for an array when it probes a function: no
    elements, the same dtype and number of dimensions. *)
Definition meta_from_array (a : ndarray) : ndarray :=
  {| nd_dtype := nd_dtype a; nd_shape := map (λ _, 0) (nd_shape a);
     nd_data := [] |}.

(** The same for a dask array. *)
Definition dask_meta (d : dask_array ndarray) : ndarray :=
  {| nd_dtype := dk_dtype d; nd_shape := map (λ _, 0) (dk_chunks d);
     nd_data := [] |}.

(** Called without [meta=], [map_blocks] runs the function once on such
    stand-ins while it builds the graph, and drops what the call returns or
    raises. *)
Definition compute_meta (t : task) : M unit :=
  call (λ s, (Ok tt, (t s).2)).

(** [map_blocks (_ncomp._linint2, xi, yi, fi_data, xo, yo, icycx, xmsg,
    chunks=..., dtype=..., drop_axis=..., new_axis=...)]: the arguments
    that are not dask arrays are handed to every call as they are. *)
Definition map_blocks_linint2 (xi yi fi_data xo yo : loc) (icycx : bool)
    (xmsg : elt) (chunks : loc) (dt : dtype) (drop_axis new_axis : list Z)
  : M (dask_array task) :=
  let* xi_v := deref_ndarray xi in
  let* yi_v := deref_ndarray yi in
  let* o := deref fi_data in
  let* xo_v := deref_ndarray xo in
  let* yo_v := deref_ndarray yo in
  let* c := deref chunks in
  match o, c with
  | ODask src, OList c =>
      let* _ := compute_meta
                  (_linint2 (meta_from_array xi_v) (meta_from_array yi_v)
                     (dask_meta src) (meta_from_array xo_v)
                     (meta_from_array yo_v) icycx xmsg) in
      lift (map_blocks (λ b, _linint2 xi_v yi_v b xo_v yo_v icycx xmsg)
              src c dt drop_axis new_axis)
  | _, _ => raise Unmodelled
  end.

(** [fo.compute ()]: a new numpy array. *)
Definition compute (d : dask_array task) : M loc :=
  let* a := call (compute_blocks d) in
  alloc (ONdarray a).

(** *** linint2 *)

(** The body of [linint2], statement by statement.  [fi.dtype] and
    [fi.ndim], which the call of [map_blocks] reads several times, are
    read once. *)
Definition linint2 (fi xo yo : loc) (icycx : bool) (xmsg : option elt)
    (meta : bool) (xi yi : option loc) : M loc :=
  (* if xmsg is None: xmsg = _ncomp.dtype_default_fill[fi.dtype] *)
  let* xmsg :=
    match xmsg with
    | None => let* dt := get_dtype fi in default_fill_getitem dt
    | Some x => ret x
    end in
  (* if xi is None: xi = fi.coords[fi.dims[-1]].values *)
  let* xi :=
    match xi with
    | None =>
        let* dims := get_dims fi in
        let* d := lift (tuple_getitem_neg dims 1) in
        let* c := coords_getitem fi d in
        values c
    | Some x => ret x
    end in
  (* if yi is None: yi = fi.coords[fi.dims[-2]].values *)
  let* yi :=
    match yi with
    | None =>
        let* dims := get_dims fi in
        let* d := lift (tuple_getitem_neg dims 2) in
        let* c := coords_getitem fi d in
        values c
    | Some x => ret x
    end in
  (* fi_data = fi.data *)
  let* fi_data := get_data fi in
  (* fo_chunks = list(fi.chunks) *)
  let* ch := get_chunks fi in
  let* fo_chunks := list_of ch in
  (* fo_chunks[-2:] = (yo.shape, xo.shape) *)
  let* yo_shape := get_shape yo in
  let* xo_shape := get_shape xo in
  let* _ := list_setslice_last2 fo_chunks [yo_shape; xo_shape] in
  (* fo = map_blocks(_ncomp._linint2, xi, yi, fi_data, xo, yo, icycx, xmsg,
                     chunks=fo_chunks, dtype=fi.dtype,
                     drop_axis=[fi.ndim-2, fi.ndim-1],
                     new_axis=[fi.ndim-2, fi.ndim-1]) *)
  let* dt := get_dtype fi in
  let* ndim := get_ndim fi in
  let axes := [Z.of_nat ndim - 2; Z.of_nat ndim - 1]%Z in
  let* fo := map_blocks_linint2 xi yi fi_data xo yo icycx xmsg
               fo_chunks dt axes axes in
  (* result = fo.compute() *)
  let* result := compute fo in
  if meta then
    (* coords = {k: v if k not in fi.dims[-2:]
                      else (xo if k == fi.dims[-1] else yo)
                 for (k, v) in fi.coords.items()} *)
    let* items := coords_items fi in
    let* dims := get_dims fi in
    let coords :=
      map (λ kv : string * variable,
             (kv.1,
              if bool_decide (kv.1 ∉ slice_last2 dims) then CVar kv.2
              else if bool_decide (last dims = Some kv.1) then CRaw xo
                   else CRaw yo)) items in
    (* result = xr.DataArray(result, attrs=fi.attrs, dims=fi.dims,
                             coords=coords) *)
    let* attrs := get_attrs fi in
    xr_DataArray result coords (Some dims) (Some attrs)
  else
    (* result = xr.DataArray(result) *)
    xr_DataArray result [] None None.

(** ** Vocabulary of the properties *)

(** *** Well-formed chunked arrays *)

(** The blocks of [g] have the extents announced by [chunks]; [pre] holds
    the extents chosen along the axes above [g]. *)
Fixpoint conformsb (chunks : list (list nat)) (pre : list nat)
    (g : grid ndarray) : bool :=
  match chunks, g with
  | [], Block b => bool_decide (nd_shape b = pre)
  | c :: cs, Axis gs =>
      bool_decide (c ≠ []) && bool_decide (length c = length gs)
      && forallb (λ ng : nat * grid ndarray, conformsb cs (pre ++ [ng.1]) ng.2)
           (zip c gs)
  | _, _ => false
  end.

Definition well_chunked (d : dask_array ndarray) : Prop :=
  conformsb (dk_chunks d) [] (dk_blocks d) = true.

(** The last two axes hold one chunk each. *)
Definition unchunked_last2 (d : dask_array ndarray) : Prop :=
  Forall (λ c, length c = 1) (slice_last2 (dk_chunks d)).

(** *** The kernel applied chunk by chunk *)

Fixpoint grid_map {A B} (f : A → B) (g : grid A) : grid B :=
  match g with
  | Block b => Block (f b)
  | Axis gs => Axis (map (grid_map f) gs)
  end.

(** [f] called on every chunk of [d], the results put together as dask
    does on [compute]. *)
Definition blockwise (f : ndarray → task) (d : dask_array ndarray)
  : KM ndarray :=
  compute_blocks {| dk_chunks := dk_chunks d; dk_dtype := dk_dtype d;
                    dk_blocks := grid_map f (dk_blocks d) |}.

(** The blocks the kernel is called on: for every position along the
    first [lead] axes, the chunks below it joined into one array. *)
Fixpoint lead_blocks (lead axis : nat) (g : grid ndarray)
  : list (outcome ndarray) :=
  match lead with
  | 0 => [concatenate3 axis g]
  | S lead' =>
      match g with
      | Axis gs => concat (map (lead_blocks lead' (S axis)) gs)
      | Block _ => [Raise Unmodelled]
      end
  end.

(** [f] on a block that may have failed to form. *)
Definition task_for (f : ndarray → task) (ob : outcome ndarray) : task :=
  λ s,
    match ob with
    | Ok b => f b s
    | Raise e => (Raise e, s)
    end.

(** The hidden states a run of tasks goes through: [T x r s s'] holds of
    the states before and after the task of [x] returned [r]. *)
Fixpoint chain {X} (T : X → ndarray → KS → KS → Prop)
    (l : list (X * ndarray)) (s s' : KS) : Prop :=
  match l with
  | [] => s' = s
  | xr :: l' => ∃ s1, T xr.1 xr.2 s s1 ∧ chain T l' s1 s'
  end.

(** *** What is known of the native kernel *)

(** The outcome of a call does not depend on the hidden state. *)
Definition kernel_deterministic : Prop :=
  ∀ xi yi fi xo yo icycx xmsg s s',
    (_linint2 xi yi fi xo yo icycx xmsg s).1
    = (_linint2 xi yi fi xo yo icycx xmsg s').1.

(** On a block of two or more dimensions the call returns a block whose
    last two extents are the lengths of [yo] and [xo]. *)
Definition kernel_shapes (xi yi xo yo : ndarray) (icycx : bool) (xmsg : elt)
  : Prop :=
  ∀ b s, 2 ≤ length (nd_shape b) →
    ∃ r s', _linint2 xi yi b xo yo icycx xmsg s = (Ok r, s')
            ∧ nd_shape r = take (length (nd_shape b) - 2) (nd_shape b)
                           ++ nd_shape yo ++ nd_shape xo.

(** *** Reading objects back from the heap *)

Definition read_ndarray (h : list object) (l : loc) : option ndarray :=
  match h !! l with
  | Some (ONdarray a) => Some a
  | _ => None
  end.

Definition read_DataArray (h : list object) (l : loc) : option DataArray :=
  match h !! l with
  | Some (ODataArray x) => Some x
  | _ => None
  end.

Definition read_dask (h : list object) (l : loc)
  : option (dask_array ndarray) :=
  match h !! l with
  | Some (ODask d) => Some d
  | _ => None
  end.

(** The element type of an array or of a DataArray. *)
Definition read_dtype (h : list object) (l : loc) : option dtype :=
  match h !! l with
  | Some (ONdarray a) => Some (nd_dtype a)
  | Some (ODask d) => Some (dk_dtype d)
  | Some (ODataArray x) =>
      match h !! da_data x with
      | Some (ONdarray a) => Some (nd_dtype a)
      | Some (ODask d) => Some (dk_dtype d)
      | _ => None
      end
  | _ => None
  end.

Definition read_dims (h : list object) (l : loc) : option (list string) :=
  da_dims <$> read_DataArray h l.

Definition read_attrs (h : list object) (l : loc)
  : option (list (string * string)) :=
  match read_DataArray h l with
  | Some x =>
      match h !! da_attrs x with
      | Some (ODict d) => Some d
      | _ => None
      end
  | None => None
  end.

(** A coordinate with its values. *)
Definition read_variable (h : list object) (v : variable)
  : option (list string * ndarray) :=
  match read_ndarray h (v_data v) with
  | Some a => Some (v_dims v, a)
  | None => None
  end.

Fixpoint read_variables (h : list object) (cs : list (string * variable))
  : option (list (string * (list string * ndarray))) :=
  match cs with
  | [] => Some []
  | (k, v) :: cs' =>
      match read_variable h v, read_variables h cs' with
      | Some r, Some rs => Some ((k, r) :: rs)
      | _, _ => None
      end
  end.

Definition read_coords (h : list object) (l : loc)
  : option (list (string * (list string * ndarray))) :=
  match read_DataArray h l with
  | Some x => read_variables h (da_coords x)
  | None => None
  end.

(** The values of a DataArray held in memory. *)
Definition read_data (h : list object) (l : loc) : option ndarray :=
  match read_DataArray h l with
  | Some x => read_ndarray h (da_data x)
  | None => None
  end.

(** Everything an observer can see of a returned DataArray. *)
Definition observe (h : list object) (l : loc) :=
  (read_data h l, read_dims h l, read_coords h l, read_attrs h l).

(** Two outcomes an observer cannot tell apart. *)
Definition same_outcome (r1 : outcome loc * world) (r2 : outcome loc * world)
  : Prop :=
  match r1.1, r2.1 with
  | Ok l1, Ok l2 => observe (heap r1.2) l1 = observe (heap r2.2) l2
  | Raise e1, Raise e2 => e1 = e2
  | _, _ => False
  end.

(** *** Heaps without dangling references *)

Definition object_refs (o : object) : list loc :=
  match o with
  | ODataArray x =>
      da_data x :: da_attrs x :: map (λ kv : string * variable, v_data kv.2)
                                     (da_coords x)
  | _ => []
  end.

Definition closed_heap (h : list object) : Prop :=
  Forall (λ o, Forall (λ l, l < length h) (object_refs o)) h.

(** *** Labels of the result *)

(** The coordinate the result carries in place of [kv]: the dict
    comprehension of [linint2], after the constructor has turned bare
    arrays into coordinates of their own name. *)
Definition relabel (dims : list string) (xo yo : loc)
    (kv : string * variable) : string * variable :=
  (kv.1,
   if bool_decide (kv.1 ∉ slice_last2 dims) then kv.2
   else if bool_decide (last dims = Some kv.1)
        then {| v_dims := [kv.1]; v_data := xo |}
        else {| v_dims := [kv.1]; v_data := yo |}).

(** The constructor's check of a list of coordinates against the data. *)
Definition coords_fit (h : list object) (dims : list string)
    (shape : list nat) (vars : list (string * variable)) : bool :=
  forallb (λ kv : string * variable,
             match read_ndarray h (v_data kv.2) with
             | Some a => coord_fits dims shape (v_dims kv.2) (nd_shape a)
             | None => false
             end) vars.

(** The same on the values: what an observer reads of that coordinate. *)
Definition relabel_view (dims : list string) (xo_a yo_a : ndarray)
    (kc : string * (list string * ndarray)) : string * (list string * ndarray) :=
  (kc.1,
   if bool_decide (kc.1 ∉ slice_last2 dims) then kc.2
   else if bool_decide (last dims = Some kc.1) then ([kc.1], xo_a)
        else ([kc.1], yo_a)).

(** The labels of [x], with [xo] and [yo] in place of the coordinates of
    the last two dimensions, pass the constructor's checks against data of
    shape [shape]. *)
Definition labels_fit (h : list object) (x : DataArray) (xo yo : loc)
    (shape : list nat) : Prop :=
  length (da_dims x) = length shape
  ∧ (∃ dict, h !! da_attrs x = Some (ODict dict))
  ∧ coords_fit h (da_dims x) shape
      (map (relabel (da_dims x) xo yo) (da_coords x)) = true.

(** *** Defaults *)

(** The missing value a call works with. *)
Definition resolve_xmsg (h : list object) (fi : loc) (xmsg : option elt)
  : option elt :=
  match xmsg with
  | Some m => Some m
  | None =>
      match read_dtype h fi with
      | Some dt => dtype_default_fill dt
      | None => None
      end
  end.

(** The input coordinates a call works with: those passed, or else the
    coordinate of the [k]-th dimension of [fi] from the right. *)
Definition resolve_coord (h : list object) (fi : loc) (k : nat)
    (arg : option loc) : option loc :=
  match arg with
  | Some l => Some l
  | None =>
      match read_DataArray h fi with
      | Some x =>
          match tuple_getitem_neg (da_dims x) k with
          | Ok d =>
              match assoc d (da_coords x) with
              | Some v =>
                  match read_ndarray h (v_data v) with
                  | Some _ => Some (v_data v)
                  | None => None
                  end
              | None => None
              end
          | Raise _ => None
          end
      | None => None
      end
  end.

(** The value [linint2] gives to [xi] ([k = 1]) and to [yi] ([k = 2]) when
    the caller passes [None]. *)
Definition coord_default (fi : loc) (k : nat) : M loc :=
  let* dims := get_dims fi in
  let* d := lift (tuple_getitem_neg dims k) in
  let* c := coords_getitem fi d in
  values c.

(** *** Calls on a chunked DataArray *)

(** The call by which dask probes the kernel, and the hidden state it
    leaves. *)
Definition probe (xi yi xo yo : ndarray) (d : dask_array ndarray)
    (icycx : bool) (xmsg : elt) : task :=
  _linint2 (meta_from_array xi) (meta_from_array yi) (dask_meta d)
    (meta_from_array xo) (meta_from_array yo) icycx xmsg.

Definition probed (xi yi xo yo : ndarray) (d : dask_array ndarray)
    (icycx : bool) (xmsg : elt) (s : KS) : KS :=
  (probe xi yi xo yo d icycx xmsg s).2.

(** The dask array [linint2] obtains from [map_blocks]: chunks as those of
    [d] but for the last two, which are [ys] and [xs]; one call of [f] for
    every block of the leading axes. *)
Definition dispatch (f : ndarray → task) (d : dask_array ndarray)
    (ys xs : list nat) : dask_array task :=
  {| dk_chunks := setslice_last2 (dk_chunks d) [ys; xs];
     dk_dtype := dk_dtype d;
     dk_blocks := map_blocks_grid f (length (dk_chunks d) - 2) 0 (dk_blocks d) |}.

(** In heap [h], [fi] is a DataArray [x] around the chunked array [d] of
    two or more dimensions, the call works with the missing value [m] and
    the input coordinates [xi_a] and [yi_a], and [xo] and [yo] are
    one-dimensional arrays of lengths [tx] and [ty]. *)
Record chunked_call (h : list object) (fi xo yo : loc) (xmsg : option elt)
    (xi yi : option loc) (x : DataArray) (d : dask_array ndarray) (m : elt)
    (xi_a yi_a xo_a yo_a : ndarray) (tx ty : nat) : Prop := ChunkedCall {
  cc_fi : read_DataArray h fi = Some x;
  cc_data : read_dask h (da_data x) = Some d;
  cc_ndim : 2 ≤ length (dk_chunks d);
  cc_xmsg : resolve_xmsg h fi xmsg = Some m;
  cc_xi : ∃ l, resolve_coord h fi 1 xi = Some l ∧ read_ndarray h l = Some xi_a;
  cc_yi : ∃ l, resolve_coord h fi 2 yi = Some l ∧ read_ndarray h l = Some yi_a;
  cc_xo : read_ndarray h xo = Some xo_a;
  cc_yo : read_ndarray h yo = Some yo_a;
  cc_xo_shape : nd_shape xo_a = [tx];
  cc_yo_shape : nd_shape yo_a = [ty]
}.

(** *** Two runs side by side *)

(** A computation of the native library whose outcome is the same in
    every hidden state. *)
Definition state_blind {A} (t : KM A) : Prop := ∀ s s', (t s).1 = (t s').1.

Definition outcome_map {A B} (f : A → B) (o : outcome A) : outcome B :=
  match o with
  | Ok a => Ok (f a)
  | Raise e => Raise e
  end.

Section Renaming.

(** The first run works in a heap whose first [n] objects are shared with
    the second; the second has [k] more objects before its own. *)
Variables (n k : nat).

Definition shift (l : loc) : loc := if decide (l < n) then l else l + k.

Definition shift_variable (v : variable) : variable :=
  {| v_dims := v_dims v; v_data := shift (v_data v) |}.

Definition shift_item (kv : string * variable) : string * variable :=
  (kv.1, shift_variable kv.2).

Definition shift_object (o : object) : object :=
  match o with
  | ODataArray x =>
      ODataArray {| da_data := shift (da_data x); da_dims := da_dims x;
                    da_coords := map shift_item (da_coords x);
                    da_attrs := shift (da_attrs x) |}
  | _ => o
  end.

Definition shift_coord_arg (c : coord_arg) : coord_arg :=
  match c with
  | CVar v => CVar (shift_variable v)
  | CRaw a => CRaw (shift a)
  end.

Definition shift_item_arg (kc : string * coord_arg) : string * coord_arg :=
  (kc.1, shift_coord_arg kc.2).

(** The heaps of the two runs hold the same objects, up to the shift. *)
Definition related (w1 w2 : world) : Prop :=
  n ≤ length (heap w1)
  ∧ length (heap w2) = length (heap w1) + k
  ∧ ∀ l, heap w2 !! shift l = shift_object <$> heap w1 !! l.

(** [m2] does in the second run what [m1] does in the first; a result of
    [m1] satisfies [P]. *)
Definition simulates {A} (r : A → A) (P : A → Prop) (m1 m2 : M A) : Prop :=
  ∀ w1 w2, related w1 w2 →
    related (m1 w1).2 (m2 w2).2
    ∧ (m2 w2).1 = outcome_map r (m1 w1).1
    ∧ ∀ a, (m1 w1).1 = Ok a → P a.

End Renaming.

(** *** Frame conditions *)

(** [m] only reads. *)
Definition readonly {A} (m : M A) : Prop := ∀ w, (m w).2 = w.

(** [m], started in a heap that extends [h0], leaves [h0] as it is, and
    its result satisfies [Q]. *)
Definition preserves {A} (h0 : list object) (m : M A) (Q : A → world → Prop)
  : Prop :=
  ∀ w, h0 `prefix_of` heap w →
    h0 `prefix_of` heap (m w).2
    ∧ ∀ a, (m w).1 = Ok a → Q a (m w).2.

(** *** Calls into the native library *)

(** [m] never enters the native library: the hidden state stays as it was. *)
Definition quiet {A} (m : M A) : Prop := ∀ w, kstate (m w).2 = kstate w.

(** *** Labelled inputs *)

(** The labels of [x] agree with its chunked data [d]: the dimension names
    are distinct, one for each axis, and end in [dy], [dx]; the attributes
    are a dict; every coordinate is either named after one of the last two
    dimensions or an array over leading dimensions only, of their sizes. *)
Definition labelled_input (h : list object) (x : DataArray)
    (d : dask_array ndarray) (lead : list string) (dy dx : string) : Prop :=
  da_dims x = lead ++ [dy; dx]
  ∧ NoDup (da_dims x)
  ∧ length (da_dims x) = length (dk_chunks d)
  ∧ (∃ dict, h !! da_attrs x = Some (ODict dict))
  ∧ Forall (λ kv : string * variable,
              kv.1 = dx ∨ kv.1 = dy
              ∨ (∃ a, read_ndarray h (v_data kv.2) = Some a
                      ∧ coord_fits (da_dims x) (dk_shape d) (v_dims kv.2)
                          (nd_shape a) = true
                      ∧ (dx ∉ v_dims kv.2) ∧ (dy ∉ v_dims kv.2)))
      (da_coords x).

End Glue.

Arguments interleave {elt}.
Arguments concat2 {elt}.
Arguments concatenate_from {elt}.
Arguments np_concatenate {elt}.
Arguments concatenate3 {elt}.
Arguments conformsb {elt}.
Arguments well_chunked {elt}.
Arguments unchunked_last2 {elt}.
Arguments read_ndarray {elt}.
Arguments read_DataArray {elt}.
Arguments read_dims {elt}.
Arguments read_dask {elt}.
Arguments read_dtype {elt}.
Arguments read_attrs {elt}.
Arguments read_variable {elt}.
Arguments read_variables {elt}.
Arguments read_coords {elt}.
Arguments read_data {elt}.
Arguments observe {elt}.
Arguments object_refs {elt}.
Arguments closed_heap {elt}.
Arguments Ndarray {elt}.
Arguments ONdarray {elt}.
Arguments ODask {elt}.
Arguments OList {elt}.
Arguments ODict {elt}.
Arguments ODataArray {elt}.
Arguments nd_dtype {elt}.
Arguments nd_shape {elt}.
Arguments nd_data {elt}.
Arguments arange {elt}.
Arguments map_blocks_grid {elt KS}.
Arguments lead_blocks {elt}.
Arguments task_for {elt KS}.
Arguments chain {elt KS X}.
Arguments probe {elt KS}.
Arguments probed {elt KS}.
Arguments meta_from_array {elt}.
Arguments dask_meta {elt}.
Arguments compute_meta {elt KS}.
Arguments run_tasks {elt KS}.
Arguments schedule scheduler {A}.
Arguments pick {B}.
Arguments pick_all {B}.
Arguments unscramble {B}.
Arguments blocks_of {B}.
Arguments refill {A B}.
Arguments refill_children {A B C}.
Arguments map_blocks {elt KS}.
Arguments run_grid {elt KS}.
Arguments compute_blocks {elt KS}.
Arguments ret {elt KS A}.
Arguments raise {elt KS A}.
Arguments bind {elt KS A B}.
Arguments lift {elt KS A}.
Arguments alloc {elt KS}.
Arguments deref {elt KS}.
Arguments store {elt KS}.
Arguments call {elt KS A}.
Arguments mapM {elt KS A B}.
Arguments deref_ndarray {elt KS}.
Arguments get_shape {elt KS}.
Arguments get_ndim {elt KS}.
Arguments get_dtype {elt KS}.
Arguments get_dims {elt KS}.
Arguments get_attrs {elt KS}.
Arguments coords_items {elt KS}.
Arguments get_data {elt KS}.
Arguments get_chunks {elt KS}.
Arguments values {elt KS}.
Arguments as_variable {elt KS}.
Arguments check_coord {elt KS}.
Arguments deref_dict {elt KS}.
Arguments xr_DataArray {elt KS}.
Arguments list_of {elt KS}.
Arguments list_setslice_last2 {elt KS}.
Arguments default_fill_getitem {elt KS}.
Arguments map_blocks_linint2 {elt KS}.
Arguments compute {elt KS}.
Arguments blockwise {elt KS}.
Arguments kernel_deterministic {elt KS}.
Arguments kernel_shapes {elt KS}.
Arguments same_outcome {elt KS}.
Arguments preserves {elt KS A}.
Arguments World {elt KS}.
Arguments heap {elt KS}.
Arguments kstate {elt KS}.
Arguments coords_getitem {elt} of_nat {KS}.
Arguments coord_default {elt} of_nat {KS}.
Arguments readonly {elt KS A}.
Arguments coords_fit {elt}.
Arguments state_blind {KS A}.
Arguments shift_object {elt}.
Arguments related {elt KS}.
Arguments simulates {elt KS} n k {A}.
Arguments dispatch {elt KS}.
Arguments relabel_view {elt}.
Arguments labels_fit {elt}.
Arguments chunked_call {elt}.
Arguments resolve_xmsg {elt}.
Arguments resolve_coord {elt}.
Arguments mapKM {KS A B}.
Arguments linint2 {elt} of_nat {KS}.
Arguments DaskArray {B}.
Arguments dk_chunks {B}.
Arguments dk_dtype {B}.
Arguments dk_blocks {B}.

Arguments quiet {elt KS A}.
Arguments labelled_input {elt}.

(** ** Counting the calls of a kernel *)

(** [f] with a counter of its calls beside its hidden state. *)
Definition counting {elt KS : Type} (f : ndarray elt → task elt KS)
  : ndarray elt → task elt (KS * nat) := λ b sc,
  let (r, s') := f b sc.1 in (r, (s', S sc.2)).

Definition counting_kernel {elt KS : Type}
    (kernel : ndarray elt → ndarray elt → ndarray elt → ndarray elt →
              ndarray elt → bool → elt → task elt KS)
  : ndarray elt → ndarray elt → ndarray elt → ndarray elt → ndarray elt →
    bool → elt → task elt (KS * nat) :=
  λ xi yi fi xo yo icycx xmsg,
    counting (λ b, kernel xi yi b xo yo icycx xmsg) fi.

(** ** The calls a kernel receives *)

(** One call of [_ncomp._linint2]: its arguments, and what it returned or
    raised. *)
Record kernel_call (elt : Type) := KernelCall {
  kc_xi : ndarray elt;
  kc_yi : ndarray elt;
  kc_fi : ndarray elt;
  kc_xo : ndarray elt;
  kc_yo : ndarray elt;
  kc_icycx : bool;
  kc_xmsg : elt;
  kc_outcome : outcome (ndarray elt)
}.
Arguments KernelCall {elt}.
Arguments kc_xi {elt}.
Arguments kc_yi {elt}.
Arguments kc_fi {elt}.
Arguments kc_xo {elt}.
Arguments kc_yo {elt}.
Arguments kc_icycx {elt}.
Arguments kc_xmsg {elt}.
Arguments kc_outcome {elt}.

(** [kernel] with a log of its calls, in the order they were made, beside
    its hidden state. *)
Definition recording {elt KS : Type}
    (kernel : ndarray elt → ndarray elt → ndarray elt → ndarray elt →
              ndarray elt → bool → elt → task elt KS)
  : ndarray elt → ndarray elt → ndarray elt → ndarray elt → ndarray elt →
    bool → elt → task elt (KS * list (kernel_call elt)) :=
  λ xi yi fi xo yo icycx xmsg sl,
    let (r, s') := kernel xi yi fi xo yo icycx xmsg sl.1 in
    (r, (s', sl.2 ++ [KernelCall xi yi fi xo yo icycx xmsg r])).

(** The call by which dask probes the kernel, as the log shows it. *)
Definition probe_call {elt : Type} (xi yi xo yo : ndarray elt)
    (d : dask_array (ndarray elt)) (icycx : bool) (xmsg : elt)
    (o : outcome (ndarray elt)) : kernel_call elt :=
  KernelCall (meta_from_array xi) (meta_from_array yi) (dask_meta d)
    (meta_from_array xo) (meta_from_array yo) icycx xmsg o.

(** The call on one block that returned [o]. *)
Definition block_call {elt : Type} (xi yi xo yo : ndarray elt) (icycx : bool)
    (xmsg : elt)
    (b o : ndarray elt) : kernel_call elt :=
  KernelCall xi yi b xo yo icycx xmsg (Ok o).

(** ** A concrete setting

    Elements are natural numbers, the hidden state of the kernel counts its
    calls, and the kernel fills its result with the missing value. *)

Module Example.

Local Open Scope string_scope.
Local Open Scope list_scope.
Local Open Scope nat_scope.

Definition fill (dt : dtype) : option nat :=
  if decide (dt = "float64") then Some 99
  else if decide (dt = "float32") then Some 99
  else None.

Definition kernel (xi yi fi xo yo : ndarray nat) (icycx : bool) (xmsg : nat)
  : task nat nat := λ s,
  let shape := take (length (nd_shape fi) - 2) (nd_shape fi)
               ++ nd_shape yo ++ nd_shape xo in
  (Ok {| nd_dtype := nd_dtype fi; nd_shape := shape;
         nd_data := replicate (product shape) xmsg |}, S s).

Definition vec (l : list nat) : ndarray nat :=
  {| nd_dtype := "float64"; nd_shape := [length l]; nd_data := l |}.

Definition block (v : nat) : ndarray nat :=
  {| nd_dtype := "float64"; nd_shape := [1; 2; 3]; nd_data := replicate 6 v |}.

Definition plain : ndarray nat :=
  {| nd_dtype := "float64"; nd_shape := [2; 3]; nd_data := [1; 2; 3; 4; 5; 6] |}.

(** Locations of the objects of [heap0]. *)
Definition lat : loc := 0.
Definition lon : loc := 1.
Definition chunked_data : loc := 2.
Definition attrs : loc := 3.
Definition time : loc := 4.
Definition fi : loc := 5.          (* a chunked DataArray, time x lat x lon *)
Definition xo : loc := 6.
Definition yo : loc := 7.
Definition fi_numpy : loc := 8.    (* a plain numpy array, lat x lon *)
Definition fi_unchunked : loc := 9. (* a DataArray around [fi_numpy] *)

(** The chunked array behind [fi]: two blocks along [time]. *)
Definition chunked : dask_array (ndarray nat) :=
  {| dk_chunks := [[1; 1]; [2]; [3]]; dk_dtype := "float64";
     dk_blocks := Axis [Axis [Axis [Block (block 5)]];
                        Axis [Axis [Block (block 7)]]] |}.

Definition labelled : DataArray :=
  {| da_data := chunked_data; da_dims := ["time"; "lat"; "lon"];
     da_coords := [("time", {| v_dims := ["time"]; v_data := time |});
                   ("lat", {| v_dims := ["lat"]; v_data := lat |});
                   ("lon", {| v_dims := ["lon"]; v_data := lon |})];
     da_attrs := attrs |}.

Definition unchunked : DataArray :=
  {| da_data := fi_numpy; da_dims := ["lat"; "lon"];
     da_coords := [("lat", {| v_dims := ["lat"]; v_data := lat |});
                   ("lon", {| v_dims := ["lon"]; v_data := lon |})];
     da_attrs := attrs |}.

Definition heap0 : list (object nat) :=
  [ ONdarray (vec [0; 1]);
    ONdarray (vec [0; 1; 2]);
    ODask chunked;
    ODict [("units", "K")];
    ONdarray (vec [10; 20]);
    ODataArray labelled;
    ONdarray (vec [0; 1; 2; 3]);
    ONdarray (vec [0; 2; 4]);
    ONdarray plain;
    ODataArray unchunked ].

(** What [linint2] computes from [fi] with this kernel. *)
Definition result : ndarray nat :=
  {| nd_dtype := "float64"; nd_shape := [2; 3; 4];
     nd_data := replicate 24 99 |}.

Definition world0 : world nat nat := {| heap := heap0; kstate := 0 |}.

(** A scheduler that starts the last of the ready tasks. *)
Definition sched (ready : nat) : nat := ready - 1.

(** [linint2] in this setting. *)
Definition run (fi xo yo : loc) (icycx : bool) (xmsg : option nat)
    (meta : bool) (xi yi : option loc) : M nat nat loc :=
  linint2 id fill kernel sched fi xo yo icycx xmsg meta xi yi.

(** *** Further inputs *)

(** Locations of the objects [heap1] holds behind those of [heap0]. *)
Definition int_data : loc := 10.
Definition fi_int : loc := 11.     (* chunked int64 data, no coordinates *)
Definition scalar_data : loc := 12.
Definition fi_scalar : loc := 13.  (* a DataArray without dimensions *)
Definition fi_line : loc := 14.    (* a DataArray over [lon] only *)
Definition fi_curvilinear : loc := 15. (* [fi] with a coordinate over lat x lon *)
Definition fi_renamed : loc := 16. (* the data of [fi] under other labels *)

Definition chunked_int : dask_array (ndarray nat) :=
  {| dk_chunks := [[2]; [3]]; dk_dtype := "int64";
     dk_blocks :=
       Axis [Axis [Block {| nd_dtype := "int64"; nd_shape := [2; 3];
                            nd_data := [1; 2; 3; 4; 5; 6] |}]] |}.

Definition bare : DataArray :=
  {| da_data := int_data; da_dims := ["lat"; "lon"]; da_coords := [];
     da_attrs := attrs |}.

Definition scalar : DataArray :=
  {| da_data := scalar_data; da_dims := []; da_coords := [];
     da_attrs := attrs |}.

Definition line : DataArray :=
  {| da_data := lon; da_dims := ["lon"];
     da_coords := [("lon", {| v_dims := ["lon"]; v_data := lon |})];
     da_attrs := attrs |}.

Definition curvilinear : DataArray :=
  {| da_data := chunked_data; da_dims := ["time"; "lat"; "lon"];
     da_coords := [("time", {| v_dims := ["time"]; v_data := time |});
                   ("lat", {| v_dims := ["lat"]; v_data := lat |});
                   ("lon", {| v_dims := ["lon"]; v_data := lon |});
                   ("xc", {| v_dims := ["lat"; "lon"]; v_data := fi_numpy |})];
     da_attrs := attrs |}.

Definition renamed : DataArray :=
  {| da_data := chunked_data; da_dims := ["t"; "y"; "x"]; da_coords := [];
     da_attrs := attrs |}.

Definition heap1 : list (object nat) :=
  heap0
  ++ [ ODask chunked_int;
       ODataArray bare;
       ONdarray {| nd_dtype := "float64"; nd_shape := []; nd_data := [7] |};
       ODataArray scalar;
       ODataArray line;
       ODataArray curvilinear;
       ODataArray renamed ].

Definition world1 : world nat nat := {| heap := heap1; kstate := 0 |}.

(** A kernel that refuses every block. *)
Definition refusing (xi yi fi xo yo : ndarray nat) (icycx : bool) (xmsg : nat)
  : task nat nat := λ s, (Raise ValueError, S s).

(** [heap0] beside a counter of kernel calls. *)
Definition counted0 : world nat (nat * nat) :=
  {| heap := heap0; kstate := (0, 0) |}.

(** *** An input chunked along its last two axes *)

Definition tiled_data : loc := 17.
Definition fi_tiled : loc := 18.   (* a chunked DataArray, lat x lon *)

Definition tile (shape : list nat) (l : list nat) : ndarray nat :=
  {| nd_dtype := "float64"; nd_shape := shape; nd_data := l |}.

(** The values of [plain], in two chunks along each axis. *)
Definition tiled_chunks : dask_array (ndarray nat) :=
  {| dk_chunks := [[1; 1]; [2; 1]]; dk_dtype := "float64";
     dk_blocks :=
       Axis [Axis [Block (tile [1; 2] [1; 2]); Block (tile [1; 1] [3])];
             Axis [Block (tile [1; 2] [4; 5]); Block (tile [1; 1] [6])]] |}.

Definition tiled : DataArray :=
  {| da_data := tiled_data; da_dims := ["lat"; "lon"];
     da_coords := [("lat", {| v_dims := ["lat"]; v_data := lat |});
                   ("lon", {| v_dims := ["lon"]; v_data := lon |})];
     da_attrs := attrs |}.

Definition heap2 : list (object nat) :=
  heap1 ++ [ ODask tiled_chunks; ODataArray tiled ].

Definition world2 : world nat nat := {| heap := heap2; kstate := 0 |}.

(** What [linint2] computes from [fi_tiled], and what the kernel called on
    every chunk of [fi_tiled] gives when the results are put together. *)
Definition result_tiled : ndarray nat :=
  {| nd_dtype := "float64"; nd_shape := [3; 4];
     nd_data := replicate 12 99 |}.

Definition chunkwise_tiled : ndarray nat :=
  {| nd_dtype := "float64"; nd_shape := [6; 8];
     nd_data := replicate 48 99 |}.

(** The heaps beside an empty log of kernel calls. *)
Definition logged0 : world nat (nat * list (kernel_call nat)) :=
  {| heap := heap0; kstate := (0, []) |}.

Definition logged2 : world nat (nat * list (kernel_call nat)) :=
  {| heap := heap2; kstate := (0, []) |}.

End Example.

(** ** Properties *)

Section Properties.

Context {elt KS : Type}.
Variable of_nat : nat → elt.
Variable dtype_default_fill : dtype → option elt.
Variable _linint2 :
  ndarray elt → ndarray elt → ndarray elt → ndarray elt → ndarray elt →
  bool → elt → task elt KS.

Variable scheduler : nat → nat.

Local Abbreviation M := (M elt KS).
Local Abbreviation world := (world elt KS).
Local Abbreviation linint2 :=
  (linint2 of_nat dtype_default_fill _linint2 scheduler).
Local Abbreviation run_tasks := (run_tasks scheduler).
Local Abbreviation run_grid := (run_grid scheduler).
Local Abbreviation compute_blocks := (compute_blocks scheduler).
Local Abbreviation compute := (compute scheduler).
Local Abbreviation blockwise := (blockwise scheduler).
Local Abbreviation schedule := (schedule scheduler).
Local Abbreviation probed := (probed _linint2).

Implicit Types (w : world) (h : list (object elt)) (l : loc).

(** *** The monad *)

Lemma bind_ok {A B} (m : M A) (f : A → M B) w a w' :
  m w = (Ok a, w') → bind m f w = f a w'.
Proof. unfold bind. by intros ->. Qed.

Lemma bind_raise {A B} (m : M A) (f : A → M B) w e w' :
  m w = (Raise e, w') → bind m f w = (Raise e, w').
Proof. unfold bind. by intros ->. Qed.

Lemma deref_some w l o :
  heap w !! l = Some o → deref l w = (Ok o, w).
Proof. unfold deref. by intros ->. Qed.

(** *** Reads that succeed *)

Lemma get_dtype_read w l dt :
  read_dtype (heap w) l = Some dt → get_dtype l w = (Ok dt, w).
Proof.
  unfold read_dtype, get_dtype, bind, deref. intros H.
  destruct (heap w !! l) as [[a|d|?|?|x]|]; simplify_eq/=; try done.
  destruct (heap w !! da_data x) as [[a|d|?|?|?]|]; by simplify_eq/=.
Qed.

Lemma get_dims_read w l x :
  read_DataArray (heap w) l = Some x → get_dims l w = (Ok (da_dims x), w).
Proof.
  unfold read_DataArray, get_dims, bind, deref. intros H.
  destruct (heap w !! l) as [[]|]; by simplify_eq/=.
Qed.

Lemma get_attrs_read w l x :
  read_DataArray (heap w) l = Some x → get_attrs l w = (Ok (da_attrs x), w).
Proof.
  unfold read_DataArray, get_attrs, bind, deref. intros H.
  destruct (heap w !! l) as [[]|]; by simplify_eq/=.
Qed.

Lemma coords_items_read w l x :
  read_DataArray (heap w) l = Some x →
  coords_items l w = (Ok (da_coords x), w).
Proof.
  unfold read_DataArray, coords_items, bind, deref. intros H.
  destruct (heap w !! l) as [[]|]; by simplify_eq/=.
Qed.

Lemma get_data_read w l x :
  read_DataArray (heap w) l = Some x → get_data l w = (Ok (da_data x), w).
Proof.
  unfold read_DataArray, get_data, bind, deref. intros H.
  destruct (heap w !! l) as [[]|]; by simplify_eq/=.
Qed.

Lemma get_chunks_read w l x d :
  read_DataArray (heap w) l = Some x →
  read_dask (heap w) (da_data x) = Some d →
  get_chunks l w = (Ok (Some (dk_chunks d)), w).
Proof.
  unfold read_DataArray, read_dask, get_chunks, bind, deref. intros H H'.
  destruct (heap w !! l) as [[]|]; simplify_eq/=.
  destruct (heap w !! da_data x) as [[]|]; by simplify_eq/=.
Qed.

Lemma get_shape_DataArray_read w l x d :
  read_DataArray (heap w) l = Some x →
  read_dask (heap w) (da_data x) = Some d →
  get_shape l w = (Ok (dk_shape d), w).
Proof.
  unfold read_DataArray, read_dask, get_shape, bind, deref. intros H H'.
  destruct (heap w !! l) as [[]|]; simplify_eq/=.
  destruct (heap w !! da_data x) as [[]|]; by simplify_eq/=.
Qed.

Lemma get_shape_ndarray_read w l a :
  read_ndarray (heap w) l = Some a → get_shape l w = (Ok (nd_shape a), w).
Proof.
  unfold read_ndarray, get_shape, bind, deref. intros H.
  destruct (heap w !! l) as [[]|]; by simplify_eq/=.
Qed.

Lemma deref_ndarray_read w l a :
  read_ndarray (heap w) l = Some a → deref_ndarray l w = (Ok a, w).
Proof.
  unfold read_ndarray, deref_ndarray, bind, deref. intros H.
  destruct (heap w !! l) as [[]|]; by simplify_eq/=.
Qed.

Lemma coords_getitem_read w l x k v :
  read_DataArray (heap w) l = Some x → assoc k (da_coords x) = Some v →
  coords_getitem of_nat l k w = (Ok v, w).
Proof.
  unfold read_DataArray, coords_getitem, bind, deref. intros H Hk.
  destruct (heap w !! l) as [[]|]; simplify_eq/=. by rewrite Hk.
Qed.

Lemma values_read w v a :
  read_ndarray (heap w) (v_data v) = Some a →
  values v w = (Ok (v_data v), w).
Proof.
  unfold read_ndarray, values, bind, deref. intros H.
  destruct (heap w !! v_data v) as [[]|]; by simplify_eq/=.
Qed.

Lemma tuple_getitem_neg_last {A} (t : list A) (x : A) :
  last t = Some x → tuple_getitem_neg t 1 = Ok x.
Proof.
  intros H. unfold tuple_getitem_neg.
  rewrite last_lookup in H.
  assert (0 < length t).
  { apply lookup_lt_Some in H. lia. }
  rewrite decide_True by lia.
  replace (length t - 1) with (pred (length t)) by lia. by rewrite H.
Qed.

Lemma tuple_getitem_neg_second {A} (t : list A) (x : A) :
  2 ≤ length t → t !! (length t - 2) = Some x → tuple_getitem_neg t 2 = Ok x.
Proof.
  intros Hl H. unfold tuple_getitem_neg.
  rewrite decide_True by lia. by rewrite H.
Qed.

(** *** Frame rules *)

Lemma preserves_conseq {A} h0 (m : M A) (Q Q' : A → world → Prop) :
  preserves h0 m Q → (∀ a w, Q a w → Q' a w) → preserves h0 m Q'.
Proof.
  intros Hm HQ w Hw. destruct (Hm w Hw) as [Hp Ha]. split; [done|].
  intros a Ea. auto.
Qed.

Lemma preserves_ret {A} h0 (a : A) (Q : A → world → Prop) :
  (∀ w, Q a w) → preserves h0 (ret (elt:=elt) (KS:=KS) a) Q.
Proof. intros HQ w Hw. split; [done|]. simpl. by intros ? [= <-]. Qed.

Lemma preserves_raise {A} h0 e (Q : A → world → Prop) :
  preserves h0 (raise (elt:=elt) (KS:=KS) e) Q.
Proof. intros w Hw. split; [done|]. simpl. by intros ? [=]. Qed.

Lemma preserves_lift {A} h0 (o : outcome A) :
  preserves h0 (lift (elt:=elt) (KS:=KS) o) (λ _ _, True).
Proof. intros w Hw. by split. Qed.

Lemma preserves_bind {A B} h0 (m : M A) (f : A → M B) (Q : A → Prop) R :
  preserves h0 m (λ a _, Q a) → (∀ a, Q a → preserves h0 (f a) R) →
  preserves h0 (bind m f) R.
Proof.
  intros Hm Hf w Hw. unfold bind.
  destruct (Hm w Hw) as [Hp Ha].
  destruct (m w) as [[a|e] w1]; simpl in *.
  - apply Hf; auto.
  - split; [done|]. by intros ? [=].
Qed.

Lemma preserves_alloc h0 (o : object elt) :
  preserves h0 (alloc (KS:=KS) o) (λ l _, length h0 ≤ l).
Proof.
  intros w [k Hk]. simpl. split.
  - exists (k ++ [o]). rewrite Hk. by rewrite app_assoc.
  - intros a [= <-]. rewrite Hk, length_app. lia.
Qed.

Lemma preserves_deref h0 l :
  preserves h0 (deref (elt:=elt) (KS:=KS) l) (λ _ _, True).
Proof.
  intros w Hw. unfold deref. destruct (heap w !! l); by split.
Qed.

Lemma preserves_store h0 l (o : object elt) :
  length h0 ≤ l → preserves h0 (store (KS:=KS) l o) (λ _ _, True).
Proof.
  intros Hl w [k Hk]. simpl. split; [|done].
  exists (<[l - length h0 := o]> k). rewrite Hk.
  by rewrite insert_app_r_alt.
Qed.

Lemma preserves_call {A} h0 (k : KM KS A) :
  preserves h0 (call (elt:=elt) k) (λ _ _, True).
Proof.
  intros w Hw. unfold call. destruct (k (kstate w)). by split.
Qed.

Lemma preserves_mapM {A B} h0 (f : A → M B) (xs : list A) :
  (∀ a, preserves h0 (f a) (λ _ _, True)) →
  preserves h0 (mapM f xs) (λ _ _, True).
Proof.
  intros Hf. induction xs as [|a xs IH]; simpl.
  - by apply preserves_ret.
  - eapply preserves_bind; [apply Hf|]. intros b _.
    eapply preserves_bind; [apply IH|]. intros bs _.
    by apply preserves_ret.
Qed.

Create HintDb frame.
Hint Resolve preserves_lift preserves_deref preserves_call preserves_alloc
  preserves_raise : frame.

Ltac frame_step :=
  try done; first
    [ apply preserves_raise
    | apply preserves_ret; done
    | solve [eauto with frame]
    | eapply preserves_conseq; [solve [eauto with frame] | done]
    | eapply preserves_bind; [solve [eauto with frame] | intros ? ?]
    | eapply preserves_bind with (Q := λ _, True);
        [solve [repeat frame_step] | intros ? ?]
    | lazymatch goal with
      | |- preserves _ (match ?x with _ => _ end) _ => destruct x
      | |- preserves _ (if ?x then _ else _) _ => destruct x
      end ].

Ltac frame := repeat frame_step.

Lemma preserves_deref_ndarray h0 l :
  preserves h0 (deref_ndarray (KS:=KS) l) (λ (_ : ndarray elt) _, True).
Proof. unfold deref_ndarray. frame. Qed.

Lemma preserves_get_shape h0 l :
  preserves h0 (get_shape (elt:=elt) (KS:=KS) l) (λ _ _, True).
Proof. unfold get_shape. frame. Qed.
Hint Resolve preserves_deref_ndarray preserves_get_shape : frame.

Lemma preserves_get_ndim h0 l :
  preserves h0 (get_ndim (elt:=elt) (KS:=KS) l) (λ _ _, True).
Proof. unfold get_ndim. frame. Qed.

Lemma preserves_get_dtype h0 l :
  preserves h0 (get_dtype (elt:=elt) (KS:=KS) l) (λ _ _, True).
Proof. unfold get_dtype. frame. Qed.

Lemma preserves_get_dims h0 l :
  preserves h0 (get_dims (elt:=elt) (KS:=KS) l) (λ _ _, True).
Proof. unfold get_dims. frame. Qed.

Lemma preserves_get_attrs h0 l :
  preserves h0 (get_attrs (elt:=elt) (KS:=KS) l) (λ _ _, True).
Proof. unfold get_attrs. frame. Qed.

Lemma preserves_coords_items h0 l :
  preserves h0 (coords_items (elt:=elt) (KS:=KS) l) (λ _ _, True).
Proof. unfold coords_items. frame. Qed.

Lemma preserves_get_data h0 l :
  preserves h0 (get_data (elt:=elt) (KS:=KS) l) (λ _ _, True).
Proof. unfold get_data. frame. Qed.

Lemma preserves_get_chunks h0 l :
  preserves h0 (get_chunks (elt:=elt) (KS:=KS) l) (λ _ _, True).
Proof. unfold get_chunks. frame. Qed.
Hint Resolve preserves_get_ndim preserves_get_dtype preserves_get_dims
  preserves_get_attrs preserves_coords_items preserves_get_data
  preserves_get_chunks : frame.

Lemma preserves_coords_getitem h0 l k :
  preserves h0 (coords_getitem of_nat (KS:=KS) l k) (λ _ _, True).
Proof. unfold coords_getitem. frame. Qed.

Lemma preserves_values h0 v :
  preserves h0 (values (elt:=elt) (KS:=KS) v) (λ _ _, True).
Proof. unfold values. frame. Qed.

Lemma preserves_as_variable h0 kc :
  preserves h0 (as_variable (elt:=elt) (KS:=KS) kc) (λ _ _, True).
Proof. unfold as_variable. frame. Qed.

Lemma preserves_check_coord h0 dims shape kv :
  preserves h0 (check_coord (elt:=elt) (KS:=KS) dims shape kv) (λ _ _, True).
Proof. unfold check_coord. frame. Qed.

Lemma preserves_deref_dict h0 l :
  preserves h0 (deref_dict (elt:=elt) (KS:=KS) l) (λ _ _, True).
Proof. unfold deref_dict. frame. Qed.
Hint Resolve preserves_coords_getitem preserves_values preserves_as_variable
  preserves_check_coord preserves_deref_dict preserves_mapM : frame.

(** The constructor returns an object that did not exist before. *)
Lemma preserves_xr_DataArray h0 data coords dims attrs :
  preserves h0 (xr_DataArray (elt:=elt) (KS:=KS) data coords dims attrs)
    (λ l _, length h0 ≤ l).
Proof. unfold xr_DataArray. frame. Qed.

Lemma preserves_list_of h0 t :
  preserves h0 (list_of (elt:=elt) (KS:=KS) t) (λ l _, length h0 ≤ l).
Proof. unfold list_of. frame. Qed.

Lemma preserves_list_setslice_last2 h0 l items :
  length h0 ≤ l →
  preserves h0 (list_setslice_last2 (elt:=elt) (KS:=KS) l items) (λ _ _, True).
Proof.
  intros Hl. unfold list_setslice_last2. frame; by apply preserves_store.
Qed.

Lemma preserves_default_fill_getitem h0 dt :
  preserves h0 (default_fill_getitem (KS:=KS) dtype_default_fill dt) (λ _ _, True).
Proof. unfold default_fill_getitem. frame. Qed.

Lemma preserves_map_blocks_linint2 h0 xi yi fi_data xo yo icycx xmsg c dt da na :
  preserves h0
    (map_blocks_linint2 _linint2 xi yi fi_data xo yo icycx xmsg c dt da na)
    (λ _ _, True).
Proof. unfold map_blocks_linint2. frame. Qed.

Lemma preserves_compute h0 (d : dask_array (task elt KS)) :
  preserves h0 (compute d) (λ l _, length h0 ≤ l).
Proof. unfold compute. frame. Qed.
Hint Resolve preserves_xr_DataArray preserves_list_of
  preserves_default_fill_getitem preserves_map_blocks_linint2
  preserves_compute : frame.

Lemma preserves_linint2 h0 fi xo yo icycx xmsg meta xi yi :
  preserves h0 (linint2 fi xo yo icycx xmsg meta xi yi) (λ l _, length h0 ≤ l).
Proof.
  unfold linint2.
  eapply preserves_bind with (Q := λ _, True); [frame|intros xmsg' _].
  eapply preserves_bind with (Q := λ _, True); [frame|intros xi' _].
  eapply preserves_bind with (Q := λ _, True); [frame|intros yi' _].
  do 3 frame_step.
  frame_step. frame_step.
  eapply preserves_bind;
    [by apply preserves_list_setslice_last2|intros _ _].
  frame.
Qed.

Lemma preserves_alloc_object h0 (o : object elt) :
  preserves h0 (alloc (KS:=KS) o)
    (λ l w, length h0 ≤ l ∧ heap w !! l = Some o).
Proof.
  intros w Hw. destruct (preserves_alloc h0 o w Hw) as [Hp Hl].
  split; [done|]. intros a Ha. split; [by apply Hl|].
  simpl in *. injection Ha as <-. by rewrite lookup_app_r, Nat.sub_diag.
Qed.

(** The DataArray the constructor returns is new and wraps [data]. *)
Lemma preserves_xr_DataArray_object h0 data coords dims attrs :
  preserves h0 (xr_DataArray (elt:=elt) (KS:=KS) data coords dims attrs)
    (λ l w, length h0 ≤ l
            ∧ ∃ x, heap w !! l = Some (ODataArray x) ∧ da_data x = data).
Proof.
  unfold xr_DataArray. do 6 frame_step.
  eapply preserves_conseq; [apply preserves_alloc_object|].
  intros l w [Hl Hx]. split; [done|]. eauto.
Qed.

Lemma preserves_linint2_object h0 fi xo yo icycx xmsg meta xi yi :
  preserves h0 (linint2 fi xo yo icycx xmsg meta xi yi)
    (λ l w, length h0 ≤ l
            ∧ ∃ x, heap w !! l = Some (ODataArray x) ∧ length h0 ≤ da_data x).
Proof.
  unfold linint2.
  eapply preserves_bind with (Q := λ _, True); [frame|intros xmsg' _].
  eapply preserves_bind with (Q := λ _, True); [frame|intros xi' _].
  eapply preserves_bind with (Q := λ _, True); [frame|intros yi' _].
  do 5 frame_step.
  eapply preserves_bind;
    [by apply preserves_list_setslice_last2|intros _ _].
  do 3 frame_step.
  eapply preserves_bind; [apply preserves_compute|intros result Hres].
  destruct meta.
  - do 3 frame_step.
    eapply preserves_conseq; [apply preserves_xr_DataArray_object|].
    intros l w (Hl & x & Hx & Hd). split; [done|].
    exists x. split; [done|]. by rewrite Hd.
  - eapply preserves_conseq; [apply preserves_xr_DataArray_object|].
    intros l w (Hl & x & Hx & Hd). split; [done|].
    exists x. split; [done|]. by rewrite Hd.
Qed.

(** C9. [linint2] does not modify its arguments: whatever the call does,
    every object that existed before it (the input [fi] with its data,
    dimensions, coordinates and attributes, and the arrays [xo], [yo],
    [xi], [yi] among them) is the same afterwards, and the DataArray it
    returns, like the array it wraps, is an object that did not exist
    before the call. *)
Theorem linint2_leaves_arguments_unchanged
    (w : world) (fi xo yo : loc) (icycx : bool) (xmsg : option elt)
    (meta : bool) (xi yi : option loc) :
  let r := linint2 fi xo yo icycx xmsg meta xi yi w in
  (∀ l o, heap w !! l = Some o → heap r.2 !! l = Some o)
  ∧ (∀ res, r.1 = Ok res →
       heap w !! res = None
       ∧ ∃ x, heap r.2 !! res = Some (ODataArray x)
              ∧ heap w !! da_data x = None).
Proof.
  intros r.
  destruct (preserves_linint2_object (heap w) fi xo yo icycx xmsg meta xi yi w)
    as [Hp Hr]; [done|].
  split.
  - intros l o Hl. by eapply prefix_lookup_Some.
  - intros res Hres. destruct (Hr res Hres) as (Hl & x & Hx & Hd).
    split; [by apply lookup_ge_None_2|].
    exists x. split; [done|]. by apply lookup_ge_None_2.
Qed.

(** *** Computations that only read *)

Lemma readonly_ret {A} (a : A) : readonly (ret (elt:=elt) (KS:=KS) a).
Proof. done. Qed.

Lemma readonly_raise {A} e : readonly (raise (elt:=elt) (KS:=KS) (A:=A) e).
Proof. done. Qed.

Lemma readonly_lift {A} (o : outcome A) : readonly (lift (elt:=elt) (KS:=KS) o).
Proof. done. Qed.

Lemma readonly_deref l : readonly (deref (elt:=elt) (KS:=KS) l).
Proof. intros w. unfold deref. by destruct (heap w !! l). Qed.

Lemma readonly_bind {A B} (m : M A) (f : A → M B) :
  readonly m → (∀ a, readonly (f a)) → readonly (bind m f).
Proof.
  intros Hm Hf w. unfold bind. specialize (Hm w).
  destruct (m w) as [[a|e] w1]; simpl in *; subst; [apply Hf|done].
Qed.

Ltac readonly :=
  repeat first
    [ apply readonly_ret | apply readonly_raise | apply readonly_lift
    | apply readonly_deref
    | apply readonly_bind; [|intros ?]
    | lazymatch goal with
      | |- readonly (match ?x with _ => _ end) => destruct x
      end ].

Lemma readonly_get_dtype l : readonly (get_dtype (elt:=elt) (KS:=KS) l).
Proof. unfold get_dtype. readonly. Qed.

Lemma readonly_default_fill_getitem dt :
  readonly (default_fill_getitem (KS:=KS) dtype_default_fill dt).
Proof. unfold default_fill_getitem. readonly. Qed.

Lemma linint2_xmsg_default w fi xo yo icycx meta xi yi dt m :
  read_dtype (heap w) fi = Some dt → dtype_default_fill dt = Some m →
  linint2 fi xo yo icycx None meta xi yi w
  = linint2 fi xo yo icycx (Some m) meta xi yi w.
Proof.
  intros Hdt Hm. unfold linint2.
  erewrite bind_ok.
  2:{ erewrite bind_ok; [|by apply get_dtype_read].
      unfold default_fill_getitem. rewrite Hm. reflexivity. }
  symmetry. erewrite bind_ok; [|reflexivity]. done.
Qed.

Lemma readonly_xmsg_step fi (xmsg : option elt) :
  readonly (match xmsg with
            | None => bind (get_dtype fi) (default_fill_getitem dtype_default_fill)
            | Some x => ret x
            end : M elt).
Proof.
  destruct xmsg; [apply readonly_ret|].
  apply readonly_bind; [apply readonly_get_dtype|].
  intros ?. apply readonly_default_fill_getitem.
Qed.


Lemma read_ndarray_prefix h h' l a :
  read_ndarray h l = Some a → h `prefix_of` h' → read_ndarray h' l = Some a.
Proof.
  unfold read_ndarray. intros H Hp.
  destruct (h !! l) as [o|] eqn:E; [|done].
  by rewrite (prefix_lookup_Some _ _ _ _ E Hp).
Qed.

Lemma read_DataArray_prefix h h' l x :
  read_DataArray h l = Some x → h `prefix_of` h' → read_DataArray h' l = Some x.
Proof.
  unfold read_DataArray. intros H Hp.
  destruct (h !! l) as [o|] eqn:E; [|done].
  by rewrite (prefix_lookup_Some _ _ _ _ E Hp).
Qed.

Lemma read_dask_prefix h h' l d :
  read_dask h l = Some d → h `prefix_of` h' → read_dask h' l = Some d.
Proof.
  unfold read_dask. intros H Hp.
  destruct (h !! l) as [o|] eqn:E; [|done].
  by rewrite (prefix_lookup_Some _ _ _ _ E Hp).
Qed.

Lemma coord_default_read w fi k x d v a :
  read_DataArray (heap w) fi = Some x → tuple_getitem_neg (da_dims x) k = Ok d →
  assoc d (da_coords x) = Some v → read_ndarray (heap w) (v_data v) = Some a →
  coord_default of_nat fi k w = (Ok (v_data v), w).
Proof.
  intros Hx Hd Hv Ha. unfold coord_default.
  erewrite bind_ok; [|by apply get_dims_read].
  erewrite bind_ok; [|unfold lift; by rewrite Hd].
  erewrite bind_ok; [|by eapply coords_getitem_read].
  by eapply values_read.
Qed.

Lemma preserves_coord_step h0 fi k (arg : option loc) :
  preserves h0 (match arg with
                | Some x => ret x
                | None => coord_default of_nat fi k
                end : M nat) (λ _ _, True).
Proof. unfold coord_default. frame. Qed.

Lemma linint2_xi_default w fi xo yo icycx xmsg meta yi x d v a :
  read_DataArray (heap w) fi = Some x → last (da_dims x) = Some d →
  assoc d (da_coords x) = Some v → read_ndarray (heap w) (v_data v) = Some a →
  linint2 fi xo yo icycx xmsg meta None yi w
  = linint2 fi xo yo icycx xmsg meta (Some (v_data v)) yi w.
Proof.
  intros Hx Hd Hv Ha. unfold linint2.
  unfold bind at 1. symmetry. unfold bind at 1. symmetry.
  pose proof (readonly_xmsg_step fi xmsg w) as Hw.
  destruct (_ w) as [[m|e] w1]; simpl in Hw; subst w1; [|done].
  erewrite bind_ok.
  2:{ eapply (coord_default_read _ _ 1); eauto using tuple_getitem_neg_last. }
  symmetry. by erewrite bind_ok.
Qed.

Lemma linint2_yi_default w fi xo yo icycx xmsg meta xi x d v a :
  read_DataArray (heap w) fi = Some x →
  2 ≤ length (da_dims x) → da_dims x !! (length (da_dims x) - 2) = Some d →
  assoc d (da_coords x) = Some v → read_ndarray (heap w) (v_data v) = Some a →
  linint2 fi xo yo icycx xmsg meta xi None w
  = linint2 fi xo yo icycx xmsg meta xi (Some (v_data v)) w.
Proof.
  intros Hx Hl Hd Hv Ha. unfold linint2.
  unfold bind at 1. symmetry. unfold bind at 1. symmetry.
  pose proof (readonly_xmsg_step fi xmsg w) as Hw.
  destruct (_ w) as [[m|e] w1]; simpl in Hw; subst w1; [|done].
  unfold bind at 1. symmetry. unfold bind at 1. symmetry.
  destruct (preserves_coord_step (heap w) fi 1 xi w) as [Hp _]; [done|].
  unfold coord_default in Hp.
  destruct (_ w) as [[lxi|e] w1]; simpl in Hp; [|done].
  erewrite bind_ok.
  2:{ eapply (coord_default_read _ _ 2);
        eauto using tuple_getitem_neg_second, read_DataArray_prefix,
          read_ndarray_prefix. }
  symmetry. by erewrite bind_ok.
Qed.

(** *** Inputs that are not chunked *)

Lemma get_chunks_unchunked w l x a :
  read_DataArray (heap w) l = Some x →
  read_ndarray (heap w) (da_data x) = Some a →
  get_chunks l w = (Ok None, w).
Proof.
  unfold read_DataArray, read_ndarray, get_chunks, bind, deref. intros H H'.
  destruct (heap w !! l) as [[]|]; simplify_eq/=.
  destruct (heap w !! da_data x) as [[]|]; by simplify_eq/=.
Qed.

Lemma linint2_unchunked_explicit w fi xo yo icycx m meta lxi lyi x a :
  read_DataArray (heap w) fi = Some x →
  read_ndarray (heap w) (da_data x) = Some a →
  linint2 fi xo yo icycx (Some m) meta (Some lxi) (Some lyi) w
  = (Raise TypeError, w).
Proof.
  intros Hx Ha. unfold linint2.
  do 3 (erewrite bind_ok; [|reflexivity]).
  erewrite bind_ok; [|by eapply get_data_read].
  erewrite bind_ok; [|by eapply get_chunks_unchunked].
  reflexivity.
Qed.

Lemma linint2_unchunked_raises w fi xo yo icycx xmsg meta xi yi x a :
  read_DataArray (heap w) fi = Some x →
  read_ndarray (heap w) (da_data x) = Some a →
  ∃ e, (linint2 fi xo yo icycx xmsg meta xi yi w).1 = Raise e.
Proof.
  intros Hx Ha. unfold linint2. unfold bind at 1.
  pose proof (readonly_xmsg_step fi xmsg w) as Hw.
  destruct (_ w) as [[m|e] w1]; simpl in Hw; subst w1; [|by eexists].
  unfold bind at 1.
  destruct (preserves_coord_step (heap w) fi 1 xi w) as [Hp1 _]; [done|].
  unfold coord_default in Hp1.
  destruct (_ w) as [[lxi|e] w1]; simpl in Hp1; [|by eexists].
  unfold bind at 1.
  destruct (preserves_coord_step (heap w) fi 2 yi w1) as [Hp2 _]; [done|].
  unfold coord_default in Hp2.
  destruct (_ w1) as [[lyi|e] w2]; simpl in Hp2; [|by eexists].
  exists TypeError.
  change (_ w2) with (linint2 fi xo yo icycx (Some m) meta (Some lxi) (Some lyi) w2).
  erewrite linint2_unchunked_explicit;
    eauto using read_DataArray_prefix, read_ndarray_prefix.
Qed.

Lemma linint2_ndarray_raises w fi xo yo icycx xmsg meta xi yi a :
  read_ndarray (heap w) fi = Some a →
  ∃ e, (linint2 fi xo yo icycx xmsg meta xi yi w).1 = Raise e
       ∧ (e = AttributeError ∨ xmsg = None ∧ e = KeyError).
Proof.
  unfold read_ndarray. intros Ha.
  destruct (heap w !! fi) as [[]|] eqn:E; simplify_eq.
  unfold linint2, coord_default, get_dtype, get_dims, get_data, get_chunks,
    default_fill_getitem, bind, deref, ret, raise.
  destruct xmsg as [m|]; [|rewrite E; destruct (dtype_default_fill _)];
    destruct xi, yi; rewrite ?E; simpl; rewrite ?E; simpl; eauto.
Qed.

Lemma ndarray_has_no_labels w fi a :
  read_ndarray (heap w) fi = Some a →
  (coords_items fi w).1 = Raise AttributeError
  ∧ (get_dims fi w).1 = Raise AttributeError
  ∧ (get_chunks fi w).1 = Raise AttributeError.
Proof.
  unfold read_ndarray. intros Ha.
  destruct (heap w !! fi) as [[]|] eqn:E; simplify_eq.
  unfold coords_items, get_dims, get_chunks, bind, deref. by rewrite E.
Qed.

(** C7. [linint2] needs a chunked, dask-backed DataArray.  On a plain numpy
    array it raises: the array has no [coords], no [dims] and no [chunks]
    (AttributeError; KeyError when the fill value of its dtype is asked
    for and missing).  On a DataArray held in memory it raises as well:
    [fi.chunks] is [None], and with [xmsg], [xi] and [yi] given the call
    ends in the TypeError of [list (None)]. *)
Theorem linint2_requires_chunked_DataArray
    (w : world) (fi xo yo : loc) (icycx : bool) (xmsg : option elt)
    (meta : bool) (xi yi : option loc) :
  (∀ a, read_ndarray (heap w) fi = Some a →
     (∃ e, (linint2 fi xo yo icycx xmsg meta xi yi w).1 = Raise e
           ∧ (e = AttributeError ∨ xmsg = None ∧ e = KeyError))
     ∧ (coords_items fi w).1 = Raise AttributeError
     ∧ (get_dims fi w).1 = Raise AttributeError
     ∧ (get_chunks fi w).1 = Raise AttributeError)
  ∧ (∀ x a, read_DataArray (heap w) fi = Some x →
       read_ndarray (heap w) (da_data x) = Some a →
       (∃ e, (linint2 fi xo yo icycx xmsg meta xi yi w).1 = Raise e)
       ∧ get_chunks fi w = (Ok None, w)
       ∧ ∀ m lxi lyi,
           linint2 fi xo yo icycx (Some m) meta (Some lxi) (Some lyi) w
           = (Raise TypeError, w)).
Proof.
  split.
  - intros a Ha. split; [by eapply linint2_ndarray_raises|].
    by eapply ndarray_has_no_labels.
  - intros x a Hx Ha. split; [by eapply linint2_unchunked_raises|].
    split; [by eapply get_chunks_unchunked|].
    intros. by eapply linint2_unchunked_explicit.
Qed.


(** *** Shapes of concatenated blocks *)

Lemma forallb_zip_Forall2 {A B} (P : A → B → bool) (l1 : list A) (l2 : list B) :
  length l1 = length l2 →
  forallb (λ p : A * B, P p.1 p.2) (zip l1 l2) = true →
  Forall2 (λ a b, P a b = true) l1 l2.
Proof.
  revert l2. induction l1 as [|a l1 IH]; intros [|b l2] Hl Hf;
    simplify_eq/=; [constructor|].
  apply andb_true_iff in Hf as [Hab Hf]. constructor; auto.
Qed.

Lemma conformsb_nil pre (g : grid (ndarray elt)) :
  conformsb [] pre g = true → ∃ b, g = Block b ∧ nd_shape b = pre.
Proof.
  destruct g as [b|gs]; simpl; [|done].
  intros H%bool_decide_eq_true. eauto.
Qed.

Lemma conformsb_cons c cs pre (g : grid (ndarray elt)) :
  conformsb (c :: cs) pre g = true →
  ∃ gs, g = Axis gs ∧ c ≠ []
        ∧ Forall2 (λ n g', conformsb cs (pre ++ [n]) g' = true) c gs.
Proof.
  destruct g as [b|gs]; simpl; [done|].
  intros [[Hc Hl]%andb_true_iff Hf]%andb_true_iff.
  apply bool_decide_eq_true in Hc, Hl.
  exists gs. split; [done|]. split; [done|].
  by apply (forallb_zip_Forall2
              (λ n g', conformsb cs (pre ++ [n]) g')).
Qed.

Lemma concat2_shape (pre post : list nat) (n n' : nat) (a b : ndarray elt) :
  nd_shape a = pre ++ n :: post → nd_shape b = pre ++ n' :: post →
  ∃ c, concat2 (length pre) a b = Ok c
       ∧ nd_shape c = pre ++ (n + n') :: post.
Proof.
  intros Ha Hb. unfold concat2. rewrite Ha, Hb.
  rewrite !insert_app_r_alt, !Nat.sub_diag by lia. simpl.
  rewrite bool_decide_eq_true_2 by done.
  eexists. split; [done|]. simpl.
  by rewrite !list_lookup_middle by done.
Qed.

Lemma concatenate_from_shape (pre post : list nat) (ns : list nat)
    (ps : list (ndarray elt)) (n : nat) (a : ndarray elt) :
  nd_shape a = pre ++ n :: post →
  Forall2 (λ k p, nd_shape p = pre ++ k :: post) ns ps →
  ∃ c, concatenate_from (length pre) a ps = Ok c
       ∧ nd_shape c = pre ++ (n + list_sum ns) :: post.
Proof.
  intros Ha Hps. revert n a Ha.
  induction Hps as [|k p ns ps Hp Hps IH]; intros n a Ha; simpl.
  - exists a. split; [done|]. by rewrite Nat.add_0_r.
  - destruct (concat2_shape pre post n k a p Ha Hp) as (c & -> & Hc).
    destruct (IH _ _ Hc) as (c' & -> & Hc').
    exists c'. split; [done|]. rewrite Hc'. f_equal. f_equal. lia.
Qed.

Lemma np_concatenate_shape (pre post : list nat) (ns : list nat)
    (ps : list (ndarray elt)) :
  ns ≠ [] →
  Forall2 (λ k p, nd_shape p = pre ++ k :: post) ns ps →
  ∃ c, np_concatenate ps (length pre) = Ok c
       ∧ nd_shape c = pre ++ list_sum ns :: post.
Proof.
  intros Hne Hps. destruct Hps as [|k p ns ps Hp Hps]; [done|]. simpl.
  rewrite decide_True by (rewrite Hp, length_app; simpl; lia).
  by apply concatenate_from_shape.
Qed.

(** A well-formed grid concatenates into the array its chunks announce. *)
Lemma concatenate3_shape cs : ∀ pre (g : grid (ndarray elt)),
  conformsb cs pre g = true →
  ∃ a, concatenate3 (length pre) g = Ok a
       ∧ nd_shape a = pre ++ map list_sum cs.
Proof.
  induction cs as [|c cs IH]; intros pre g Hg.
  - apply conformsb_nil in Hg as (b & -> & Hb).
    exists b. split; [done|]. by rewrite app_nil_r.
  - apply conformsb_cons in Hg as (gs & -> & Hc & Hgs). simpl.
    assert (∃ ps, sequence (map (concatenate3 (S (length pre))) gs) = Ok ps
                  ∧ Forall2 (λ k p, nd_shape p
                                    = pre ++ k :: map list_sum cs) c ps)
      as (ps & -> & Hps).
    { clear Hc. induction Hgs as [|k g c gs Hg Hgs IHgs]; simpl.
      - exists []. by split.
      - destruct (IH _ _ Hg) as (a & Ha & Hsa).
        rewrite length_app, Nat.add_1_r in Ha. rewrite Ha.
        destruct IHgs as (ps & -> & Hps).
        exists (a :: ps). split; [done|]. constructor; [|done].
        by rewrite Hsa, <- app_assoc. }
    by apply np_concatenate_shape.
Qed.

Lemma Forall2_forallb_zip {A B} (P : A → B → bool) (l1 : list A) (l2 : list B) :
  Forall2 (λ a b, P a b = true) l1 l2 →
  forallb (λ p : A * B, P p.1 p.2) (zip l1 l2) = true.
Proof. induction 1; simpl; [done|]. by apply andb_true_iff. Qed.

Lemma conformsb_Axis c cs pre (gs : list (grid (ndarray elt))) :
  c ≠ [] →
  Forall2 (λ n g', conformsb cs (pre ++ [n]) g' = true) c gs →
  conformsb (c :: cs) pre (Axis gs) = true.
Proof.
  intros Hc Hgs. simpl.
  rewrite !bool_decide_eq_true_2 by eauto using Forall2_length. simpl.
  by apply (Forall2_forallb_zip (λ n g', conformsb cs (pre ++ [n]) g')).
Qed.

Lemma split_last2 {A} (l : list A) :
  2 ≤ length l →
  ∃ c1 c2, l = take (length l - 2) l ++ [c1; c2].
Proof.
  intros Hl.
  assert (length (drop (length l - 2) l) = 2) as Hd
    by (rewrite length_drop; lia).
  destruct (drop (length l - 2) l) as [|c1 [|c2 [|]]] eqn:E; simplify_eq/=.
  exists c1, c2. by rewrite <- E, take_drop.
Qed.

(** *** Running the graph of [map_blocks] *)

(** *** The scheduler *)

Lemma schedule_Permutation {A} fuel (ready : list A) :
  length ready ≤ fuel → schedule fuel ready ≡ₚ ready.
Proof.
  revert ready. induction fuel as [|fuel IH]; intros ready Hl; simpl.
  - destruct ready; [done|simpl in Hl; lia].
  - destruct ready as [|t0 ready0] eqn:E; [done|]. rewrite <- E in *.
    assert (length ready ≠ 0) as Hne by (rewrite E; done).
    pose proof (Nat.mod_upper_bound (scheduler (length ready)) _ Hne) as Hi.
    destruct (lookup_lt_is_Some_2 ready _ Hi) as [t Ht]. rewrite Ht.
    etransitivity; [|symmetry; apply (delete_Permutation ready _ t Ht)].
    constructor. apply IH. rewrite length_delete by eauto. lia.
Qed.

Lemma schedule_fmap {A B} (g : A → B) fuel (ready : list A) :
  schedule fuel (g <$> ready) = g <$> schedule fuel ready.
Proof.
  revert ready. induction fuel as [|fuel IH]; intros ready; simpl; [done|].
  rewrite length_fmap, list_lookup_fmap.
  destruct (ready !! _) as [t|] eqn:Ht; simpl; [|done].
  f_equal. rewrite <- IH. f_equal.
  revert Ht. generalize (scheduler (length ready) `mod` length ready).
  intros i. revert i. induction ready as [|a ready IHr]; intros [|i] Hi;
    simplify_eq/=; [done|]. f_equal. eauto.
Qed.

Lemma pick_elem {B} i (l : list (nat * B)) b :
  pick i l = Some b → (i, b) ∈ l.
Proof.
  induction l as [|[j c] l IH]; simpl; [done|].
  destruct (decide (j = i)) as [->|].
  - intros [= ->]. by left.
  - intros H. right. auto.
Qed.

Lemma pick_NoDup {B} i (l : list (nat * B)) b :
  NoDup l.*1 → (i, b) ∈ l → pick i l = Some b.
Proof.
  induction l as [|[j c] l IH]; simpl; [by intros _ ?%elem_of_nil|].
  intros [Hj Hnd]%NoDup_cons [Heq|Hin]%elem_of_cons.
  - simplify_eq. by rewrite decide_True.
  - destruct (decide (j = i)) as [->|]; [|auto].
    exfalso. apply Hj. apply list_elem_of_fmap. by exists (i, b).
Qed.

Lemma pick_all_Forall2 {B} (l : list (nat * B)) keys :
  (∀ i, i ∈ keys → i ∈ l.*1) →
  ∃ outs, pick_all l keys = Some outs
          ∧ Forall2 (λ i b, pick i l = Some b) keys outs.
Proof.
  induction keys as [|i keys IH]; intros Hk; simpl.
  - exists []. by split.
  - destruct IH as (outs & -> & Houts).
    { intros j Hj. apply Hk. by right. }
    assert (is_Some (pick i l)) as [b Hb].
    { assert (i ∈ l.*1) as Hi by (apply Hk; by left).
      clear -Hi. induction l as [|[j c] l IH]; simpl in *.
      - by apply elem_of_nil in Hi.
      - destruct (decide (j = i)); [eauto|].
        apply elem_of_cons in Hi as [?|?]; [done|auto]. }
    rewrite Hb. exists (b :: outs). split; [done|]. by constructor.
Qed.

(** The results, kept under the positions of their tasks in the order the
    tasks ran, are the results by position, up to that order. *)
Lemma unscramble_zip {X B} (l : list (nat * X)) (xs : list X) (rs : list B) :
  l ≡ₚ zip (seq 0 (length xs)) xs →
  length rs = length l →
  ∃ outs, unscramble (length xs) (zip l.*1 rs) = Some outs
          ∧ length outs = length xs
          ∧ zip l.*2 rs ≡ₚ zip xs outs.
Proof.
  intros Hl Hrs. set (n := length xs) in *.
  assert (l.*1 ≡ₚ seq 0 n) as Hkeys.
  { rewrite Hl. unfold n. rewrite fst_zip by (by rewrite length_seq). done. }
  assert (NoDup l.*1) as Hnd by (rewrite Hkeys; apply NoDup_seq).
  assert ((zip l.*1 rs).*1 = l.*1) as Hfst.
  { apply fst_zip. rewrite length_fmap. lia. }
  destruct (pick_all_Forall2 (zip l.*1 rs) (seq 0 n)) as (outs & Hout & Hpick).
  { intros i Hi. rewrite Hfst, Hkeys. done. }
  exists outs. split; [done|].
  assert (length outs = n) as Hlen.
  { rewrite <- (Forall2_length _ _ _ Hpick). apply length_seq. }
  split; [done|].
  (* membership of positions *)
  assert (∀ i x, (i, x) ∈ l ↔ xs !! i = Some x) as Hmem.
  { intros i x. rewrite Hl. rewrite list_elem_of_lookup. split.
    - intros [k Hk]. apply lookup_zip_with_Some in Hk as (a & b & ? & Ha & Hb).
      simplify_eq. apply lookup_seq in Ha as [-> _]. done.
    - intros Hx. exists i. apply lookup_zip_with_Some. exists i, x.
      split; [done|]. split; [|done]. apply lookup_seq.
      split; [done|]. by eapply lookup_lt_Some. }
  assert (∀ i r, (i, r) ∈ zip l.*1 rs ↔ outs !! i = Some r) as Hres.
  { intros i r. split.
    - intros Hin. pose proof (pick_NoDup _ _ _ ltac:(by rewrite Hfst) Hin) as Hp.
      assert (i < n) as Hi.
      { apply list_elem_of_fmap_2 with (f := fst) in Hin. simpl in Hin.
        rewrite Hfst, Hkeys in Hin. apply elem_of_seq in Hin. lia. }
      destruct (Forall2_lookup_l _ _ _ i i Hpick) as (b & Hb & Hpb).
      { apply lookup_seq. done. }
      simpl in Hpb. congruence.
    - intros Hi.
      destruct (Forall2_lookup_r _ _ _ i r Hpick Hi) as (j & Hj & Hpj).
      apply lookup_seq in Hj as [-> _]. by apply pick_elem. }
  (* the triples (position, task, result) *)
  assert (zip l rs ≡ₚ zip (zip (seq 0 n) xs) outs) as Htr.
  { apply NoDup_Permutation.
    - apply NoDup_fmap_1 with (f := fst).
      rewrite fst_zip by lia. apply NoDup_fmap_1 with (f := fst). done.
    - apply NoDup_fmap_1 with (f := fst).
      rewrite fst_zip by (rewrite length_zip_with, length_seq; unfold n; lia).
      apply NoDup_fmap_1 with (f := fst).
      rewrite fst_zip by (by rewrite length_seq). apply NoDup_seq.
    - intros [[i x] r]. split.
      + intros Hin. apply list_elem_of_lookup in Hin as [k Hk].
        apply lookup_zip_with_Some in Hk as (a & b & Heq & Ha & Hb).
        injection Heq as <- <-.
        assert ((i, r) ∈ zip l.*1 rs) as Hir.
        { apply list_elem_of_lookup. exists k.
          apply lookup_zip_with_Some. exists i, r. split; [done|].
          split; [|done]. rewrite list_lookup_fmap, Ha. done. }
        apply Hres in Hir.
        assert (xs !! i = Some x) as Hx.
        { apply Hmem. by eapply list_elem_of_lookup_2. }
        apply list_elem_of_lookup. exists i.
        apply lookup_zip_with_Some. exists (i, x), r. split; [done|].
        split; [|done]. apply lookup_zip_with_Some. exists i, x.
        split; [done|]. split; [|done]. apply lookup_seq.
        split; [done|]. by eapply lookup_lt_Some.
      + intros Hin. apply list_elem_of_lookup in Hin as [k Hk].
        apply lookup_zip_with_Some in Hk as (a & b & Heq & Ha & Hb).
        injection Heq as <- <-.
        apply lookup_zip_with_Some in Ha as (i' & x' & Heq & Hi' & Hx').
        injection Heq as <- <-.
        apply lookup_seq in Hi' as [Hik _]. simpl in Hik. subst k.
        apply Hres in Hb. apply list_elem_of_lookup in Hb as [j Hj].
        apply lookup_zip_with_Some in Hj as (a & b & Heq & Ha & Hb).
        injection Heq as <- <-. rewrite list_lookup_fmap in Ha.
        destruct (l !! j) as [[i' x'']|] eqn:Hlj; [|done].
        simpl in Ha. injection Ha as ->.
        assert (x'' = x) as ->.
        { assert ((i, x'') ∈ l) as Hk by (by eapply list_elem_of_lookup_2).
          apply Hmem in Hk. congruence. }
        apply list_elem_of_lookup. exists j.
        apply lookup_zip_with_Some. eauto. }
  assert (∀ (l1 : list (nat * X)) (l2 : list B),
            (λ u : nat * X * B, (u.1.2, u.2)) <$> zip l1 l2 = zip l1.*2 l2)
    as Hmap.
  { intros l1. induction l1 as [|a l1 IH]; intros [|b l2]; simpl; [done..|].
    by rewrite IH. }
  rewrite <- Hmap, Htr, Hmap.
  rewrite snd_zip by (by rewrite length_seq). done.
Qed.

(** *** Runs of independent tasks *)

Lemma zip_fmap_r_pair {A B C} (g : B → C) (l : list A) (k : list B) :
  zip l (g <$> k) = prod_map id g <$> zip l k.
Proof.
  revert k. induction l as [|a l IH]; intros [|b k]; simpl; [done..|].
  by rewrite IH.
Qed.

Lemma mapKM_fmap {A B C} (g : A → B) (run : B → KM KS C) (xs : list A) s :
  mapKM run (g <$> xs) s = mapKM (λ x, run (g x)) xs s.
Proof.
  revert s. induction xs as [|x xs IH]; intros s; simpl; [done|].
  destruct (run (g x) s) as [[y|e] s1]; [|done]. by rewrite IH.
Qed.

Lemma mapKM_chain {X} (run : X → task elt KS) (Q : X → ndarray elt → Prop)
    (T : X → ndarray elt → KS → KS → Prop) (l : list (nat * X)) :
  Forall (λ ix : nat * X,
            ∀ s, ∃ r s', run ix.2 s = (Ok r, s') ∧ Q ix.2 r ∧ T ix.2 r s s') l →
  ∀ s, ∃ rs s',
    mapKM (λ (ix : nat * X) s,
             match run ix.2 s with
             | (Ok b, s') => (Ok (ix.1, b), s')
             | (Raise e, s') => (Raise e, s')
             end) l s = (Ok (zip l.*1 rs), s')
    ∧ length rs = length l
    ∧ Forall2 Q l.*2 rs
    ∧ chain T (zip l.*2 rs) s s'.
Proof.
  induction 1 as [|[i x] l Hx _ IH]; intros s; simpl.
  - exists [], s. by repeat split.
  - destruct (Hx s) as (r & s1 & Hr & Hq & Ht). simpl in Hr. rewrite Hr.
    destruct (IH s1) as (rs & s2 & -> & Hlen & Hqs & Hch).
    exists (r :: rs), s2. simpl. repeat split; [by rewrite Hlen|by constructor|].
    eauto.
Qed.

(** When every task returns, whatever the hidden state it finds, the run
    returns their results by position, and the hidden state went through
    the tasks in some order. *)
Lemma run_tasks_chain {X} (run : X → task elt KS) (Q : X → ndarray elt → Prop)
    (T : X → ndarray elt → KS → KS → Prop) (xs : list X) :
  Forall (λ x, ∀ s, ∃ r s', run x s = (Ok r, s') ∧ Q x r ∧ T x r s s') xs →
  ∀ s, ∃ outs s' order,
    run_tasks (run <$> xs) s = (Ok outs, s')
    ∧ Forall2 Q xs outs
    ∧ order ≡ₚ zip xs outs
    ∧ chain T order s s'.
Proof.
  intros Hxs s. unfold run_tasks. rewrite length_fmap.
  set (n := length xs). rewrite zip_fmap_r_pair, schedule_fmap.
  set (l := schedule n (zip (seq 0 n) xs)).
  assert (l ≡ₚ zip (seq 0 n) xs) as Hl.
  { apply schedule_Permutation.
    rewrite length_zip_with, length_seq. unfold n. lia. }
  rewrite mapKM_fmap. simpl.
  destruct (mapKM_chain run Q T l) with (s := s)
    as (rs & s' & -> & Hlen & Hq & Hch).
  { rewrite Hl. apply Forall_forall. intros [i x] Hin.
    rewrite Forall_forall in Hxs. apply Hxs.
    apply list_elem_of_lookup in Hin as [k Hk].
    apply lookup_zip_with_Some in Hk as (a & b & Heq & _ & Hb).
    injection Heq as <- <-. by eapply list_elem_of_lookup_2. }
  destruct (unscramble_zip l xs rs Hl Hlen) as (outs & Hu & Hn & Hperm).
  fold n in Hu. rewrite Hu.
  exists outs, s', (zip l.*2 rs). repeat split; [|done..].
  apply Forall2_same_length_lookup_2; [done|].
  intros i x r Hx Hr.
  assert ((x, r) ∈ zip l.*2 rs) as Hin.
  { rewrite Hperm. apply list_elem_of_lookup. exists i.
    apply lookup_zip_with_Some. eauto. }
  apply list_elem_of_lookup in Hin as [k Hk].
  apply lookup_zip_with_Some in Hk as (a & b & Heq & Ha & Hb).
  injection Heq as <- <-.
  by eapply Forall2_lookup_lr.
Qed.

Lemma run_tasks_Forall2 {X} (run : X → task elt KS)
    (Q : X → ndarray elt → Prop) (xs : list X) :
  Forall (λ x, ∀ s, ∃ r s', run x s = (Ok r, s') ∧ Q x r) xs →
  ∀ s, ∃ outs s', run_tasks (run <$> xs) s = (Ok outs, s') ∧ Forall2 Q xs outs.
Proof.
  intros Hxs s.
  destruct (run_tasks_chain run Q (λ _ _ _ _, True) xs) with (s := s)
    as (outs & s' & _ & Hrun & Hq & _).
  { eapply Forall_impl; [exact Hxs|]. intros x Hx s0.
    destruct (Hx s0) as (r & s1 & ? & ?). eauto 6. }
  eauto.
Qed.

(** When every task raises [e], so does the run, if there is a task. *)
Lemma run_tasks_raise {X} (run : X → task elt KS) (e : exn) (xs : list X) :
  xs ≠ [] →
  Forall (λ x, ∀ s, ∃ s', run x s = (Raise e, s')) xs →
  ∀ s, ∃ s', run_tasks (run <$> xs) s = (Raise e, s').
Proof.
  intros Hne Hxs s. unfold run_tasks. rewrite length_fmap.
  set (n := length xs). rewrite zip_fmap_r_pair, schedule_fmap.
  set (l := schedule n (zip (seq 0 n) xs)).
  assert (l ≡ₚ zip (seq 0 n) xs) as Hl.
  { apply schedule_Permutation.
    rewrite length_zip_with, length_seq. unfold n. lia. }
  rewrite mapKM_fmap. simpl.
  destruct l as [|[i x] l'] eqn:E.
  { apply Permutation_length in Hl.
    rewrite length_zip_with, length_seq in Hl. simpl in Hl.
    destruct xs; [done|]. unfold n in Hl. simpl in Hl. lia. }
  assert (x ∈ xs) as Hx.
  { assert ((i, x) ∈ zip (seq 0 n) xs) as Hin by (rewrite <- Hl; by left).
    apply list_elem_of_lookup in Hin as [k Hk].
    apply lookup_zip_with_Some in Hk as (a & b & Heq & _ & Hb).
    injection Heq as <- <-. by eapply list_elem_of_lookup_2. }
  rewrite Forall_forall in Hxs. destruct (Hxs x Hx s) as [s' Hs'].
  exists s'. simpl. by rewrite Hs'.
Qed.

Section Graph.

Variable f : ndarray elt → task elt KS.

Lemma mapKM_Forall2 {A B} (run : A → KM KS B) (P : nat → B → Prop)
    (c : list nat) (xs : list A) :
  Forall2 (λ n x, ∀ s, ∃ y s', run x s = (Ok y, s') ∧ P n y) c xs →
  ∀ s, ∃ ys s', mapKM run xs s = (Ok ys, s') ∧ Forall2 P c ys.
Proof.
  induction 1 as [|n x c xs Hx _ IH]; intros s; simpl.
  - exists [], s. by split.
  - destruct (Hx s) as (y & s1 & -> & Hy).
    destruct (IH s1) as (ys & s2 & -> & Hys).
    exists (y :: ys), s2. split; [done|]. by constructor.
Qed.

Lemma mapKM_ext {A B} (run run' : A → KM KS B) (xs : list A) :
  Forall (λ x, ∀ s, run x s = run' x s) xs →
  ∀ s, mapKM run xs s = mapKM run' xs s.
Proof.
  induction 1 as [|x xs Hx _ IH]; intros s; simpl; [done|].
  rewrite Hx. destruct (run' x s) as [[y|e] s1]; [|done]. by rewrite IH.
Qed.

Lemma mapKM_map {A B C} (g : A → B) (run : B → KM KS C) (xs : list A) s :
  mapKM run (map g xs) s = mapKM (λ x, run (g x)) xs s.
Proof.
  revert s. induction xs as [|x xs IH]; intros s; simpl; [done|].
  destruct (run (g x) s) as [[y|e] s1]; [|done]. by rewrite IH.
Qed.

(** The tasks of the graph: the function on every joined block. *)
Lemma blocks_of_map_blocks_grid lead : ∀ axis (g : grid (ndarray elt)),
  blocks_of (map_blocks_grid f lead axis g)
  = task_for f <$> lead_blocks lead axis g.
Proof.
  induction lead as [|lead IH]; intros axis g; simpl; [done|].
  destruct g as [b|gs]; simpl; [done|].
  induction gs as [|g gs IHgs]; simpl; [done|].
  by rewrite fmap_app, IH, IHgs.
Qed.

Lemma lead_blocks_conforms (c1 c2 : list nat) lead :
  ∀ pre (g : grid (ndarray elt)),
    conformsb (lead ++ [c1; c2]) pre g = true →
    lead_blocks (length lead) (length pre) g ≠ []
    ∧ Forall (λ ob, ∃ b, ob = Ok b ∧ 2 ≤ length (nd_shape b))
        (lead_blocks (length lead) (length pre) g).
Proof.
  induction lead as [|c lead IH]; intros pre g Hg.
  - destruct (concatenate3_shape _ _ _ Hg) as (a & Ha & Hsa). simpl.
    split; [done|]. constructor; [|constructor].
    exists a. split; [done|]. rewrite Hsa, length_app. simpl. lia.
  - apply conformsb_cons in Hg as (gs & -> & Hc & Hgs). simpl.
    assert (∀ n (x : grid (ndarray elt)),
              conformsb (lead ++ [c1; c2]) (pre ++ [n]) x = true →
              lead_blocks (length lead) (S (length pre)) x ≠ []
              ∧ Forall (λ ob, ∃ b, ob = Ok b ∧ 2 ≤ length (nd_shape b))
                  (lead_blocks (length lead) (S (length pre)) x)) as IH'.
    { intros n x Hx. specialize (IH (pre ++ [n]) x Hx).
      by rewrite length_app, Nat.add_1_r in IH. }
    split.
    + destruct Hgs as [|n x c gs Hx _]; [done|]. simpl.
      destruct (IH' n x Hx) as [Hne _].
      by destruct (lead_blocks (length lead) (S (length pre)) x).
    + apply Forall_concat, Forall_fmap.
      clear Hc. induction Hgs as [|n x c gs Hx _ IHgs]; constructor; [|done].
      by apply (IH' n x).
Qed.

(** The results of the tasks, put back in the places of the tasks, make a
    grid of the announced chunks. *)
Lemma refill_map_blocks_conforms (ty tx : nat) (c1 c2 : list nat) lead :
  ∀ pre (g : grid (ndarray elt)) (outs rest : list (ndarray elt)),
    conformsb (lead ++ [c1; c2]) pre g = true →
    Forall2 (λ ob r, ∃ b, ob = Ok b
                          ∧ nd_shape r
                            = take (length (nd_shape b) - 2) (nd_shape b)
                              ++ [ty; tx])
      (lead_blocks (length lead) (length pre) g) outs →
    ∃ g', refill (map_blocks_grid f (length lead) (length pre) g)
            (outs ++ rest) = Some (g', rest)
          ∧ conformsb (lead ++ [[ty]; [tx]]) pre g' = true.
Proof.
  induction lead as [|c lead IH]; intros pre g outs rest Hg Houts.
  - destruct (concatenate3_shape _ _ _ Hg) as (a & Ha & Hsa).
    simpl in Houts. rewrite Ha in Houts.
    inversion Houts as [|ob r obs rs Hhead Hnil]; subst.
    inversion Hnil; subst. destruct Hhead as (b & Hb & Hr).
    injection Hb as <-.
    exists (Axis [Axis [Block r]]). split; [done|].
    assert (nd_shape r = (pre ++ [ty]) ++ [tx]) as Hr'.
    { rewrite Hr, Hsa, length_app. simpl.
      replace (length pre + 2 - 2) with (length pre) by lia.
      rewrite take_app_length. by rewrite <- app_assoc. }
    apply (conformsb_Axis [ty] [[tx]]); [done|].
    constructor; [|constructor].
    apply (conformsb_Axis [tx] []); [done|].
    constructor; [|constructor].
    simpl. by apply bool_decide_eq_true.
  - apply conformsb_cons in Hg as (gs & -> & Hc & Hgs). simpl in *.
    assert (∃ gs',
              refill_children refill
                (map (map_blocks_grid f (length lead) (S (length pre))) gs)
                (outs ++ rest) = Some (gs', rest)
              ∧ Forall2 (λ n g', conformsb (lead ++ [[ty]; [tx]])
                                   (pre ++ [n]) g' = true) c gs')
      as (gs' & -> & Hgs').
    { clear Hc. revert outs Houts.
      induction Hgs as [|n x c gs Hx _ IHgs]; intros outs Houts; simpl in *.
      - inversion Houts; subst. exists []. by split.
      - apply Forall2_app_inv_l in Houts as (o1 & o2 & Ho1 & Ho2 & ->).
        specialize (IH (pre ++ [n]) x o1 (o2 ++ rest) Hx).
        rewrite length_app, Nat.add_1_r in IH.
        destruct (IH Ho1) as (g' & Hg' & Hcg').
        rewrite <- app_assoc, Hg'.
        destruct (IHgs o2 Ho2) as (gs' & -> & Hgs').
        exists (g' :: gs'). split; [done|]. by constructor. }
    exists (Axis gs'). split; [done|]. by apply conformsb_Axis.
Qed.

(** With a function that returns blocks of extents [ty] and [tx] in place
    of the last two, the graph runs to a grid of the announced chunks. *)
Lemma run_map_blocks_conforms (ty tx : nat) (c1 c2 : list nat) lead :
  (∀ b s, 2 ≤ length (nd_shape b) →
     ∃ r s', f b s = (Ok r, s')
             ∧ nd_shape r = take (length (nd_shape b) - 2) (nd_shape b)
                            ++ [ty; tx]) →
  ∀ pre g s, conformsb (lead ++ [c1; c2]) pre g = true →
    ∃ g' s',
      run_grid (map_blocks_grid f (length lead) (length pre) g) s = (Ok g', s')
      ∧ conformsb (lead ++ [[ty]; [tx]]) pre g' = true.
Proof.
  intros Hf pre g s Hg. unfold run_grid.
  rewrite blocks_of_map_blocks_grid.
  destruct (lead_blocks_conforms c1 c2 lead pre g Hg) as [_ Hok].
  destruct (run_tasks_Forall2 (task_for f)
              (λ ob r, ∃ b, ob = Ok b
                            ∧ nd_shape r
                              = take (length (nd_shape b) - 2) (nd_shape b)
                                ++ [ty; tx])
              (lead_blocks (length lead) (length pre) g)) with (s := s)
    as (outs & s' & -> & Houts).
  { eapply Forall_impl; [exact Hok|]. intros ob (b & -> & Hb) s0.
    destruct (Hf b s0 Hb) as (r & s1 & Hr & Hs). simpl. eauto 6. }
  destruct (refill_map_blocks_conforms ty tx c1 c2 lead pre g outs [] Hg Houts)
    as (g' & Hg' & Hc').
  rewrite app_nil_r in Hg'. rewrite Hg'. eauto.
Qed.

Lemma blocks_of_grid_map {B} cs :
  ∀ pre (g : grid (ndarray elt)) (k : ndarray elt → B),
    conformsb cs pre g = true →
    blocks_of (grid_map k g) = k <$> blocks_of g.
Proof.
  induction cs as [|c cs IH]; intros pre g k Hg.
  - by apply conformsb_nil in Hg as (b & -> & _).
  - apply conformsb_cons in Hg as (gs & -> & _ & Hgs). simpl.
    induction Hgs as [|n x c gs Hx _ IHgs]; simpl; [done|].
    by rewrite fmap_app, (IH _ _ _ Hx), IHgs.
Qed.

Lemma lead_blocks_unchunked (n1 n2 : nat) lead :
  ∀ pre (g : grid (ndarray elt)),
    conformsb (lead ++ [[n1]; [n2]]) pre g = true →
    lead_blocks (length lead) (length pre) g = Ok <$> blocks_of g.
Proof.
  induction lead as [|c lead IH]; intros pre g Hg.
  - apply conformsb_cons in Hg as (gs & -> & _ & Hgs).
    inversion Hgs as [|? g1 ? ? Hg1 Hnil]; subst. inversion Hnil; subst.
    apply conformsb_cons in Hg1 as (gs & -> & _ & Hgs1).
    inversion Hgs1 as [|? g2 ? ? Hg2 Hnil2]; subst. inversion Hnil2; subst.
    apply conformsb_nil in Hg2 as (b & -> & Hb).
    assert (S (length pre) < length (nd_shape b)) as Hlt
      by (rewrite Hb, !length_app; simpl; lia).
    simpl. rewrite decide_True by done. simpl.
    by rewrite decide_True by lia.
  - apply conformsb_cons in Hg as (gs & -> & _ & Hgs). simpl.
    induction Hgs as [|n x c gs Hx _ IHgs]; simpl; [done|].
    specialize (IH (pre ++ [n]) x Hx).
    rewrite length_app, Nat.add_1_r in IH.
    by rewrite fmap_app, IH, IHgs.
Qed.

Lemma refill_unchunked (n1 n2 : nat) lead :
  ∀ pre (g : grid (ndarray elt)) (outs : list (ndarray elt)),
    conformsb (lead ++ [[n1]; [n2]]) pre g = true →
    refill (map_blocks_grid f (length lead) (length pre) g) outs
    = refill (grid_map f g) outs.
Proof.
  induction lead as [|c lead IH]; intros pre g outs Hg.
  - apply conformsb_cons in Hg as (gs & -> & _ & Hgs).
    inversion Hgs as [|? g1 ? ? Hg1 Hnil]; subst. inversion Hnil; subst.
    apply conformsb_cons in Hg1 as (gs & -> & _ & Hgs1).
    inversion Hgs1 as [|? g2 ? ? Hg2 Hnil2]; subst. inversion Hnil2; subst.
    by apply conformsb_nil in Hg2 as (b & -> & Hb).
  - apply conformsb_cons in Hg as (gs & -> & _ & Hgs). simpl.
    assert (refill_children refill
              (map (map_blocks_grid f (length lead) (S (length pre))) gs) outs
            = refill_children refill (map (grid_map f) gs) outs) as ->; [|done].
    revert outs. induction Hgs as [|n x c gs Hx _ IHgs]; intros outs; simpl;
      [done|].
    specialize (IH (pre ++ [n]) x outs Hx).
    rewrite length_app, Nat.add_1_r in IH. rewrite IH.
    destruct (refill (grid_map f x) outs) as [[g' l']|]; [|done].
    by rewrite IHgs.
Qed.

(** With one chunk along each of the last two axes, the graph is the
    function applied to every chunk. *)
Lemma run_map_blocks_unchunked (n1 n2 : nat) lead :
  ∀ pre g s, conformsb (lead ++ [[n1]; [n2]]) pre g = true →
    run_grid (map_blocks_grid f (length lead) (length pre) g) s
    = run_grid (grid_map f g) s.
Proof.
  intros pre g s Hg. unfold run_grid.
  rewrite blocks_of_map_blocks_grid.
  rewrite (lead_blocks_unchunked n1 n2 lead pre g Hg).
  rewrite (blocks_of_grid_map _ _ _ f Hg).
  rewrite <- list_fmap_compose.
  change (task_for f ∘ Ok) with f.
  destruct (run_tasks (f <$> blocks_of g) s) as [[outs|e] s']; [|done].
  by rewrite (refill_unchunked n1 n2 lead pre g outs Hg).
Qed.

(** When the function raises [e] on every block, so does the graph. *)
Lemma run_map_blocks_raise (e : exn) (c1 c2 : list nat) lead :
  (∀ b s, ∃ s', f b s = (Raise e, s')) →
  ∀ pre g s, conformsb (lead ++ [c1; c2]) pre g = true →
    ∃ s', run_grid (map_blocks_grid f (length lead) (length pre) g) s
          = (Raise e, s').
Proof.
  intros Hf pre g s Hg. unfold run_grid.
  rewrite blocks_of_map_blocks_grid.
  destruct (lead_blocks_conforms c1 c2 lead pre g Hg) as [Hne Hok].
  destruct (run_tasks_raise (task_for f) e
              (lead_blocks (length lead) (length pre) g) Hne) with (s := s)
    as [s' ->].
  { eapply Forall_impl; [exact Hok|]. intros ob (b & -> & _) s0.
    apply Hf. }
  eauto.
Qed.

Lemma lead_blocks_joined (c1 c2 : list nat) lead :
  ∀ pre (g : grid (ndarray elt)),
    conformsb (lead ++ [c1; c2]) pre g = true →
    ∃ joined, lead_blocks (length lead) (length pre) g = Ok <$> joined
              ∧ joined ≠ []
              ∧ Forall (λ b, 2 ≤ length (nd_shape b)) joined.
Proof.
  intros pre g Hg.
  destruct (lead_blocks_conforms c1 c2 lead pre g Hg) as [Hne Hok].
  revert Hne Hok. generalize (lead_blocks (length lead) (length pre) g).
  intros l Hne Hok.
  assert (∃ joined, l = Ok <$> joined
                    ∧ Forall (λ b, 2 ≤ length (nd_shape b)) joined)
    as (joined & -> & Hj).
  { clear Hne. induction Hok as [|ob l (b & -> & Hb) _ (joined & -> & Hj)].
    - by exists [].
    - exists (b :: joined). split; [done|]. by constructor. }
  exists joined. split; [done|]. split; [|done]. by destruct joined.
Qed.

Lemma length_lead_blocks (c1 c2 : list nat) lead :
  ∀ pre (g : grid (ndarray elt)),
    conformsb (lead ++ [c1; c2]) pre g = true →
    length (lead_blocks (length lead) (length pre) g)
    = product (map length lead).
Proof.
  induction lead as [|c lead IH]; intros pre g Hg; [done|].
  apply conformsb_cons in Hg as (gs & -> & _ & Hgs). simpl.
  induction Hgs as [|n x c gs Hx _ IHgs]; simpl; [done|].
  specialize (IH (pre ++ [n]) x Hx).
  rewrite length_app, Nat.add_1_r in IH.
  rewrite length_app, IH, IHgs. done.
Qed.

(** The same, with the calls the run makes: the function is called once on
    every joined block, in an order of the scheduler's choosing. *)
Lemma run_map_blocks_chain (T : ndarray elt → ndarray elt → KS → KS → Prop)
    (ty tx : nat) (c1 c2 : list nat) lead :
  (∀ b s, 2 ≤ length (nd_shape b) →
     ∃ r s', f b s = (Ok r, s')
             ∧ nd_shape r = take (length (nd_shape b) - 2) (nd_shape b)
                            ++ [ty; tx]
             ∧ T b r s s') →
  ∀ pre g s, conformsb (lead ++ [c1; c2]) pre g = true →
    ∃ g' s' joined outs order,
      run_grid (map_blocks_grid f (length lead) (length pre) g) s = (Ok g', s')
      ∧ conformsb (lead ++ [[ty]; [tx]]) pre g' = true
      ∧ lead_blocks (length lead) (length pre) g = Ok <$> joined
      ∧ joined ≠ []
      ∧ length outs = length joined
      ∧ refill (map_blocks_grid f (length lead) (length pre) g) outs
        = Some (g', [])
      ∧ order ≡ₚ zip joined outs
      ∧ chain T order s s'.
Proof.
  intros Hf pre g s Hg. unfold run_grid.
  rewrite blocks_of_map_blocks_grid.
  destruct (lead_blocks_joined c1 c2 lead pre g Hg)
    as (joined & Hj & Hne & Hok).
  rewrite Hj, <- list_fmap_compose.
  change (task_for f ∘ Ok) with f.
  destruct (run_tasks_chain f
              (λ b r, nd_shape r
                      = take (length (nd_shape b) - 2) (nd_shape b)
                        ++ [ty; tx]) T joined) with (s := s)
    as (outs & s' & order & -> & Houts & Hperm & Hch).
  { eapply Forall_impl; [exact Hok|]. intros b Hb s0. by apply Hf. }
  destruct (refill_map_blocks_conforms ty tx c1 c2 lead pre g outs [] Hg)
    as (g' & Hg' & Hc').
  { rewrite Hj. apply Forall2_fmap_l.
    eapply Forall2_impl; [exact Houts|]. intros b r Hr. simpl. eauto. }
  rewrite app_nil_r in Hg'. rewrite Hg'.
  exists g', s', joined, outs, order.
  repeat split; try done. symmetry. by eapply Forall2_length.
Qed.


Lemma refill_grid_map {B C} (h : ndarray elt → C) cs :
  ∀ pre (g : grid (ndarray elt)) (outs : list B),
    conformsb cs pre g = true →
    refill (grid_map h g) outs = refill g outs.
Proof.
  induction cs as [|c cs IH]; intros pre g outs Hg.
  - by apply conformsb_nil in Hg as (b & -> & _).
  - apply conformsb_cons in Hg as (gs & -> & _ & Hgs). simpl.
    assert (refill_children refill (map (grid_map h) gs) outs
            = refill_children refill gs outs) as ->; [|done].
    revert outs. induction Hgs as [|n x c gs Hx _ IHgs]; intros outs; simpl;
      [done|].
    rewrite (IH _ _ _ Hx).
    destruct (refill x outs) as [[g' l']|]; [|done].
    by rewrite IHgs.
Qed.

End Graph.


(** *** Calls with resolved defaults *)

Lemma coord_default_resolved w fi k l :
  resolve_coord (heap w) fi k None = Some l →
  coord_default of_nat fi k w = (Ok l, w).
Proof.
  unfold resolve_coord. intros H.
  destruct (read_DataArray (heap w) fi) as [x|] eqn:Hx; [|done].
  destruct (tuple_getitem_neg (da_dims x) k) as [d|] eqn:Hd; [|done].
  destruct (assoc d (da_coords x)) as [v|] eqn:Hv; [|done].
  destruct (read_ndarray (heap w) (v_data v)) as [a|] eqn:Ha; [|done].
  injection H as <-. by eapply coord_default_read.
Qed.

Lemma resolve_coord_prefix h h' fi k arg l :
  resolve_coord h fi k arg = Some l → h `prefix_of` h' →
  resolve_coord h' fi k arg = Some l.
Proof.
  unfold resolve_coord. intros H Hp. destruct arg; [done|].
  destruct (read_DataArray h fi) as [x|] eqn:Hx; [|done].
  rewrite (read_DataArray_prefix _ _ _ _ Hx Hp).
  destruct (tuple_getitem_neg (da_dims x) k) as [d|]; [|done].
  destruct (assoc d (da_coords x)) as [v|]; [|done].
  destruct (read_ndarray h (v_data v)) as [a|] eqn:Ha; [|done].
  by rewrite (read_ndarray_prefix _ _ _ _ Ha Hp).
Qed.

(** A call whose defaults resolve is the call with the resolved values. *)
Lemma linint2_resolved w fi xo yo icycx xmsg meta xi yi m lxi lyi :
  resolve_xmsg dtype_default_fill (heap w) fi xmsg = Some m →
  resolve_coord (heap w) fi 1 xi = Some lxi →
  resolve_coord (heap w) fi 2 yi = Some lyi →
  linint2 fi xo yo icycx xmsg meta xi yi w
  = linint2 fi xo yo icycx (Some m) meta (Some lxi) (Some lyi) w.
Proof.
  intros Hm Hxi Hyi.
  assert (linint2 fi xo yo icycx xmsg meta xi yi w
          = linint2 fi xo yo icycx (Some m) meta xi yi w) as ->.
  { destruct xmsg as [m'|]; simpl in Hm; [by simplify_eq|].
    destruct (read_dtype (heap w) fi) as [dt|] eqn:Hdt; [|done].
    by eapply linint2_xmsg_default. }
  unfold linint2.
  erewrite bind_ok; [|reflexivity]. symmetry.
  erewrite bind_ok; [|reflexivity]. symmetry.
  erewrite bind_ok.
  2:{ destruct xi; [simpl in Hxi; simplify_eq; reflexivity|].
      by apply coord_default_resolved. }
  symmetry. erewrite bind_ok; [|reflexivity]. symmetry.
  erewrite bind_ok.
  2:{ destruct yi; [simpl in Hyi; simplify_eq; reflexivity|].
      by apply coord_default_resolved. }
  symmetry. by erewrite bind_ok.
Qed.

(** *** The steps of a call on a chunked DataArray *)

Lemma list_setslice_last2_fresh h (s : KS) c items :
  list_setslice_last2 (length h) items
    {| heap := h ++ [OList c]; kstate := s |}
  = (Ok tt, {| heap := h ++ [OList (setslice_last2 c items)]; kstate := s |}).
Proof.
  unfold list_setslice_last2, bind, deref, store. simpl.
  rewrite list_lookup_middle by done. simpl.
  by rewrite insert_app_r_alt, Nat.sub_diag by lia.
Qed.

Lemma slice_setslice_last2 {A} (c : list A) (a b : A) :
  2 ≤ length c → slice_last2 (setslice_last2 c [a; b]) = [a; b].
Proof.
  intros Hc. unfold slice_last2, setslice_last2.
  apply drop_app_length'. rewrite length_app, length_take. simpl. lia.
Qed.

Lemma length_setslice_last2 {A} (c : list A) (a b : A) :
  2 ≤ length c → length (setslice_last2 c [a; b]) = length c.
Proof.
  intros Hc. unfold setslice_last2.
  rewrite length_app, length_take. simpl. lia.
Qed.

Lemma map_blocks_last2 (f : ndarray elt → task elt KS)
    (d : dask_array (ndarray elt)) (ys xs : list nat) dt :
  2 ≤ length (dk_chunks d) → length ys = 1 → length xs = 1 →
  let n := Z.of_nat (length (dk_chunks d)) in
  map_blocks f d (setslice_last2 (dk_chunks d) [ys; xs]) dt
    [n - 2; n - 1]%Z [n - 2; n - 1]%Z
  = Ok {| dk_chunks := setslice_last2 (dk_chunks d) [ys; xs];
          dk_dtype := dt;
          dk_blocks := map_blocks_grid f (length (dk_chunks d) - 2) 0
                         (dk_blocks d) |}.
Proof.
  intros Hn Hys Hxs n. unfold map_blocks.
  rewrite bool_decide_eq_true_2.
  - by rewrite decide_True by by apply length_setslice_last2.
  - rewrite slice_setslice_last2 by done. repeat split; try done.
    by repeat constructor.
Qed.

Lemma mapM_pure {A B} (f : A → M B) (g : A → B) (xs : list A) w :
  (∀ a, a ∈ xs → f a w = (Ok (g a), w)) →
  mapM f xs w = (Ok (map g xs), w).
Proof.
  induction xs as [|a xs IH]; intros Hf; simpl; [done|].
  erewrite bind_ok; [|apply Hf; by left].
  erewrite bind_ok; [|apply IH; intros; apply Hf; by right].
  done.
Qed.

Lemma mapM_map_pure {A B C} (h : A → B) (f : B → M C) (g : A → C)
    (xs : list A) w :
  (∀ a, f (h a) w = (Ok (g a), w)) →
  mapM f (map h xs) w = (Ok (map g xs), w).
Proof.
  intros Hf. induction xs as [|a xs IH]; simpl; [done|].
  erewrite bind_ok; [|apply Hf].
  erewrite bind_ok; [|apply IH].
  done.
Qed.

Lemma as_variable_relabel w dims xo yo xo_a yo_a tx ty kv :
  read_ndarray (heap w) xo = Some xo_a → nd_shape xo_a = [tx] →
  read_ndarray (heap w) yo = Some yo_a → nd_shape yo_a = [ty] →
  as_variable
    (kv.1,
     if bool_decide (kv.1 ∉ slice_last2 dims) then CVar kv.2
     else if bool_decide (last dims = Some kv.1) then CRaw xo else CRaw yo) w
  = (Ok (relabel dims xo yo kv), w).
Proof.
  intros Hxo Hsx Hyo Hsy. unfold as_variable, relabel. simpl.
  destruct (bool_decide (kv.1 ∉ slice_last2 dims)); [done|].
  destruct (bool_decide (last dims = Some kv.1)).
  - erewrite bind_ok; [|by eapply get_shape_ndarray_read].
    by rewrite Hsx.
  - erewrite bind_ok; [|by eapply get_shape_ndarray_read].
    by rewrite Hsy.
Qed.

Lemma check_coords_fit w dims shape vars :
  coords_fit (heap w) dims shape vars = true →
  mapM (check_coord dims shape) vars w = (Ok (map (λ _, tt) vars), w).
Proof.
  intros Hfit. apply mapM_pure. intros kv Hkv.
  unfold coords_fit in Hfit. rewrite forallb_forall in Hfit.
  specialize (Hfit kv). rewrite <- list_elem_of_In in Hfit.
  specialize (Hfit Hkv).
  destruct (read_ndarray (heap w) (v_data kv.2)) as [a|] eqn:Ha; [|done].
  unfold check_coord.
  erewrite bind_ok; [|by eapply get_shape_ndarray_read].
  by rewrite Hfit.
Qed.

Lemma coords_fit_prefix h h' dims shape vars :
  coords_fit h dims shape vars = true → h `prefix_of` h' →
  coords_fit h' dims shape vars = true.
Proof.
  unfold coords_fit. rewrite !forallb_forall. intros Hfit Hp kv Hkv.
  specialize (Hfit kv Hkv).
  destruct (read_ndarray h (v_data kv.2)) as [a|] eqn:Ha; [|done].
  by rewrite (read_ndarray_prefix _ _ _ _ Ha Hp).
Qed.

Lemma read_dtype_chunked h fi x d :
  read_DataArray h fi = Some x → read_dask h (da_data x) = Some d →
  read_dtype h fi = Some (dk_dtype d).
Proof.
  unfold read_DataArray, read_dask, read_dtype. intros Hx Hd.
  destruct (h !! fi) as [[]|]; simplify_eq/=.
  destruct (h !! da_data x) as [[]|]; by simplify_eq/=.
Qed.

Lemma get_dtype_chunked w fi x d :
  read_DataArray (heap w) fi = Some x →
  read_dask (heap w) (da_data x) = Some d →
  get_dtype fi w = (Ok (dk_dtype d), w).
Proof. intros. eapply get_dtype_read. by eapply read_dtype_chunked. Qed.

Lemma deref_dask_read w l d :
  read_dask (heap w) l = Some d → deref l w = (Ok (ODask d), w).
Proof.
  unfold read_dask, deref. intros H.
  destruct (heap w !! l) as [[]|]; by simplify_eq/=.
Qed.

Lemma get_ndim_chunked w fi x d :
  read_DataArray (heap w) fi = Some x →
  read_dask (heap w) (da_data x) = Some d →
  get_ndim fi w = (Ok (length (dk_chunks d)), w).
Proof.
  intros Hx Hd. unfold get_ndim.
  erewrite bind_ok; [|by eapply get_shape_DataArray_read].
  unfold ret, dk_shape. by rewrite length_map.
Qed.

Lemma map_blocks_linint2_read w xi yi fi_data xo yo icycx m chunks dt
    xi_a yi_a xo_a yo_a d ys xs :
  read_ndarray (heap w) xi = Some xi_a →
  read_ndarray (heap w) yi = Some yi_a →
  read_dask (heap w) fi_data = Some d →
  read_ndarray (heap w) xo = Some xo_a →
  read_ndarray (heap w) yo = Some yo_a →
  heap w !! chunks = Some (OList (setslice_last2 (dk_chunks d) [ys; xs])) →
  2 ≤ length (dk_chunks d) → length ys = 1 → length xs = 1 →
  let n := Z.of_nat (length (dk_chunks d)) in
  map_blocks_linint2 _linint2 xi yi fi_data xo yo icycx m chunks dt
    [n - 2; n - 1]%Z [n - 2; n - 1]%Z w
  = (Ok {| dk_chunks := setslice_last2 (dk_chunks d) [ys; xs];
           dk_dtype := dt;
           dk_blocks :=
             map_blocks_grid (λ b, _linint2 xi_a yi_a b xo_a yo_a icycx m)
               (length (dk_chunks d) - 2) 0 (dk_blocks d) |},
     {| heap := heap w;
        kstate := probed xi_a yi_a xo_a yo_a d icycx m (kstate w) |}).
Proof.
  intros Hxi Hyi Hd Hxo Hyo Hc Hn Hys Hxs n. unfold map_blocks_linint2.
  erewrite bind_ok; [|by eapply deref_ndarray_read].
  erewrite bind_ok; [|by eapply deref_ndarray_read].
  erewrite bind_ok; [|by eapply deref_dask_read].
  erewrite bind_ok; [|by eapply deref_ndarray_read].
  erewrite bind_ok; [|by eapply deref_ndarray_read].
  erewrite bind_ok; [|by eapply deref_some].
  unfold compute_meta, call, bind, lift. simpl.
  by rewrite map_blocks_last2.
Qed.

Lemma compute_ok w (g : dask_array (task elt KS)) res s' :
  compute_blocks g (kstate w) = (Ok res, s') →
  compute g w = (Ok (length (heap w)),
                 {| heap := heap w ++ [ONdarray res]; kstate := s' |}).
Proof. intros Hc. unfold compute, bind, call. by rewrite Hc. Qed.

Lemma compute_raise w (g : dask_array (task elt KS)) e s' :
  compute_blocks g (kstate w) = (Raise e, s') →
  compute g w = (Raise e, {| heap := heap w; kstate := s' |}).
Proof. intros Hc. unfold compute, bind, call. by rewrite Hc. Qed.

Lemma xr_DataArray_unlabelled w data a :
  read_ndarray (heap w) data = Some a →
  xr_DataArray data [] None None w
  = (Ok (S (length (heap w))),
     {| heap := heap w
                ++ [ODict [];
                    ODataArray {| da_data := data;
                                  da_dims := default_dims (length (nd_shape a));
                                  da_coords := [];
                                  da_attrs := length (heap w) |}];
        kstate := kstate w |}).
Proof.
  intros Ha. unfold xr_DataArray.
  erewrite bind_ok; [|by eapply deref_ndarray_read].
  do 5 (erewrite bind_ok; [|reflexivity]).
  unfold alloc. simpl. rewrite length_app, Nat.add_1_r.
  by rewrite <- app_assoc.
Qed.

Lemma xr_DataArray_labelled w data a coords vars dims attrs dict :
  read_ndarray (heap w) data = Some a →
  length dims = length (nd_shape a) →
  mapM as_variable coords w = (Ok vars, w) →
  coords_fit (heap w) dims (nd_shape a) vars = true →
  heap w !! attrs = Some (ODict dict) →
  xr_DataArray data coords (Some dims) (Some attrs) w
  = (Ok (S (length (heap w))),
     {| heap := heap w
                ++ [ODict dict;
                    ODataArray {| da_data := data; da_dims := dims;
                                  da_coords := vars;
                                  da_attrs := length (heap w) |}];
        kstate := kstate w |}).
Proof.
  intros Ha Hd Hv Hfit Hattrs. unfold xr_DataArray.
  erewrite bind_ok; [|by eapply deref_ndarray_read].
  erewrite bind_ok; [|by rewrite decide_True by done].
  erewrite bind_ok; [|exact Hv].
  erewrite bind_ok; [|by apply check_coords_fit].
  erewrite bind_ok.
  2:{ unfold deref_dict. erewrite bind_ok; [|by eapply deref_some]. done. }
  erewrite bind_ok; [|reflexivity].
  unfold alloc. simpl. rewrite length_app, Nat.add_1_r.
  by rewrite <- app_assoc.
Qed.

Section ChunkedCall.

Variables (w : world) (fi xo yo : loc) (icycx : bool).
Variables (x : DataArray) (d : dask_array (ndarray elt)).
Variables (m : elt) (lxi lyi : loc).
Variables (xi_a yi_a xo_a yo_a : ndarray elt) (tx ty : nat).

Hypothesis fi_DataArray : read_DataArray (heap w) fi = Some x.
Hypothesis fi_chunked : read_dask (heap w) (da_data x) = Some d.
Hypothesis fi_ndim : 2 ≤ length (dk_chunks d).
Hypothesis xi_array : read_ndarray (heap w) lxi = Some xi_a.
Hypothesis yi_array : read_ndarray (heap w) lyi = Some yi_a.
Hypothesis xo_array : read_ndarray (heap w) xo = Some xo_a.
Hypothesis yo_array : read_ndarray (heap w) yo = Some yo_a.
Hypothesis xo_shape : nd_shape xo_a = [tx].
Hypothesis yo_shape : nd_shape yo_a = [ty].

(** The declared chunks and the graph of the call. *)
Let fo_chunks := setslice_last2 (dk_chunks d) [[ty]; [tx]].
Let fo : dask_array (task elt KS) :=
  {| dk_chunks := fo_chunks; dk_dtype := dk_dtype d;
     dk_blocks :=
       map_blocks_grid (λ b, _linint2 xi_a yi_a b xo_a yo_a icycx m)
         (length (dk_chunks d) - 2) 0 (dk_blocks d) |}.

(** The hidden state the graph starts from. *)
Let s0 := probed xi_a yi_a xo_a yo_a d icycx m (kstate w).

Local Hint Resolve prefix_app_r : core.

Ltac read_step lem :=
  erewrite bind_ok;
  [|eapply lem; simpl;
    eauto using read_ndarray_prefix, read_DataArray_prefix, read_dask_prefix,
      read_dtype_chunked, prefix_app_r].

Ltac run_to_compute :=
  unfold linint2;
  do 3 (erewrite bind_ok; [|reflexivity]);
  read_step get_data_read;
  read_step get_chunks_read;
  (erewrite bind_ok; [|reflexivity]);
  read_step get_shape_ndarray_read;
  read_step get_shape_ndarray_read;
  (erewrite bind_ok; [|apply list_setslice_last2_fresh]);
  read_step get_dtype_chunked;
  read_step get_ndim_chunked;
  rewrite yo_shape, xo_shape;
  (erewrite bind_ok;
   [|eapply map_blocks_linint2_read; simpl;
     eauto using read_ndarray_prefix, read_dask_prefix, prefix_app_r,
       list_lookup_middle]).

Lemma linint2_run_raise meta e s' :
  compute_blocks fo s0 = (Raise e, s') →
  linint2 fi xo yo icycx (Some m) meta (Some lxi) (Some lyi) w
  = (Raise e, {| heap := heap w ++ [OList fo_chunks]; kstate := s' |}).
Proof.
  intros Hc. run_to_compute.
  erewrite bind_raise; [done|]. by erewrite compute_raise.
Qed.

Lemma linint2_run_unlabelled res s' :
  compute_blocks fo s0 = (Ok res, s') →
  linint2 fi xo yo icycx (Some m) false (Some lxi) (Some lyi) w
  = (Ok (length (heap w) + 3),
     {| heap := heap w
                ++ [OList fo_chunks; ONdarray res; ODict [];
                    ODataArray
                      {| da_data := length (heap w) + 1;
                         da_dims := default_dims (length (nd_shape res));
                         da_coords := [];
                         da_attrs := length (heap w) + 2 |}];
        kstate := s' |}).
Proof.
  intros Hc. run_to_compute.
  erewrite bind_ok; [|by erewrite compute_ok].
  erewrite xr_DataArray_unlabelled.
  2:{ simpl. unfold read_ndarray. by rewrite list_lookup_middle by done. }
  simpl. rewrite !length_app, <- !app_assoc. simpl.
  replace (S (length (heap w) + 1 + 1)) with (length (heap w) + 3) by lia.
  by replace (length (heap w) + 1 + 1) with (length (heap w) + 2) by lia.
Qed.

Lemma linint2_run_labelled res s' dict :
  compute_blocks fo s0 = (Ok res, s') →
  length (da_dims x) = length (nd_shape res) →
  heap w !! da_attrs x = Some (ODict dict) →
  coords_fit (heap w) (da_dims x) (nd_shape res)
    (map (relabel (da_dims x) xo yo) (da_coords x)) = true →
  linint2 fi xo yo icycx (Some m) true (Some lxi) (Some lyi) w
  = (Ok (length (heap w) + 3),
     {| heap := heap w
                ++ [OList fo_chunks; ONdarray res; ODict dict;
                    ODataArray
                      {| da_data := length (heap w) + 1;
                         da_dims := da_dims x;
                         da_coords :=
                           map (relabel (da_dims x) xo yo) (da_coords x);
                         da_attrs := length (heap w) + 2 |}];
        kstate := s' |}).
Proof.
  intros Hc Hdims Hattrs Hfit. run_to_compute.
  erewrite bind_ok; [|by erewrite compute_ok].
  read_step coords_items_read.
  read_step get_dims_read.
  read_step get_attrs_read.
  erewrite xr_DataArray_labelled with (a := res) (dict := dict).
  - simpl. rewrite !length_app, <- !app_assoc. simpl.
    replace (S (length (heap w) + 1 + 1)) with (length (heap w) + 3) by lia.
    by replace (length (heap w) + 1 + 1) with (length (heap w) + 2) by lia.
  - simpl. unfold read_ndarray. by rewrite list_lookup_middle by done.
  - done.
  - apply mapM_map_pure. intros kv.
    eapply as_variable_relabel; simpl;
      eauto using read_ndarray_prefix, prefix_app_r.
  - simpl. eapply coords_fit_prefix; [done|].
    rewrite <- app_assoc. apply prefix_app_r. done.
  - simpl. rewrite <- app_assoc. by apply lookup_app_l_Some.
Qed.

End ChunkedCall.


(** *** What a call on a chunked DataArray returns *)

Lemma lookup_fresh {A} (h l : list A) (i : nat) :
  (h ++ l) !! (length h + i) = l !! i.
Proof. rewrite lookup_app_r by lia. f_equal. lia. Qed.

Lemma compute_dispatch_shape (f : ndarray elt → task elt KS)
    (d : dask_array (ndarray elt)) ys xs (ty tx : nat) s :
  well_chunked d → 2 ≤ length (dk_chunks d) →
  (∀ b s, 2 ≤ length (nd_shape b) →
     ∃ r s', f b s = (Ok r, s')
             ∧ nd_shape r = take (length (nd_shape b) - 2) (nd_shape b)
                            ++ [ty; tx]) →
  ∃ res s',
    compute_blocks (dispatch f d ys xs) s = (Ok res, s')
    ∧ nd_shape res = take (length (dk_chunks d) - 2) (dk_shape d) ++ [ty; tx].
Proof.
  intros Hwf Hn Hf. unfold well_chunked in Hwf.
  destruct (split_last2 (dk_chunks d) Hn) as (c1 & c2 & Hsplit).
  set (lead := take (length (dk_chunks d) - 2) (dk_chunks d)) in *.
  assert (length lead = length (dk_chunks d) - 2) as Hlead
    by (unfold lead; rewrite length_take; lia).
  rewrite Hsplit in Hwf.
  destruct (run_map_blocks_conforms f ty tx c1 c2 lead Hf [] _ s Hwf)
    as (g' & s' & Hrun & Hg').
  destruct (concatenate3_shape _ _ _ Hg') as (res & Hres & Hshape).
  exists res, s'. split.
  - unfold compute_blocks, dispatch. simpl in *.
    rewrite <- Hlead, Hrun. by rewrite Hres.
  - rewrite Hshape, map_app. simpl. rewrite !Nat.add_0_r. f_equal.
    unfold dk_shape, lead. by rewrite firstn_map.
Qed.

Lemma compute_dispatch_blockwise (f : ndarray elt → task elt KS)
    (d : dask_array (ndarray elt)) ys xs s :
  well_chunked d → unchunked_last2 d → 2 ≤ length (dk_chunks d) →
  compute_blocks (dispatch f d ys xs) s = blockwise f d s.
Proof.
  intros Hwf Hun Hn. unfold well_chunked in Hwf. unfold unchunked_last2 in Hun.
  destruct (split_last2 (dk_chunks d) Hn) as (c1 & c2 & Hsplit).
  set (lead := take (length (dk_chunks d) - 2) (dk_chunks d)) in *.
  assert (length lead = length (dk_chunks d) - 2) as Hlead
    by (unfold lead; rewrite length_take; lia).
  assert (slice_last2 (dk_chunks d) = [c1; c2]) as Hlast.
  { unfold slice_last2. rewrite Hsplit at 2.
    apply drop_app_length'. lia. }
  rewrite Hlast in Hun.
  apply Forall_cons in Hun as [H1 Hun]. apply Forall_cons in Hun as [H2 _].
  destruct c1 as [|n1 [|]]; try done. destruct c2 as [|n2 [|]]; try done.
  rewrite Hsplit in Hwf.
  pose proof (run_map_blocks_unchunked f n1 n2 lead [] _ s Hwf) as Hrun.
  simpl in Hrun. rewrite Hlead in Hrun.
  unfold blockwise, compute_blocks, dispatch. simpl. by rewrite Hrun.
Qed.

(** What [compute] makes of the graph, with the calls it takes: one call
    on every joined block of the leading axes, the results put back in the
    places of those blocks and concatenated. *)
Lemma compute_dispatch_chain (f : ndarray elt → task elt KS)
    (T : ndarray elt → ndarray elt → KS → KS → Prop)
    (d : dask_array (ndarray elt)) ys xs (ty tx : nat) s :
  well_chunked d → 2 ≤ length (dk_chunks d) →
  (∀ b s, 2 ≤ length (nd_shape b) →
     ∃ r s', f b s = (Ok r, s')
             ∧ nd_shape r = take (length (nd_shape b) - 2) (nd_shape b)
                            ++ [ty; tx]
             ∧ T b r s s') →
  ∃ res s' joined outs order g',
    compute_blocks (dispatch f d ys xs) s = (Ok res, s')
    ∧ nd_shape res = take (length (dk_chunks d) - 2) (dk_shape d) ++ [ty; tx]
    ∧ lead_blocks (length (dk_chunks d) - 2) 0 (dk_blocks d) = Ok <$> joined
    ∧ joined ≠ []
    ∧ length joined
      = product (map length (take (length (dk_chunks d) - 2) (dk_chunks d)))
    ∧ length outs = length joined
    ∧ refill (dk_blocks (dispatch f d ys xs)) outs = Some (g', [])
    ∧ concatenate3 0 g' = Ok res
    ∧ order ≡ₚ zip joined outs
    ∧ chain T order s s'.
Proof.
  intros Hwf Hn Hf. unfold well_chunked in Hwf.
  destruct (split_last2 (dk_chunks d) Hn) as (c1 & c2 & Hsplit).
  set (lead := take (length (dk_chunks d) - 2) (dk_chunks d)) in *.
  assert (length lead = length (dk_chunks d) - 2) as Hlead
    by (unfold lead; rewrite length_take; lia).
  rewrite Hsplit in Hwf.
  destruct (run_map_blocks_chain f T ty tx c1 c2 lead Hf [] _ s Hwf)
    as (g' & s' & joined & outs & order & Hrun & Hg' & Hj & Hne & Hlen & Hre
        & Hperm & Hch).
  destruct (concatenate3_shape _ _ _ Hg') as (res & Hres & Hshape).
  pose proof (length_lead_blocks c1 c2 lead [] _ Hwf) as Hcount.
  simpl in Hrun, Hj, Hre, Hcount. rewrite Hlead in Hrun, Hj, Hre, Hcount.
  exists res, s', joined, outs, order, g'.
  simpl in Hres.
  split; [unfold compute_blocks, dispatch; simpl; by rewrite Hrun, Hres|].
  split.
  { rewrite Hshape, map_app. simpl. rewrite !Nat.add_0_r. f_equal.
    unfold dk_shape, lead. by rewrite firstn_map. }
  split; [done|]. split; [done|]. split.
  { rewrite Hj, length_fmap in Hcount. done. }
  by repeat split.
Qed.

Lemma linint2_chunked_run w fi xo yo icycx xmsg meta xi yi
    x d m xi_a yi_a xo_a yo_a tx ty res s' :
  chunked_call dtype_default_fill (heap w) fi xo yo xmsg xi yi
    x d m xi_a yi_a xo_a yo_a tx ty →
  compute_blocks
    (dispatch (λ b, _linint2 xi_a yi_a b xo_a yo_a icycx m) d [ty] [tx])
    (probed xi_a yi_a xo_a yo_a d icycx m (kstate w)) = (Ok res, s') →
  (meta = true → labels_fit (heap w) x xo yo (nd_shape res)) →
  ∃ dims coords dict,
    linint2 fi xo yo icycx xmsg meta xi yi w
    = (Ok (length (heap w) + 3),
       {| heap := heap w
                  ++ [OList (setslice_last2 (dk_chunks d) [[ty]; [tx]]);
                      ONdarray res; ODict dict;
                      ODataArray {| da_data := length (heap w) + 1;
                                    da_dims := dims;
                                    da_coords := coords;
                                    da_attrs := length (heap w) + 2 |}];
          kstate := s' |})
    ∧ (meta = true →
         dims = da_dims x
         ∧ coords = map (relabel (da_dims x) xo yo) (da_coords x)
         ∧ heap w !! da_attrs x = Some (ODict dict))
    ∧ (meta = false →
         dims = default_dims (length (nd_shape res))
         ∧ coords = [] ∧ dict = []).
Proof.
  intros [Hfi Hd Hn Hm (lxi & Hxi & Hxi_a) (lyi & Hyi & Hyi_a)
            Hxo Hyo Hsx Hsy] Hc Hlab.
  rewrite (linint2_resolved _ _ _ _ _ _ _ _ _ _ _ _ Hm Hxi Hyi).
  destruct meta.
  - destruct (Hlab eq_refl) as (Hdims & [dict Hdict] & Hfit).
    eexists _, _, dict. split; [|split; [done|by intros [=]]].
    by eapply linint2_run_labelled.
  - eexists _, _, []. split; [|split; [by intros [=]|done]].
    by eapply linint2_run_unlabelled.
Qed.

Lemma returned_DataArray_reads (h : list (object elt)) c res dict dims coords :
  let h' := h ++ [OList c; ONdarray res; ODict dict;
                  ODataArray {| da_data := length h + 1; da_dims := dims;
                                da_coords := coords;
                                da_attrs := length h + 2 |}] in
  h' !! length h = Some (OList c)
  ∧ read_data h' (length h + 3) = Some res
  ∧ read_dims h' (length h + 3) = Some dims
  ∧ read_attrs h' (length h + 3) = Some dict
  ∧ read_coords h' (length h + 3) = read_variables h' coords.
Proof.
  intros h'. unfold read_data, read_dims, read_attrs, read_coords,
    read_DataArray, read_ndarray, h'.
  rewrite !lookup_fresh. simpl. rewrite !lookup_fresh. simpl.
  split; [|done]. by rewrite <- (Nat.add_0_r (length h)), lookup_fresh at 1.
Qed.

Lemma read_variables_prefix h h' cs r :
  read_variables h cs = Some r → h `prefix_of` h' →
  read_variables h' cs = Some r.
Proof.
  intros Hr Hp. revert r Hr.
  induction cs as [|[k v] cs IH]; intros r Hr; simpl in *; [done|].
  unfold read_variable in *.
  destruct (read_ndarray h (v_data v)) as [a|] eqn:Ha; [|done].
  rewrite (read_ndarray_prefix _ _ _ _ Ha Hp).
  destruct (read_variables h cs) as [rs|]; [|done].
  by rewrite (IH rs eq_refl).
Qed.

Lemma read_variables_relabel h dims xo yo xo_a yo_a coords cs :
  read_variables h coords = Some cs →
  read_ndarray h xo = Some xo_a → read_ndarray h yo = Some yo_a →
  read_variables h (map (relabel dims xo yo) coords)
  = Some (map (relabel_view dims xo_a yo_a) cs).
Proof.
  intros Hcs Hxo Hyo. revert cs Hcs.
  induction coords as [|[k v] coords IH]; intros cs Hcs; simpl in *.
  { by simplify_eq. }
  destruct (read_variable h v) as [c|] eqn:Hv; [|done].
  destruct (read_variables h coords) as [cs'|]; [|done].
  simplify_eq. rewrite (IH cs' eq_refl). simpl.
  unfold relabel_view, read_variable in *. simpl.
  destruct (bool_decide (k ∉ slice_last2 dims)); [by rewrite Hv|].
  destruct (bool_decide (last dims = Some k)); simpl; by rewrite ?Hxo, ?Hyo.
Qed.

Lemma assoc_relabel_view dims (xo_a yo_a : ndarray elt) k cs :
  assoc k (map (relabel_view dims xo_a yo_a) cs)
  = (λ c, (relabel_view dims xo_a yo_a (k, c)).2) <$> assoc k cs.
Proof.
  induction cs as [|[k' c] cs IH]; simpl; [done|].
  destruct (decide (k' = k)) as [->|]; [done|]. by rewrite IH.
Qed.

Lemma map_fst_relabel_view dims (xo_a yo_a : ndarray elt) cs :
  map fst (map (relabel_view dims xo_a yo_a) cs) = map fst cs.
Proof. rewrite map_map. by apply map_ext. Qed.

Lemma slice_last2_app {A} (l : list A) (a b : A) :
  slice_last2 (l ++ [a; b]) = [a; b].
Proof.
  unfold slice_last2. apply drop_app_length'.
  rewrite length_app. simpl. lia.
Qed.

Lemma kernel_shapes_vectors xi_a yi_a xo_a yo_a icycx m tx ty :
  kernel_shapes _linint2 xi_a yi_a xo_a yo_a icycx m →
  nd_shape xo_a = [tx] → nd_shape yo_a = [ty] →
  ∀ b s, 2 ≤ length (nd_shape b) →
    ∃ r s', _linint2 xi_a yi_a b xo_a yo_a icycx m s = (Ok r, s')
            ∧ nd_shape r = take (length (nd_shape b) - 2) (nd_shape b)
                           ++ [ty; tx].
Proof.
  intros Hk Hx Hy b s Hb. destruct (Hk b s Hb) as (r & s' & Hr & Hs).
  exists r, s'. split; [done|]. by rewrite Hs, Hx, Hy.
Qed.

(** X12.  With [meta=True], a chunked DataArray [fi] that has coordinates on
    its two rightmost dimensions, and whose labels fit the interpolated
    data, keeps its metadata: the DataArray returned has the attributes of
    [fi], the dimension names of [fi] in the same order, the same
    coordinate names, for every coordinate other than those of the two
    rightmost dimensions the same values, and [xo] and [yo] as the
    coordinates of the rightmost and of the second-rightmost dimension. *)
Theorem linint2_preserves_metadata
    (w : world) (fi xo yo : loc) (icycx : bool) (xmsg : option elt)
    (xi yi : option loc)
    (x : DataArray) (d : dask_array (ndarray elt)) (m : elt)
    (xi_a yi_a xo_a yo_a : ndarray elt) (tx ty : nat)
    (lead : list string) (dy dx : string)
    (cs : list (string * (list string * ndarray elt)))
    (dict : list (string * string)) :
  chunked_call dtype_default_fill (heap w) fi xo yo xmsg xi yi
    x d m xi_a yi_a xo_a yo_a tx ty →
  well_chunked d →
  kernel_shapes _linint2 xi_a yi_a xo_a yo_a icycx m →
  da_dims x = lead ++ [dy; dx] → dx ≠ dy →
  read_coords (heap w) fi = Some cs →
  is_Some (assoc dx cs) → is_Some (assoc dy cs) →
  read_attrs (heap w) fi = Some dict →
  labels_fit (heap w) x xo yo
    (take (length (dk_chunks d) - 2) (dk_shape d) ++ [ty; tx]) →
  ∃ r w' rcs,
    linint2 fi xo yo icycx xmsg true xi yi w = (Ok r, w')
    ∧ read_attrs (heap w') r = Some dict
    ∧ read_dims (heap w') r = read_dims (heap w) fi
    ∧ read_coords (heap w') r = Some rcs
    ∧ map fst rcs = map fst cs
    ∧ (∀ k c, k ≠ dx → k ≠ dy → assoc k cs = Some c → assoc k rcs = Some c)
    ∧ assoc dx rcs = Some ([dx], xo_a)
    ∧ assoc dy rcs = Some ([dy], yo_a).
Proof.
  intros Hcall Hwf Hk Hdims Hne Hcs [cx Hcx] [cy Hcy] Hattrs Hlab.
  pose proof Hcall as [Hfi Hd Hn _ _ _ Hxo Hyo Hsx Hsy].
  destruct (compute_dispatch_shape
              (λ b, _linint2 xi_a yi_a b xo_a yo_a icycx m) d [ty] [tx]
              ty tx (probed xi_a yi_a xo_a yo_a d icycx m (kstate w)) Hwf Hn)
    as (res & s' & Hc & Hshape).
  { by eapply kernel_shapes_vectors. }
  destruct (linint2_chunked_run w fi xo yo icycx xmsg true xi yi
              x d m xi_a yi_a xo_a yo_a tx ty res s' Hcall Hc)
    as (dims & coords & dict' & Hrun & Hmeta & _).
  { intros _. by rewrite Hshape. }
  destruct (Hmeta eq_refl) as (-> & -> & Hdict').
  assert (dict' = dict) as ->.
  { unfold read_attrs in Hattrs. rewrite Hfi, Hdict' in Hattrs.
    by simplify_eq. }
  destruct (returned_DataArray_reads (heap w)
              (setslice_last2 (dk_chunks d) [[ty]; [tx]]) res dict
              (da_dims x) (map (relabel (da_dims x) xo yo) (da_coords x)))
    as (_ & _ & Hrdims & Hrattrs & Hrcoords).
  unfold read_coords in Hcs. rewrite Hfi in Hcs.
  eexists _, _, (map (relabel_view (da_dims x) xo_a yo_a) cs).
  split; [exact Hrun|]. simpl.
  split; [done|].
  split; [by rewrite Hrdims; unfold read_dims; rewrite Hfi|].
  split.
  { rewrite Hrcoords. eapply read_variables_prefix; [|by apply prefix_app_r].
    by apply read_variables_relabel. }
  split; [by apply map_fst_relabel_view|].
  assert (slice_last2 (da_dims x) = [dy; dx]) as Hslice
    by (rewrite Hdims; apply slice_last2_app).
  assert (last (da_dims x) = Some dx) as Hlast.
  { rewrite Hdims. by rewrite last_app. }
  split; [|split].
  - intros k c Hkx Hky Hkc. rewrite assoc_relabel_view, Hkc. simpl.
    unfold relabel_view. simpl. rewrite Hslice.
    rewrite bool_decide_eq_true_2; [done|].
    by repeat (apply not_elem_of_cons; split; [done|]); apply not_elem_of_nil.
  - rewrite assoc_relabel_view, Hcx. simpl.
    unfold relabel_view. simpl. rewrite Hslice, Hlast.
    rewrite bool_decide_eq_false_2
      by (intros H; apply H; right; left).
    by rewrite bool_decide_eq_true_2.
  - rewrite assoc_relabel_view, Hcy. simpl.
    unfold relabel_view. simpl. rewrite Hslice, Hlast.
    rewrite bool_decide_eq_false_2 by (intros H; apply H; left).
    rewrite bool_decide_eq_false_2; [done|]. congruence.
Qed.


(** *** Simulation between two runs *)

Lemma state_blind_mapKM {A B} (run : A → KM KS B) (xs : list A) :
  (∀ x, x ∈ xs → state_blind (run x)) → state_blind (mapKM run xs).
Proof.
  induction xs as [|a xs IH]; intros Hrun s s'; simpl; [done|].
  pose proof (Hrun a (list_elem_of_here _ _) s s') as Ha.
  destruct (run a s) as [[y|e] s1], (run a s') as [[y'|e'] s1'];
    simplify_eq/=; [|done].
  assert (state_blind (mapKM run xs)) as Hxs
    by (apply IH; intros; apply Hrun; by right).
  specialize (Hxs s1 s1').
  by destruct (mapKM run xs s1) as [[ys|e] s2],
       (mapKM run xs s1') as [[ys'|e'] s2']; simplify_eq/=.
Qed.

Lemma state_blind_run_tasks (ts : list (task elt KS)) :
  Forall state_blind ts → state_blind (run_tasks ts).
Proof.
  intros Hts s s'. unfold run_tasks.
  set (l := schedule (length ts) (zip (seq 0 (length ts)) ts)).
  assert (state_blind
            (mapKM (λ (it : nat * task elt KS) s,
                      match it.2 s with
                      | (Ok b, s') => (Ok (it.1, b), s')
                      | (Raise e, s') => (Raise e, s')
                      end) l)) as Hl.
  { apply state_blind_mapKM. intros [i t] Hin s1 s1'. simpl.
    assert (t ∈ ts) as Ht.
    { unfold l in Hin. rewrite schedule_Permutation in Hin
        by (rewrite length_zip_with, length_seq; lia).
      apply list_elem_of_lookup in Hin as [j Hj].
      apply lookup_zip_with_Some in Hj as (a & b & Heq & _ & Hb).
      injection Heq as <- <-. by eapply list_elem_of_lookup_2. }
    rewrite Forall_forall in Hts. specialize (Hts t Ht s1 s1').
    by destruct (t s1) as [[r|e] s2], (t s1') as [[r'|e'] s2'];
      simplify_eq/=. }
  specialize (Hl s s').
  destruct (mapKM _ l s) as [[rs|e] s1], (mapKM _ l s') as [[rs'|e'] s1'];
    simplify_eq/=; [|done].
  by destruct (unscramble (length ts) rs').
Qed.

Lemma state_blind_map_blocks_grid (f : ndarray elt → task elt KS) :
  (∀ b, state_blind (f b)) →
  ∀ lead axis g, state_blind (run_grid (map_blocks_grid f lead axis g)).
Proof.
  intros Hf lead axis g s s'. unfold run_grid.
  rewrite blocks_of_map_blocks_grid.
  assert (state_blind (run_tasks (task_for f <$> lead_blocks lead axis g)))
    as Hts.
  { apply state_blind_run_tasks, Forall_fmap, Forall_forall.
    intros [b|e] _; simpl; [apply Hf|done]. }
  specialize (Hts s s').
  destruct (run_tasks _ s) as [[outs|e] s1],
    (run_tasks _ s') as [[outs'|e'] s1']; simplify_eq/=; [|done].
  by destruct (refill _ outs') as [[g' l']|].
Qed.

Lemma state_blind_map_blocks (f : ndarray elt → task elt KS) src c dt da na d :
  (∀ b, state_blind (f b)) →
  map_blocks f src c dt da na = Ok d → state_blind (compute_blocks d).
Proof.
  intros Hf Hd. unfold map_blocks in Hd.
  case_bool_decide; [|done]. case_decide; [|done]. simplify_eq.
  intros s s'. unfold compute_blocks. simpl.
  pose proof (state_blind_map_blocks_grid f Hf
                (length (dk_chunks src) - 2) 0 (dk_blocks src) s s') as Hg.
  by destruct (run_grid _ s) as [[g|e] s1], (run_grid _ s') as [[g'|e'] s1'];
    simplify_eq/=.
Qed.

Section Simulation.

Variables (n k : nat).

Local Abbreviation shift := (shift n k).
Local Abbreviation shift_variable := (shift_variable n k).
Local Abbreviation shift_item := (shift_item n k).
Local Abbreviation shift_object := (shift_object (elt:=elt) n k).
Local Abbreviation shift_item_arg := (shift_item_arg n k).
Local Abbreviation related := (related (elt:=elt) (KS:=KS) n k).
Local Abbreviation simulates := (simulates (elt:=elt) (KS:=KS) n k).

Lemma shift_inj l l' : shift l = shift l' → l = l'.
Proof. unfold shift. repeat case_decide; lia. Qed.


Lemma shift_lt_length w1 w2 l :
  related w1 w2 → l < length (heap w1) ↔ shift l < length (heap w2).
Proof. intros (Hn & Hl & _). unfold shift. case_decide; lia. Qed.

Lemma shift_length w1 w2 :
  related w1 w2 → shift (length (heap w1)) = length (heap w2).
Proof. intros (Hn & Hl & _). unfold shift. case_decide; lia. Qed.

Lemma simulates_conseq {A} (r : A → A) (P P' : A → Prop) (m1 m2 : M A) :
  simulates r P m1 m2 → (∀ a, P a → P' a) → simulates r P' m1 m2.
Proof.
  intros Hm HP w1 w2 Hw. destruct (Hm w1 w2 Hw) as (? & ? & ?). auto.
Qed.

Lemma simulates_ret {A} (r : A → A) (P : A → Prop) (a : A) :
  P a → simulates r P (ret a) (ret (r a)).
Proof.
  intros HP w1 w2 Hw. simpl. split; [done|]. split; [done|].
  by intros ? [= <-].
Qed.

Lemma simulates_raise {A} (r : A → A) (P : A → Prop) e :
  simulates r P (raise e) (raise e).
Proof. intros w1 w2 Hw. simpl. by split. Qed.

Lemma simulates_lift {A} (r : A → A) (o : outcome A) :
  simulates r (λ _, True) (lift o) (lift (outcome_map r o)).
Proof. intros w1 w2 Hw. simpl. by split. Qed.

Lemma simulates_bind {A B} (r : A → A) (r' : B → B) (P : A → Prop)
    (Q : B → Prop) (m1 m2 : M A) (f1 f2 : A → M B) :
  simulates r P m1 m2 → (∀ a, P a → simulates r' Q (f1 a) (f2 (r a))) →
  simulates r' Q (bind m1 f1) (bind m2 f2).
Proof.
  intros Hm Hf w1 w2 Hw. unfold bind.
  destruct (Hm w1 w2 Hw) as (Hw' & Hr & HP).
  destruct (m1 w1) as [[a|e] w1'], (m2 w2) as [r2 w2']; simpl in *; subst r2.
  - by apply Hf; auto.
  - by split.
Qed.

Lemma simulates_deref l :
  simulates shift_object (λ _, True) (deref l) (deref (shift l)).
Proof.
  intros w1 w2 Hw. pose proof Hw as (_ & _ & Hl). unfold deref.
  rewrite Hl. destruct (heap w1 !! l); simpl; by split.
Qed.

Lemma simulates_alloc (o : object elt) :
  simulates shift (λ _, True) (alloc o) (alloc (shift_object o)).
Proof.
  intros w1 w2 Hw. pose proof Hw as (Hn & Hlen & Hl). simpl.
  split; [|split; [by rewrite (shift_length _ _ Hw)|done]].
  split; [simpl; rewrite length_app; lia|].
  split; [simpl; rewrite !length_app; simpl; lia|].
  intros l. simpl. destruct (decide (l < length (heap w1))) as [Hlt|Hge].
  - rewrite !lookup_app_l; [done|done|]. by apply (shift_lt_length w1 w2).
  - destruct (decide (l = length (heap w1))) as [->|Hne].
    + rewrite (shift_length _ _ Hw). by rewrite !list_lookup_middle.
    + rewrite !lookup_ge_None_2; [done|rewrite length_app; simpl; lia|].
      rewrite length_app. simpl. unfold shift. case_decide; lia.
Qed.

Lemma simulates_store l (o : object elt) :
  simulates id (λ _, True) (store l o) (store (shift l) (shift_object o)).
Proof.
  intros w1 w2 Hw. pose proof Hw as (Hn & Hlen & Hl). simpl.
  split; [|done].
  split; [simpl; by rewrite length_insert|].
  split; [simpl; by rewrite !length_insert|].
  intros l'. simpl. rewrite !list_lookup_insert.
  pose proof (shift_lt_length w1 w2 l Hw) as Hlt.
  destruct (decide (l = l')) as [->|Hne].
  - destruct (decide (l' < length (heap w1))) as [H1|H1].
    + rewrite !decide_True; [done|by split|split; [done|by apply Hlt]].
    + rewrite !decide_False; [done|lia|]. intros [_ H2]. by apply H1, Hlt.
  - assert (shift l ≠ shift l') by (intros ?%shift_inj; done).
    rewrite !decide_False; [done|by intros [? _]|by intros [? _]].
Qed.

Lemma simulates_call {A} (t : KM KS A) :
  state_blind t → simulates id (λ _, True) (call t) (call t).
Proof.
  intros Ht w1 w2 Hw. unfold call. specialize (Ht (kstate w1) (kstate w2)).
  destruct (t (kstate w1)) as [r1 s1], (t (kstate w2)) as [r2 s2].
  simpl in *. subst r2. split; [done|]. split; [by destruct r1|done].
Qed.

Lemma simulates_mapM {A B} (r : A → A) (r' : B → B) (f1 f2 : A → M B)
    (xs : list A) :
  (∀ a, simulates r' (λ _, True) (f1 a) (f2 (r a))) →
  simulates (map r') (λ _, True) (mapM f1 xs) (mapM f2 (map r xs)).
Proof.
  intros Hf. induction xs as [|a xs IH]; simpl.
  - by apply (simulates_ret (map r')).
  - eapply simulates_bind; [apply Hf|]. intros b _.
    eapply simulates_bind; [apply IH|]. intros bs _.
    by apply (simulates_ret (map r') _ (b :: bs)).
Qed.

Create HintDb sim.
Hint Resolve simulates_deref simulates_alloc simulates_raise : sim.

Ltac sim_ret :=
  lazymatch goal with
  | |- _ ?r ?P (ret ?a) _ => by apply (simulates_ret r P a)
  end.

Ltac sim_step :=
  first
    [ apply simulates_raise
    | sim_ret
    | solve [eauto with sim]
    | eapply simulates_conseq; [solve [eauto with sim]|done]
    | eapply simulates_bind; [solve [eauto with sim]|intros ? _; simpl]
    | lazymatch goal with
      | |- _ _ _ (match ?x with _ => _ end) _ => destruct x; simpl
      | |- _ _ _ (if ?x then _ else _) _ => destruct x; simpl
      end ].

Ltac sim := repeat sim_step.

Lemma simulates_deref_ndarray l :
  simulates id (λ _, True) (deref_ndarray l) (deref_ndarray (shift l)).
Proof. unfold deref_ndarray. sim. Qed.

Lemma simulates_get_shape l :
  simulates id (λ _, True) (get_shape l) (get_shape (shift l)).
Proof. unfold get_shape. sim. Qed.
Hint Resolve simulates_deref_ndarray simulates_get_shape : sim.

Lemma simulates_get_ndim l :
  simulates id (λ _, True) (get_ndim l) (get_ndim (shift l)).
Proof. unfold get_ndim. sim. Qed.

Lemma simulates_get_dtype l :
  simulates id (λ _, True) (get_dtype l) (get_dtype (shift l)).
Proof. unfold get_dtype. sim. Qed.

Lemma simulates_get_dims l :
  simulates id (λ _, True) (get_dims l) (get_dims (shift l)).
Proof. unfold get_dims. sim. Qed.

Lemma simulates_get_attrs l :
  simulates shift (λ _, True) (get_attrs l) (get_attrs (shift l)).
Proof. unfold get_attrs. sim. Qed.

Lemma simulates_coords_items l :
  simulates (map shift_item) (λ _, True)
    (coords_items l) (coords_items (shift l)).
Proof. unfold coords_items. sim. Qed.

Lemma simulates_get_data l :
  simulates shift (λ _, True) (get_data l) (get_data (shift l)).
Proof. unfold get_data. sim. Qed.

Lemma simulates_get_chunks l :
  simulates id (λ _, True) (get_chunks l) (get_chunks (shift l)).
Proof. unfold get_chunks. sim. Qed.
Hint Resolve simulates_get_ndim simulates_get_dtype simulates_get_dims
  simulates_get_attrs simulates_coords_items simulates_get_data
  simulates_get_chunks : sim.

Lemma assoc_shift_item key cs :
  assoc key (map shift_item cs) = shift_variable <$> assoc key cs.
Proof.
  induction cs as [|[key' v] cs IH]; simpl; [done|].
  by destruct (decide (key' = key)).
Qed.

Lemma simulates_coords_getitem l key :
  simulates shift_variable (λ _, True)
    (coords_getitem of_nat l key) (coords_getitem of_nat (shift l) key).
Proof.
  unfold coords_getitem.
  eapply simulates_bind; [apply simulates_deref|]. intros o _.
  destruct o as [| | | |x]; simpl; try apply simulates_raise.
  rewrite assoc_shift_item.
  destruct (assoc key (da_coords x)) as [v|]; simpl.
  { by apply (simulates_ret shift_variable _ v). }
  destruct (index_of key (da_dims x)); [|apply simulates_raise].
  eapply simulates_bind; [apply simulates_get_shape|]. intros sh _.
  eapply simulates_bind; [apply simulates_alloc|]. intros a _. simpl.
  by apply (simulates_ret shift_variable _ {| v_dims := [key]; v_data := a |}).
Qed.

Lemma simulates_values v :
  simulates shift (λ _, True) (values v) (values (shift_variable v)).
Proof. unfold values. sim. Qed.

Lemma simulates_as_variable kc :
  simulates shift_item (λ _, True)
    (as_variable kc) (as_variable (shift_item_arg kc)).
Proof.
  unfold as_variable. destruct kc as [key [v|a]]; simpl.
  - by apply (simulates_ret shift_item _ (key, v)).
  - eapply simulates_bind; [apply simulates_get_shape|]. intros sh _. simpl.
    destruct (decide (length sh = 1)); [|apply simulates_raise].
    by apply (simulates_ret shift_item _
                (key, {| v_dims := [key]; v_data := a |})).
Qed.

Lemma simulates_check_coord dims shape kv :
  simulates id (λ _, True)
    (check_coord dims shape kv) (check_coord dims shape (shift_item kv)).
Proof. unfold check_coord. sim. Qed.

Lemma simulates_deref_dict l :
  simulates id (λ _, True) (deref_dict l) (deref_dict (shift l)).
Proof. unfold deref_dict. sim. Qed.
Hint Resolve simulates_coords_getitem simulates_values simulates_as_variable
  simulates_check_coord simulates_deref_dict : sim.

Lemma simulates_xr_DataArray data coords dims attrs :
  simulates shift (λ _, True)
    (xr_DataArray data coords dims attrs)
    (xr_DataArray (shift data) (map shift_item_arg coords) dims
       (shift <$> attrs)).
Proof.
  unfold xr_DataArray.
  eapply simulates_bind; [apply simulates_deref_ndarray|]. intros a _. simpl.
  eapply (simulates_bind id _ (λ _, True)); [sim|]. intros dims' _. simpl.
  eapply simulates_bind; [apply (simulates_mapM shift_item_arg shift_item); sim|].
  intros vars _. simpl.
  eapply (simulates_bind (map id));
    [apply (simulates_mapM shift_item id); sim|].
  intros units _. simpl.
  eapply (simulates_bind id _ (λ _, True)); [destruct attrs; simpl; sim|].
  intros dict _. simpl.
  eapply simulates_bind; [apply (simulates_alloc (ODict dict))|].
  intros at_ _. simpl.
  apply (simulates_alloc
           (ODataArray {| da_data := data; da_dims := dims';
                          da_coords := vars; da_attrs := at_ |})).
Qed.

Lemma simulates_list_of t :
  simulates shift (λ _, True) (list_of t) (list_of t).
Proof.
  unfold list_of. destruct t as [c|]; [|apply simulates_raise].
  apply (simulates_alloc (OList c)).
Qed.

Lemma simulates_list_setslice_last2 l items :
  simulates id (λ _, True)
    (list_setslice_last2 l items) (list_setslice_last2 (shift l) items).
Proof.
  unfold list_setslice_last2.
  eapply simulates_bind; [apply simulates_deref|]. intros o _.
  destruct o as [| |c| |]; simpl; try apply simulates_raise.
  apply (simulates_store l (OList (setslice_last2 c items))).
Qed.

Lemma simulates_default_fill_getitem dt :
  simulates id (λ _, True)
    (default_fill_getitem dtype_default_fill dt)
    (default_fill_getitem dtype_default_fill dt).
Proof. unfold default_fill_getitem. sim. Qed.
Hint Resolve simulates_xr_DataArray simulates_list_of
  simulates_list_setslice_last2 simulates_default_fill_getitem : sim.

Lemma simulates_lift_same {A} (P : A → Prop) (o : outcome A) :
  (∀ a, o = Ok a → P a) → simulates id P (lift o) (lift o).
Proof.
  intros HP w1 w2 Hw. simpl. split; [done|]. split; [by destruct o|done].
Qed.

Hypothesis kernel_state_blind : kernel_deterministic _linint2.

Lemma simulates_map_blocks_linint2 xi yi fi_data xo yo icycx m chunks dt da na :
  simulates id (λ d, state_blind (compute_blocks d))
    (map_blocks_linint2 _linint2 xi yi fi_data xo yo icycx m chunks dt da na)
    (map_blocks_linint2 _linint2 (shift xi) (shift yi) (shift fi_data)
       (shift xo) (shift yo) icycx m (shift chunks) dt da na).
Proof.
  unfold map_blocks_linint2.
  do 2 (eapply simulates_bind; [apply simulates_deref_ndarray|];
        intros ? _; simpl).
  eapply simulates_bind; [apply simulates_deref|]. intros o _. simpl.
  do 2 (eapply simulates_bind; [apply simulates_deref_ndarray|];
        intros ? _; simpl).
  eapply simulates_bind; [apply simulates_deref|]. intros c _. simpl.
  destruct o as [|src| | |]; simpl; try apply simulates_raise;
    destruct c as [| |c| |]; simpl; try apply simulates_raise.
  apply simulates_lift_same. intros d Hd.
  eapply state_blind_map_blocks; [|exact Hd].
  intros b s s'. apply kernel_state_blind.
Qed.

Lemma simulates_compute (d : dask_array (task elt KS)) :
  state_blind (compute_blocks d) →
  simulates shift (λ _, True) (compute d) (compute d).
Proof.
  intros Hd. unfold compute.
  eapply simulates_bind; [by apply simulates_call|]. intros a _. simpl.
  apply (simulates_alloc (ONdarray a)).
Qed.

Lemma simulates_coord_step fi key (arg : option nat) :
  simulates shift (λ _, True)
    (match arg with
     | Some x => ret x
     | None => coord_default of_nat fi key
     end)
    (match shift <$> arg with
     | Some x => ret x
     | None => coord_default of_nat (shift fi) key
     end).
Proof.
  destruct arg as [l|]; simpl.
  - by apply (simulates_ret shift _ l).
  - unfold coord_default.
    eapply simulates_bind; [apply simulates_get_dims|]. intros dims _.
    eapply (simulates_bind id _ (λ _, True));
      [by apply simulates_lift_same|]. intros d _.
    eapply simulates_bind; [apply simulates_coords_getitem|]. intros c _.
    apply simulates_values.
Qed.

Lemma simulates_linint2 fi xo yo icycx xmsg meta xi yi :
  simulates shift (λ _, True)
    (linint2 fi xo yo icycx xmsg meta xi yi)
    (linint2 (shift fi) (shift xo) (shift yo) icycx xmsg meta
       (shift <$> xi) (shift <$> yi)).
Proof.
  unfold linint2.
  eapply (simulates_bind id _ (λ _, True)).
  { destruct xmsg; [by apply (simulates_ret id)|].
    eapply simulates_bind; [apply simulates_get_dtype|]. intros dt _.
    apply simulates_default_fill_getitem. }
  intros m _.
  eapply simulates_bind; [apply (simulates_coord_step fi 1 xi)|].
  intros lxi _.
  eapply simulates_bind; [apply (simulates_coord_step fi 2 yi)|].
  intros lyi _.
  eapply simulates_bind; [apply simulates_get_data|]. intros fi_data _.
  eapply simulates_bind; [apply simulates_get_chunks|]. intros ch _.
  eapply simulates_bind; [apply simulates_list_of|]. intros fo_chunks _.
  eapply simulates_bind; [apply simulates_get_shape|]. intros ys _.
  eapply simulates_bind; [apply simulates_get_shape|]. intros xs _.
  eapply simulates_bind; [apply simulates_list_setslice_last2|]. intros [] _.
  eapply simulates_bind; [apply simulates_get_dtype|]. intros dt _.
  eapply simulates_bind; [apply simulates_get_ndim|]. intros ndim _.
  eapply simulates_bind; [apply simulates_map_blocks_linint2|].
  intros fo Hfo. simpl.
  eapply simulates_bind; [by apply simulates_compute|]. intros result _.
  destruct meta; [|apply (simulates_xr_DataArray result [] None None)].
  eapply simulates_bind; [apply simulates_coords_items|]. intros items _.
  eapply simulates_bind; [apply simulates_get_dims|]. intros dims _.
  eapply simulates_bind; [apply simulates_get_attrs|]. intros attrs _.
  simpl. rewrite map_map. simpl.
  pose proof (simulates_xr_DataArray result
    (map (λ kv : string * variable,
            (kv.1,
             if bool_decide (kv.1 ∉ slice_last2 dims) then CVar kv.2
             else if bool_decide (last dims = Some kv.1) then CRaw xo
                  else CRaw yo)) items) (Some dims) (Some attrs)) as Hx.
  rewrite map_map in Hx. simpl in Hx.
  lazymatch goal with
  | |- context [xr_DataArray (shift result) ?l] =>
      lazymatch type of Hx with
      | context [xr_DataArray (shift result) ?l'] =>
          replace l with l'; [exact Hx|]
      end
  end.
  apply map_ext. intros kv. unfold shift_item_arg. simpl.
  by repeat case_bool_decide.
Qed.

Lemma related_read_ndarray w1 w2 l :
  related w1 w2 → read_ndarray (heap w2) (shift l) = read_ndarray (heap w1) l.
Proof.
  intros (_ & _ & Hl). unfold read_ndarray. rewrite Hl.
  by destruct (heap w1 !! l) as [[]|].
Qed.

Lemma related_read_variables w1 w2 cs :
  related w1 w2 →
  read_variables (heap w2) (map shift_item cs) = read_variables (heap w1) cs.
Proof.
  intros Hw. induction cs as [|[key v] cs IH]; simpl; [done|].
  unfold read_variable. simpl.
  by rewrite (related_read_ndarray _ _ _ Hw), IH.
Qed.

(** Related heaps show the same DataArray at related places. *)
Lemma related_observe w1 w2 l :
  related w1 w2 → observe (heap w2) (shift l) = observe (heap w1) l.
Proof.
  intros Hw. pose proof Hw as (_ & _ & Hl).
  unfold observe, read_data, read_dims, read_coords, read_attrs,
    read_DataArray.
  rewrite Hl. destruct (heap w1 !! l) as [[| | | |x]|]; simpl; try done.
  rewrite (related_read_ndarray _ _ _ Hw), (related_read_variables _ _ _ Hw).
  rewrite Hl. by destruct (heap w1 !! da_attrs x) as [[]|].
Qed.

End Simulation.

Lemma shift_object_closed n k (o : object elt) :
  Forall (λ l, l < n) (object_refs o) → shift_object n k o = o.
Proof.
  destruct o as [| | | |[data dims coords attrs]]; try done. simpl.
  intros [Hd [Ha Hc]%Forall_cons]%Forall_cons.
  unfold shift. rewrite !decide_True by done. do 2 f_equal.
  induction coords as [|[key [vd vl]] coords IH]; simpl in *; [done|].
  apply Forall_cons in Hc as [Hv Hc]. rewrite IH by done.
  unfold shift_item, shift_variable, shift. simpl.
  by rewrite decide_True by done.
Qed.

(** A closed heap and any extension of it are related. *)
Lemma related_extension w w' :
  closed_heap (heap w) → heap w `prefix_of` heap w' →
  ∃ k, related (length (heap w)) k w w'.
Proof.
  intros Hclosed [junk Hjunk]. exists (length junk).
  split; [done|]. split; [by rewrite Hjunk, length_app|].
  intros l. rewrite Hjunk. unfold shift. case_decide as Hl.
  - rewrite lookup_app_l by done.
    destruct (heap w !! l) as [o|] eqn:Ho; [|done]. simpl.
    rewrite shift_object_closed; [done|].
    unfold closed_heap in Hclosed. rewrite Forall_forall in Hclosed.
    apply Hclosed. by eapply list_elem_of_lookup_2.
  - rewrite !lookup_ge_None_2; [done|lia|]. rewrite length_app. lia.
Qed.

(** C6. [linint2] is stateless and, given a deterministic kernel,
    deterministic.  Two calls in a row with the same arguments end the same
    way: with the same exception, or with DataArrays of equal data,
    dimension names, coordinates and attributes.  More generally the
    outcome is the same in every world that holds the same arguments,
    whatever else is in memory and whatever the hidden state of the native
    library: the wrapper looks at nothing but its arguments. *)
Theorem linint2_stateless_deterministic
    (w : world) (fi xo yo : loc) (icycx : bool) (xmsg : option elt)
    (meta : bool) (xi yi : option loc) :
  kernel_deterministic _linint2 →
  closed_heap (heap w) →
  fi < length (heap w) → xo < length (heap w) → yo < length (heap w) →
  (∀ l, xi = Some l → l < length (heap w)) →
  (∀ l, yi = Some l → l < length (heap w)) →
  let call := linint2 fi xo yo icycx xmsg meta xi yi in
  same_outcome (call w) (call (call w).2)
  ∧ ∀ w', heap w `prefix_of` heap w' → same_outcome (call w) (call w').
Proof.
  intros Hk Hclosed Hfi Hxo Hyo Hxi Hyi call.
  assert (∀ w', heap w `prefix_of` heap w' → same_outcome (call w) (call w'))
    as Hgen.
  { intros w' Hw'.
    destruct (related_extension w w' Hclosed Hw') as [k Hrel].
    pose proof (simulates_linint2 (length (heap w)) k Hk
                  fi xo yo icycx xmsg meta xi yi w w' Hrel)
      as (Hrel' & Hout & _).
    assert (∀ l, l < length (heap w) → shift (length (heap w)) k l = l)
      as Hshift by (intros l Hl; unfold shift; by rewrite decide_True).
    assert (∀ arg : option nat,
              (∀ l, arg = Some l → l < length (heap w)) →
              shift (length (heap w)) k <$> arg = arg) as Hopt.
    { intros [l|] Hl; [|done]. simpl. by rewrite Hshift by by apply Hl. }
    rewrite !Hshift, !Hopt in Hrel', Hout by done.
    fold call in Hrel', Hout.
    unfold same_outcome. rewrite Hout.
    destruct (call w).1 as [l|e]; simpl; [|done].
    symmetry. by apply related_observe. }
  split; [|done].
  apply Hgen.
  by destruct (preserves_linint2 (heap w) fi xo yo icycx xmsg meta xi yi w).
Qed.

(** What the DataArray returned for a chunked input carries: with
    [meta=True] the dimension names and attributes of [fi]; with
    [meta=False] default dimension names, no coordinates and no
    attributes. *)
Lemma linint2_result_labels
    (w : world) (fi xo yo : loc) (icycx : bool) (xmsg : option elt)
    (meta : bool) (xi yi : option loc)
    (x : DataArray) (d : dask_array (ndarray elt)) (m : elt)
    (xi_a yi_a xo_a yo_a : ndarray elt) (tx ty : nat) :
  chunked_call dtype_default_fill (heap w) fi xo yo xmsg xi yi
    x d m xi_a yi_a xo_a yo_a tx ty →
  well_chunked d →
  kernel_shapes _linint2 xi_a yi_a xo_a yo_a icycx m →
  (meta = true →
   labels_fit (heap w) x xo yo
     (take (length (dk_chunks d) - 2) (dk_shape d) ++ [ty; tx])) →
  ∃ r w',
    linint2 fi xo yo icycx xmsg meta xi yi w = (Ok r, w')
    ∧ (meta = true →
         read_dims (heap w') r = Some (da_dims x)
         ∧ read_attrs (heap w') r = read_attrs (heap w) fi)
    ∧ (meta = false →
         read_dims (heap w') r = Some (default_dims (length (dk_chunks d)))
         ∧ read_coords (heap w') r = Some []
         ∧ read_attrs (heap w') r = Some []).
Proof.
  intros Hcall Hwf Hk Hlab.
  pose proof Hcall as [Hfi _ Hn _ _ _ _ _ Hsx Hsy].
  destruct (compute_dispatch_shape
              (λ b, _linint2 xi_a yi_a b xo_a yo_a icycx m) d [ty] [tx]
              ty tx (probed xi_a yi_a xo_a yo_a d icycx m (kstate w)) Hwf Hn)
    as (res & s' & Hc & Hshape).
  { by eapply kernel_shapes_vectors. }
  destruct (linint2_chunked_run w fi xo yo icycx xmsg meta xi yi
              x d m xi_a yi_a xo_a yo_a tx ty res s' Hcall Hc)
    as (dims & coords & dict & Hrun & Htrue & Hfalse).
  { by rewrite Hshape. }
  destruct (returned_DataArray_reads (heap w)
              (setslice_last2 (dk_chunks d) [[ty]; [tx]]) res dict dims coords)
    as (_ & _ & Hdims & Hattrs & Hcoords).
  eexists _, _. split; [exact Hrun|]. simpl. split.
  - intros Hm. destruct (Htrue Hm) as (-> & _ & Hdict).
    split; [done|]. rewrite Hattrs. unfold read_attrs.
    by rewrite Hfi, Hdict.
  - intros Hm. destruct (Hfalse Hm) as (-> & -> & ->).
    split; [|by rewrite Hcoords]. rewrite Hdims, Hshape. do 2 f_equal.
    rewrite length_app, length_take. unfold dk_shape.
    rewrite length_map. simpl. lia.
Qed.

(** *** Errors before the kernel is reached *)

(** X1.  A call without [xmsg] on an input whose dtype has no entry in
    [_ncomp.dtype_default_fill] raises KeyError, and nothing else happens. *)
Theorem linint2_missing_fill_raises
    (w : world) (fi xo yo : loc) (icycx meta : bool) (xi yi : option loc)
    (dt : dtype) :
  read_dtype (heap w) fi = Some dt →
  dtype_default_fill dt = None →
  linint2 fi xo yo icycx None meta xi yi w = (Raise KeyError, w).
Proof.
  intros Hdt Hfill. unfold linint2.
  erewrite bind_raise; [done|].
  erewrite bind_ok; [|by apply get_dtype_read].
  unfold default_fill_getitem. by rewrite Hfill.
Qed.

Lemma linint2_xmsg_resolved w fi xo yo icycx xmsg meta xi yi m :
  resolve_xmsg dtype_default_fill (heap w) fi xmsg = Some m →
  linint2 fi xo yo icycx xmsg meta xi yi w
  = linint2 fi xo yo icycx (Some m) meta xi yi w.
Proof.
  intros Hm. destruct xmsg as [m'|]; simpl in Hm; [by simplify_eq|].
  destruct (read_dtype (heap w) fi) as [dt|] eqn:Hdt; [|done].
  by eapply linint2_xmsg_default.
Qed.

(** X2.  The defaults of [xi] and [yi] index [fi.dims] from the right: on a
    DataArray without dimensions a call without [xi] raises IndexError, and
    on one with fewer than two dimensions so does a call without [yi]. *)
Theorem linint2_too_few_dimensions
    (w : world) (fi xo yo : loc) (icycx : bool) (xmsg : option elt)
    (meta : bool) (x : DataArray) (m : elt) :
  read_DataArray (heap w) fi = Some x →
  resolve_xmsg dtype_default_fill (heap w) fi xmsg = Some m →
  (da_dims x = [] →
   ∀ yi, linint2 fi xo yo icycx xmsg meta None yi w = (Raise IndexError, w))
  ∧ (length (da_dims x) < 2 →
     ∀ lxi, linint2 fi xo yo icycx xmsg meta (Some lxi) None w
            = (Raise IndexError, w)).
Proof.
  intros Hx Hm. split.
  - intros Hdims yi. rewrite (linint2_xmsg_resolved _ _ _ _ _ _ _ _ _ _ Hm).
    unfold linint2.
    erewrite bind_ok; [|reflexivity].
    erewrite bind_raise; [done|].
    erewrite bind_ok; [|by apply get_dims_read].
    rewrite Hdims. reflexivity.
  - intros Hdims lxi. rewrite (linint2_xmsg_resolved _ _ _ _ _ _ _ _ _ _ Hm).
    unfold linint2.
    do 2 (erewrite bind_ok; [|reflexivity]).
    erewrite bind_raise; [done|].
    erewrite bind_ok; [|by apply get_dims_read].
    erewrite bind_raise; [done|].
    unfold lift, tuple_getitem_neg. by rewrite decide_False by lia.
Qed.

Lemma coords_getitem_default w fi x d key i n :
  read_DataArray (heap w) fi = Some x →
  read_dask (heap w) (da_data x) = Some d →
  assoc key (da_coords x) = None →
  index_of key (da_dims x) = Some i →
  dk_shape d !! i = Some n →
  bind (coords_getitem of_nat fi key) values w
  = (Ok (length (heap w)),
     {| heap := heap w ++ [ONdarray (arange of_nat n)];
        kstate := kstate w |}).
Proof.
  intros Hx Hd Hassoc Hi Hn.
  erewrite bind_ok.
  2:{ unfold coords_getitem.
      erewrite bind_ok.
      2:{ apply deref_some. unfold read_DataArray in Hx.
          destruct (heap w !! fi) as [[]|]; by simplify_eq. }
      simpl. rewrite Hassoc, Hi.
      erewrite bind_ok; [|by eapply get_shape_DataArray_read].
      rewrite Hn. simpl.
      erewrite bind_ok; reflexivity. }
  unfold values. erewrite bind_ok.
  2:{ apply deref_some. simpl. by apply list_lookup_middle. }
  reflexivity.
Qed.

(** X3.  A call without [xi] on a chunked DataArray whose last dimension carries
    no coordinate works with xarray's default index: it is the call with
    [xi] a new array [0, 1, ..., n-1], [n] the size of that dimension.
    The same holds of [yi] and the dimension before the last. *)
Theorem linint2_default_index
    (w : world) (fi xo yo : loc) (icycx : bool) (xmsg : option elt)
    (meta : bool)
    (x : DataArray) (d : dask_array (ndarray elt)) (m : elt) :
  read_DataArray (heap w) fi = Some x →
  read_dask (heap w) (da_data x) = Some d →
  resolve_xmsg dtype_default_fill (heap w) fi xmsg = Some m →
  (∀ dx i n yi,
     last (da_dims x) = Some dx →
     assoc dx (da_coords x) = None →
     index_of dx (da_dims x) = Some i →
     dk_shape d !! i = Some n →
     linint2 fi xo yo icycx xmsg meta None yi w
     = linint2 fi xo yo icycx (Some m) meta (Some (length (heap w))) yi
         {| heap := heap w ++ [ONdarray (arange of_nat n)];
            kstate := kstate w |})
  ∧ (∀ dy i n lxi,
       2 ≤ length (da_dims x) →
       da_dims x !! (length (da_dims x) - 2) = Some dy →
       assoc dy (da_coords x) = None →
       index_of dy (da_dims x) = Some i →
       dk_shape d !! i = Some n →
       linint2 fi xo yo icycx xmsg meta (Some lxi) None w
       = linint2 fi xo yo icycx (Some m) meta (Some lxi)
           (Some (length (heap w)))
           {| heap := heap w ++ [ONdarray (arange of_nat n)];
              kstate := kstate w |}).
Proof.
  intros Hx Hd Hm. split.
  - intros dx i n yi Hlast Hassoc Hi Hn.
    rewrite (linint2_xmsg_resolved _ _ _ _ _ _ _ _ _ _ Hm).
    unfold linint2.
    erewrite bind_ok; [|reflexivity]. symmetry.
    do 2 (erewrite bind_ok; [|reflexivity]). symmetry.
    erewrite bind_ok; [reflexivity|].
    erewrite bind_ok; [|by apply get_dims_read].
    erewrite bind_ok;
      [|unfold lift; by rewrite (tuple_getitem_neg_last _ _ Hlast)].
    by eapply coords_getitem_default.
  - intros dy i n lxi Hlen Hdy Hassoc Hi Hn.
    rewrite (linint2_xmsg_resolved _ _ _ _ _ _ _ _ _ _ Hm).
    unfold linint2.
    do 2 (erewrite bind_ok; [|reflexivity]). symmetry.
    do 3 (erewrite bind_ok; [|reflexivity]). symmetry.
    erewrite bind_ok; [reflexivity|].
    erewrite bind_ok; [|by apply get_dims_read].
    erewrite bind_ok;
      [|unfold lift; by rewrite (tuple_getitem_neg_second _ _ Hlen Hdy)].
    by eapply coords_getitem_default.
Qed.

(** *** Inputs on which the kernel is never called *)

Lemma quiet_ret {A} (a : A) : quiet (ret (elt:=elt) (KS:=KS) a).
Proof. done. Qed.

Lemma quiet_raise {A} e : quiet (raise (elt:=elt) (KS:=KS) (A:=A) e).
Proof. done. Qed.

Lemma quiet_lift {A} (o : outcome A) : quiet (lift (elt:=elt) (KS:=KS) o).
Proof. done. Qed.

Lemma quiet_deref l : quiet (deref (elt:=elt) (KS:=KS) l).
Proof. intros w. unfold deref. by destruct (heap w !! l). Qed.

Lemma quiet_alloc (o : object elt) : quiet (alloc (KS:=KS) o).
Proof. done. Qed.

Lemma quiet_bind {A B} (m : M A) (f : A → M B) :
  quiet m → (∀ a, quiet (f a)) → quiet (bind m f).
Proof.
  intros Hm Hf w. unfold bind. specialize (Hm w).
  destruct (m w) as [[a|e] w1]; simpl in *; [|done].
  by rewrite Hf.
Qed.

Ltac quiet :=
  repeat first
    [ apply quiet_ret | apply quiet_raise | apply quiet_lift
    | apply quiet_deref | apply quiet_alloc
    | apply quiet_bind; [|intros ?]
    | lazymatch goal with
      | |- quiet (match ?x with _ => _ end) => destruct x
      end ].

Lemma quiet_coord_step fi key (arg : option nat) :
  quiet (match arg with
         | Some x => ret x
         | None => coord_default of_nat fi key
         end : M nat).
Proof.
  destruct arg; [apply quiet_ret|].
  unfold coord_default, get_dims, coords_getitem, get_shape, values. quiet.
Qed.

Lemma quiet_mapM {A B} (f : A → M B) (xs : list A) :
  (∀ a, quiet (f a)) → quiet (mapM f xs).
Proof.
  intros Hf. induction xs as [|a xs IH]; simpl; [apply quiet_ret|].
  apply quiet_bind; [done|]. intros b.
  apply quiet_bind; [done|]. intros bs. apply quiet_ret.
Qed.

Lemma quiet_xr_DataArray data coords dims attrs :
  quiet (xr_DataArray (KS:=KS) data coords dims attrs : M nat).
Proof.
  unfold xr_DataArray, deref_ndarray, deref_dict.
  apply quiet_bind; [quiet|]. intros a.
  apply quiet_bind; [quiet|]. intros dims'.
  apply quiet_bind.
  { apply quiet_mapM. intros kc. unfold as_variable, get_shape. quiet. }
  intros vars. apply quiet_bind.
  { apply quiet_mapM. intros kv. unfold check_coord, get_shape. quiet. }
  intros _. quiet.
Qed.

Lemma linint2_ndarray_explicit w fi xo yo icycx m meta lxi lyi a :
  read_ndarray (heap w) fi = Some a →
  linint2 fi xo yo icycx (Some m) meta (Some lxi) (Some lyi) w
  = (Raise AttributeError, w).
Proof.
  unfold read_ndarray. intros Ha.
  destruct (heap w !! fi) as [[]|] eqn:E; simplify_eq.
  unfold linint2, get_data, get_chunks, bind, deref, ret, raise.
  rewrite ?E; simpl; by rewrite ?E.
Qed.

(** X4.  On a numpy array and on a DataArray held in memory the call raises
    before anything is computed: the native library is not entered. *)
Theorem linint2_kernel_not_called
    (w : world) (fi xo yo : loc) (icycx : bool) (xmsg : option elt)
    (meta : bool) (xi yi : option loc) :
  (∃ a, read_ndarray (heap w) fi = Some a)
  ∨ (∃ x a, read_DataArray (heap w) fi = Some x
            ∧ read_ndarray (heap w) (da_data x) = Some a) →
  kstate (linint2 fi xo yo icycx xmsg meta xi yi w).2 = kstate w.
Proof.
  intros Hfi. unfold linint2. unfold bind at 1.
  pose proof (readonly_xmsg_step fi xmsg w) as Hw.
  destruct (_ w) as [[m|e] w1]; simpl in Hw; subst w1; [|done].
  unfold bind at 1.
  destruct (preserves_coord_step (heap w) fi 1 xi w) as [Hp1 _]; [done|].
  pose proof (quiet_coord_step fi 1 xi w) as Hq1.
  unfold coord_default in Hp1, Hq1.
  destruct (_ w) as [[lxi|e] w1]; simpl in Hp1, Hq1; [|done].
  unfold bind at 1.
  destruct (preserves_coord_step (heap w) fi 2 yi w1) as [Hp2 _]; [done|].
  pose proof (quiet_coord_step fi 2 yi w1) as Hq2.
  unfold coord_default in Hp2, Hq2.
  destruct (_ w1) as [[lyi|e] w2]; simpl in Hp2, Hq2; [|simpl; congruence].
  change (_ w2)
    with (linint2 fi xo yo icycx (Some m) meta (Some lxi) (Some lyi) w2).
  destruct Hfi as [[a Ha]|(x & a & Hx & Ha)].
  - erewrite linint2_ndarray_explicit; [simpl; congruence|].
    eauto using read_ndarray_prefix.
  - erewrite linint2_unchunked_explicit; [simpl; congruence|..];
      eauto using read_DataArray_prefix, read_ndarray_prefix.
Qed.

(** *** Coordinates of the result *)

Lemma assoc_relabel dims xo yo key (cs : list (string * variable)) :
  assoc key (map (relabel dims xo yo) cs)
  = (λ v, (relabel dims xo yo (key, v)).2) <$> assoc key cs.
Proof.
  induction cs as [|[key' v] cs IH]; simpl; [done|].
  destruct (decide (key' = key)) as [->|]; [done|]. by rewrite IH.
Qed.

(** X9.  With [meta=True] the result carries a coordinate for exactly the names
    [fi] has coordinates for: [xo] and [yo] are attached only in place of
    coordinates [fi] already has on its last two dimensions. *)
Theorem linint2_coordinate_names
    (w : world) (fi xo yo : loc) (icycx : bool) (xmsg : option elt)
    (xi yi : option loc)
    (x : DataArray) (d : dask_array (ndarray elt)) (m : elt)
    (xi_a yi_a xo_a yo_a : ndarray elt) (tx ty : nat) :
  chunked_call dtype_default_fill (heap w) fi xo yo xmsg xi yi
    x d m xi_a yi_a xo_a yo_a tx ty →
  well_chunked d →
  kernel_shapes _linint2 xi_a yi_a xo_a yo_a icycx m →
  labels_fit (heap w) x xo yo
    (take (length (dk_chunks d) - 2) (dk_shape d) ++ [ty; tx]) →
  ∃ r w' x',
    linint2 fi xo yo icycx xmsg true xi yi w = (Ok r, w')
    ∧ read_DataArray (heap w') r = Some x'
    ∧ map fst (da_coords x') = map fst (da_coords x)
    ∧ ∀ key, assoc key (da_coords x) = None ↔ assoc key (da_coords x') = None.
Proof.
  intros Hcall Hwf Hk Hlab.
  pose proof Hcall as [_ _ Hn _ _ _ _ _ Hsx Hsy].
  destruct (compute_dispatch_shape
              (λ b, _linint2 xi_a yi_a b xo_a yo_a icycx m) d [ty] [tx]
              ty tx (probed xi_a yi_a xo_a yo_a d icycx m (kstate w)) Hwf Hn)
    as (res & s' & Hc & Hshape).
  { by eapply kernel_shapes_vectors. }
  destruct (linint2_chunked_run w fi xo yo icycx xmsg true xi yi
              x d m xi_a yi_a xo_a yo_a tx ty res s' Hcall Hc)
    as (dims & coords & dict & Hrun & Hmeta & _).
  { intros _. by rewrite Hshape. }
  destruct (Hmeta eq_refl) as (-> & -> & _).
  eexists _, _, _. split; [exact Hrun|]. simpl.
  split.
  { unfold read_DataArray. rewrite lookup_fresh. reflexivity. }
  simpl. split.
  - rewrite map_map. by apply map_ext.
  - intros key. rewrite assoc_relabel.
    by destruct (assoc key (da_coords x)).
Qed.

(** *** Calls without metadata *)

Lemma linint2_chunked_raise w fi xo yo icycx xmsg meta xi yi
    x d m xi_a yi_a xo_a yo_a tx ty e s' :
  chunked_call dtype_default_fill (heap w) fi xo yo xmsg xi yi
    x d m xi_a yi_a xo_a yo_a tx ty →
  compute_blocks
    (dispatch (λ b, _linint2 xi_a yi_a b xo_a yo_a icycx m) d [ty] [tx])
    (probed xi_a yi_a xo_a yo_a d icycx m (kstate w)) = (Raise e, s') →
  (linint2 fi xo yo icycx xmsg meta xi yi w).1 = Raise e.
Proof.
  intros [Hfi Hd Hn Hm (lxi & Hxi & Hxi_a) (lyi & Hyi & Hyi_a)
            Hxo Hyo Hsx Hsy] Hc.
  rewrite (linint2_resolved _ _ _ _ _ _ _ _ _ _ _ _ Hm Hxi Hyi).
  by erewrite linint2_run_raise.
Qed.

(** X8.  With [meta=False] the labels of [fi] play no part, nor does it matter
    which objects hold the arguments: two calls that work with the same
    chunked data, missing value and coordinate values, from the same hidden
    state of the kernel, end with the same exception or with DataArrays of
    equal data, default dimension names, no coordinates and no
    attributes. *)
Theorem linint2_unlabelled_ignores_labels
    (w1 w2 : world) (fi1 xo1 yo1 fi2 xo2 yo2 : loc) (icycx : bool)
    (xmsg1 xmsg2 : option elt) (xi1 yi1 xi2 yi2 : option loc)
    (x1 x2 : DataArray) (d : dask_array (ndarray elt)) (m : elt)
    (xi_a yi_a xo_a yo_a : ndarray elt) (tx ty : nat) :
  chunked_call dtype_default_fill (heap w1) fi1 xo1 yo1 xmsg1 xi1 yi1
    x1 d m xi_a yi_a xo_a yo_a tx ty →
  chunked_call dtype_default_fill (heap w2) fi2 xo2 yo2 xmsg2 xi2 yi2
    x2 d m xi_a yi_a xo_a yo_a tx ty →
  kstate w1 = kstate w2 →
  same_outcome (linint2 fi1 xo1 yo1 icycx xmsg1 false xi1 yi1 w1)
               (linint2 fi2 xo2 yo2 icycx xmsg2 false xi2 yi2 w2).
Proof.
  intros Hcall1 Hcall2 Hs. unfold same_outcome.
  destruct (compute_blocks
              (dispatch (λ b, _linint2 xi_a yi_a b xo_a yo_a icycx m) d
                 [ty] [tx]) (probed xi_a yi_a xo_a yo_a d icycx m (kstate w1))) as [[res|e] s'] eqn:Hc.
  - destruct (linint2_chunked_run w1 fi1 xo1 yo1 icycx xmsg1 false xi1 yi1
                x1 d m xi_a yi_a xo_a yo_a tx ty res s' Hcall1 Hc)
      as (dims1 & coords1 & dict1 & Hrun1 & _ & Hf1); [done|].
    rewrite Hs in Hc.
    destruct (linint2_chunked_run w2 fi2 xo2 yo2 icycx xmsg2 false xi2 yi2
                x2 d m xi_a yi_a xo_a yo_a tx ty res s' Hcall2 Hc)
      as (dims2 & coords2 & dict2 & Hrun2 & _ & Hf2); [done|].
    destruct (Hf1 eq_refl) as (-> & -> & ->).
    destruct (Hf2 eq_refl) as (-> & -> & ->).
    rewrite Hrun1, Hrun2. simpl. unfold observe.
    destruct (returned_DataArray_reads (heap w1)
                (setslice_last2 (dk_chunks d) [[ty]; [tx]]) res []
                (default_dims (length (nd_shape res))) [])
      as (_ & -> & -> & -> & ->).
    destruct (returned_DataArray_reads (heap w2)
                (setslice_last2 (dk_chunks d) [[ty]; [tx]]) res []
                (default_dims (length (nd_shape res))) [])
      as (_ & -> & -> & -> & ->).
    done.
  - rewrite (linint2_chunked_raise _ _ _ _ _ _ _ _ _ _ _ _ _ _ _ _ _ _ _ _
               Hcall1 Hc).
    rewrite Hs in Hc.
    by rewrite (linint2_chunked_raise _ _ _ _ _ _ _ _ _ _ _ _ _ _ _ _ _ _ _ _
                  Hcall2 Hc).
Qed.

(** *** Labels that pass the constructor's checks *)

Lemma index_of_lookup key (l : list string) i :
  index_of key l = Some i → l !! i = Some key.
Proof.
  revert i. induction l as [|k' l IH]; intros i; simpl; [done|].
  destruct (decide (k' = key)) as [->|]; [by intros [= <-]|].
  destruct (index_of key l) as [j|]; [|done]. intros [= <-]. by apply IH.
Qed.

Lemma index_of_None key (l : list string) :
  key ∉ l → index_of key l = None.
Proof.
  induction l as [|k' l IH]; simpl; [done|].
  intros [Hne Hl]%not_elem_of_cons.
  rewrite decide_False by done. by rewrite IH.
Qed.

Lemma index_of_app_l key (l1 l2 : list string) :
  key ∈ l1 → index_of key (l1 ++ l2) = index_of key l1.
Proof.
  induction l1 as [|k' l1 IH]; simpl; [by intros ?%elem_of_nil|].
  destruct (decide (k' = key)); [done|].
  intros [?|Hin]%elem_of_cons; [done|]. by rewrite IH.
Qed.

Lemma index_of_app_r key (l1 l2 : list string) :
  key ∉ l1 →
  index_of key (l1 ++ l2) = (λ i, length l1 + i) <$> index_of key l2.
Proof.
  induction l1 as [|k' l1 IH]; simpl.
  - intros _. by destruct (index_of key l2).
  - intros [Hne Hl]%not_elem_of_cons.
    rewrite decide_False by done. rewrite IH by done.
    by destruct (index_of key l2).
Qed.

(** In distinct dimension names that end in [dy], [dx], these two stand at
    the last two positions. *)
Lemma index_of_last2 (lead : list string) (dy dx : string) :
  NoDup (lead ++ [dy; dx]) →
  index_of dy (lead ++ [dy; dx]) = Some (length lead)
  ∧ index_of dx (lead ++ [dy; dx]) = Some (S (length lead)).
Proof.
  intros [Hlead [Hdis Hlast]]%NoDup_app.
  apply NoDup_cons in Hlast as [Hne _].
  assert (dy ≠ dx) as Hyx.
  { intros ->. apply Hne. by left. }
  assert (dy ∉ lead) as Hy.
  { intros Hin. apply (Hdis _ Hin). by left. }
  assert (dx ∉ lead) as Hx.
  { intros Hin. apply (Hdis _ Hin). right. by left. }
  rewrite !index_of_app_r by done. simpl.
  rewrite decide_True by done. rewrite decide_False by done.
  rewrite decide_True by done. simpl.
  split; f_equal; lia.
Qed.

(** A coordinate over leading dimensions only is checked against the
    leading extents only. *)
Lemma coord_fits_lead (lead tail : list string) (sl t1 t2 : list nat)
    (vdims : list string) (vshape : list nat) :
  length sl = length lead →
  (∀ key, key ∈ vdims → key ∉ tail) →
  coord_fits (lead ++ tail) (sl ++ t1) vdims vshape = true →
  coord_fits (lead ++ tail) (sl ++ t2) vdims vshape = true.
Proof.
  intros Hlen Hv. unfold coord_fits.
  intros [Hl Hf]%andb_true_iff. apply andb_true_iff. split; [done|].
  rewrite forallb_forall in Hf. apply forallb_forall.
  intros [key n] Hin. specialize (Hf _ Hin). simpl in *.
  apply list_elem_of_In in Hin.
  assert (key ∈ vdims) as Hkey.
  { apply list_elem_of_lookup in Hin as [i Hi].
    apply lookup_zip_with_Some in Hi as (a & b & ? & Ha & _). simplify_eq.
    by eapply list_elem_of_lookup_2. }
  destruct (decide (key ∈ lead)) as [Hlead|Hlead].
  - rewrite index_of_app_l in Hf |- * by done.
    destruct (index_of key lead) as [i|] eqn:Hi; [|done].
    apply index_of_lookup, lookup_lt_Some in Hi.
    rewrite lookup_app_l in Hf |- * by lia. done.
  - rewrite index_of_app_r in Hf by done.
    by rewrite (index_of_None key tail) in Hf by auto.
Qed.

Lemma labelled_input_fits (h : list (object elt)) (x : DataArray)
    (d : dask_array (ndarray elt)) lead dy dx xo yo xo_a yo_a tx ty :
  labelled_input h x d lead dy dx →
  read_ndarray h xo = Some xo_a → nd_shape xo_a = [tx] →
  read_ndarray h yo = Some yo_a → nd_shape yo_a = [ty] →
  labels_fit h x xo yo
    (take (length (dk_chunks d) - 2) (dk_shape d) ++ [ty; tx]).
Proof.
  intros (Hdims & Hnd & Hlen & Hattrs & Hcs) Hxo Hsx Hyo Hsy.
  assert (length (dk_shape d) = length (dk_chunks d)) as Hshape
    by (unfold dk_shape; by rewrite length_map).
  assert (length (dk_chunks d) = length lead + 2) as Hn.
  { rewrite <- Hlen, Hdims, length_app. simpl. lia. }
  set (sl := take (length (dk_chunks d) - 2) (dk_shape d)).
  assert (length sl = length lead) as Hsl
    by (unfold sl; rewrite length_take; lia).
  rewrite Hdims in Hnd.
  destruct (index_of_last2 lead dy dx Hnd) as [Hiy Hix].
  assert (dy ≠ dx) as Hyx.
  { apply NoDup_app in Hnd as (_ & _ & Hl).
    apply NoDup_cons in Hl as [Hne _]. intros ->. apply Hne. by left. }
  split; [|split; [done|]].
  { rewrite Hlen, length_app, Hsl. simpl. lia. }
  unfold coords_fit. apply forallb_forall. intros kv' Hin.
  apply in_map_iff in Hin as (kv & <- & Hin).
  apply list_elem_of_In in Hin.
  rewrite Forall_forall in Hcs. specialize (Hcs kv Hin).
  unfold relabel. rewrite Hdims, slice_last2_app.
  replace (lead ++ [dy; dx]) with ((lead ++ [dy]) ++ [dx])
    by (by rewrite <- app_assoc).
  rewrite last_snoc. rewrite <- app_assoc. simpl.
  destruct (decide (kv.1 = dx)) as [Ex|Nx].
  { rewrite bool_decide_eq_false_2.
    2:{ intros Hnot. apply Hnot. rewrite Ex. right. by left. }
    rewrite bool_decide_eq_true_2 by (by rewrite Ex). simpl.
    rewrite Hxo, Hsx. unfold coord_fits. simpl.
    rewrite Ex, Hix. rewrite andb_true_r.
    apply bool_decide_eq_true.
    rewrite lookup_app_r by lia. by rewrite Hsl, Nat.sub_succ_l, Nat.sub_diag. }
  destruct (decide (kv.1 = dy)) as [Ey|Ny].
  { rewrite bool_decide_eq_false_2.
    2:{ intros Hnot. apply Hnot. rewrite Ey. by left. }
    rewrite bool_decide_eq_false_2 by congruence. simpl.
    rewrite Hyo, Hsy. unfold coord_fits. simpl.
    rewrite Ey, Hiy. rewrite andb_true_r.
    apply bool_decide_eq_true.
    rewrite lookup_app_r by lia. by rewrite Hsl, Nat.sub_diag. }
  destruct Hcs as [?|[?|(a & Ha & Hfit & Hvx & Hvy)]]; [done..|].
  rewrite bool_decide_eq_true_2.
  2:{ intros [?|[?|?%elem_of_nil]%elem_of_cons]%elem_of_cons; done. }
  rewrite Ha. rewrite Hdims in Hfit.
  rewrite <- (take_drop (length (dk_chunks d) - 2) (dk_shape d)) in Hfit.
  eapply coord_fits_lead; [exact Hsl| |exact Hfit].
  intros key Hkey [->|[->|?%elem_of_nil]%elem_of_cons]%elem_of_cons; done.
Qed.

(** X10.  A chunked DataArray whose labels agree with its data is always
    relabelled: whatever the lengths of [xo] and [yo], a call with
    [meta=True] returns a DataArray with the dimension names and the
    attributes of [fi]. *)
Theorem linint2_labelled_input_returns
    (w : world) (fi xo yo : loc) (icycx : bool) (xmsg : option elt)
    (xi yi : option loc)
    (x : DataArray) (d : dask_array (ndarray elt)) (m : elt)
    (xi_a yi_a xo_a yo_a : ndarray elt) (tx ty : nat)
    (lead : list string) (dy dx : string) :
  chunked_call dtype_default_fill (heap w) fi xo yo xmsg xi yi
    x d m xi_a yi_a xo_a yo_a tx ty →
  well_chunked d →
  kernel_shapes _linint2 xi_a yi_a xo_a yo_a icycx m →
  labelled_input (heap w) x d lead dy dx →
  ∃ r w',
    linint2 fi xo yo icycx xmsg true xi yi w = (Ok r, w')
    ∧ read_dims (heap w') r = Some (da_dims x)
    ∧ read_attrs (heap w') r = read_attrs (heap w) fi.
Proof.
  intros Hcall Hwf Hk Hlab.
  pose proof Hcall as [_ _ _ _ _ _ Hxo Hyo Hsx Hsy].
  destruct (linint2_result_labels w fi xo yo icycx xmsg true xi yi
              x d m xi_a yi_a xo_a yo_a tx ty Hcall Hwf Hk)
    as (r & w' & Hrun & Htrue & _).
  { intros _. by eapply labelled_input_fits. }
  exists r, w'. split; [done|]. by apply Htrue.
Qed.

(** *** Labels the constructor refuses *)

Lemma check_coords_conflict w dims shape (vars : list (string * variable)) :
  Forall (λ kv : string * variable,
            is_Some (read_ndarray (heap w) (v_data kv.2))) vars →
  coords_fit (heap w) dims shape vars = false →
  mapM (check_coord dims shape) vars w = (Raise ValueError, w).
Proof.
  induction 1 as [|kv vars [a Ha] _ IH]; simpl; [done|].
  rewrite Ha. intros Hfit.
  destruct (coord_fits dims shape (v_dims kv.2) (nd_shape a)) eqn:Hkv.
  - erewrite bind_ok.
    2:{ unfold check_coord.
        erewrite bind_ok; [|by eapply get_shape_ndarray_read].
        by rewrite Hkv. }
    erewrite bind_raise; [done|]. by apply IH.
  - erewrite bind_raise; [done|]. unfold check_coord.
    erewrite bind_ok; [|by eapply get_shape_ndarray_read].
    by rewrite Hkv.
Qed.

Lemma xr_DataArray_dims_mismatch w data a coords dims attrs :
  read_ndarray (heap w) data = Some a →
  length dims ≠ length (nd_shape a) →
  xr_DataArray data coords (Some dims) attrs w = (Raise ValueError, w).
Proof.
  intros Ha Hd. unfold xr_DataArray.
  erewrite bind_ok; [|by eapply deref_ndarray_read].
  erewrite bind_raise; [done|]. by rewrite decide_False by done.
Qed.

Lemma xr_DataArray_conflict w data a coords vars dims attrs :
  read_ndarray (heap w) data = Some a →
  mapM as_variable coords w = (Ok vars, w) →
  Forall (λ kv : string * variable,
            is_Some (read_ndarray (heap w) (v_data kv.2))) vars →
  coords_fit (heap w) dims (nd_shape a) vars = false →
  xr_DataArray data coords (Some dims) attrs w = (Raise ValueError, w).
Proof.
  intros Ha Hv Hread Hfit.
  destruct (decide (length dims = length (nd_shape a))) as [Hd|Hd];
    [|by eapply xr_DataArray_dims_mismatch].
  unfold xr_DataArray.
  erewrite bind_ok; [|by eapply deref_ndarray_read].
  erewrite bind_ok; [|by rewrite decide_True by done].
  erewrite bind_ok; [|exact Hv].
  erewrite bind_raise; [done|]. by apply check_coords_conflict.
Qed.

Section ChunkedCheck.

Variables (w : world) (fi xo yo : loc) (icycx : bool).
Variables (x : DataArray) (d : dask_array (ndarray elt)).
Variables (m : elt) (lxi lyi : loc).
Variables (xi_a yi_a xo_a yo_a : ndarray elt) (tx ty : nat).

Hypothesis fi_DataArray : read_DataArray (heap w) fi = Some x.
Hypothesis fi_chunked : read_dask (heap w) (da_data x) = Some d.
Hypothesis fi_ndim : 2 ≤ length (dk_chunks d).
Hypothesis xi_array : read_ndarray (heap w) lxi = Some xi_a.
Hypothesis yi_array : read_ndarray (heap w) lyi = Some yi_a.
Hypothesis xo_array : read_ndarray (heap w) xo = Some xo_a.
Hypothesis yo_array : read_ndarray (heap w) yo = Some yo_a.
Hypothesis xo_shape : nd_shape xo_a = [tx].
Hypothesis yo_shape : nd_shape yo_a = [ty].

(** The hidden state the graph starts from. *)
Let s0 := probed xi_a yi_a xo_a yo_a d icycx m (kstate w).

Local Hint Resolve prefix_app_r : core.

Ltac read_step lem :=
  erewrite bind_ok;
  [|eapply lem; simpl;
    eauto using read_ndarray_prefix, read_DataArray_prefix, read_dask_prefix,
      read_dtype_chunked, prefix_app_r].

(** With [meta=True], once the graph has run the call is the call of the
    constructor on the new array and the labels of [fi]. *)
Lemma linint2_run_constructor res s' :
  compute_blocks
    (dispatch (λ b, _linint2 xi_a yi_a b xo_a yo_a icycx m) d [ty] [tx])
    (probed xi_a yi_a xo_a yo_a d icycx m (kstate w)) = (Ok res, s') →
  linint2 fi xo yo icycx (Some m) true (Some lxi) (Some lyi) w
  = xr_DataArray (length (heap w) + 1)
      (map (λ kv : string * variable,
              (kv.1,
               if bool_decide (kv.1 ∉ slice_last2 (da_dims x)) then CVar kv.2
               else if bool_decide (last (da_dims x) = Some kv.1)
                    then CRaw xo else CRaw yo)) (da_coords x))
      (Some (da_dims x)) (Some (da_attrs x))
      {| heap := heap w
                 ++ [OList (setslice_last2 (dk_chunks d) [[ty]; [tx]]);
                     ONdarray res];
         kstate := s' |}.
Proof.
  intros Hc. unfold linint2.
  do 3 (erewrite bind_ok; [|reflexivity]).
  read_step get_data_read.
  read_step get_chunks_read.
  erewrite bind_ok; [|reflexivity].
  read_step get_shape_ndarray_read.
  read_step get_shape_ndarray_read.
  erewrite bind_ok; [|apply list_setslice_last2_fresh].
  read_step get_dtype_chunked.
  read_step get_ndim_chunked.
  rewrite yo_shape, xo_shape.
  erewrite bind_ok.
  2:{ eapply map_blocks_linint2_read; simpl;
        eauto using read_ndarray_prefix, read_dask_prefix, prefix_app_r,
          list_lookup_middle. }
  erewrite bind_ok; [|by erewrite compute_ok].
  read_step coords_items_read.
  read_step get_dims_read.
  read_step get_attrs_read.
  simpl. rewrite length_app, <- app_assoc. done.
Qed.

End ChunkedCheck.

(** X11.  A coordinate of [fi] under a name of its own that spans the last
    dimension is handed to the constructor as it is, beside data whose last
    extent is now the length of [xo]: when that length differs from the
    coordinate's extent, a call with [meta=True] raises ValueError, after
    the interpolation has run. *)
Theorem linint2_conflicting_coordinate
    (w : world) (fi xo yo : loc) (icycx : bool) (xmsg : option elt)
    (xi yi : option loc)
    (x : DataArray) (d : dask_array (ndarray elt)) (m : elt)
    (xi_a yi_a xo_a yo_a : ndarray elt) (tx ty : nat)
    (lead : list string) (dy dx key : string) (v : variable)
    (a : ndarray elt) (j nx : nat) :
  chunked_call dtype_default_fill (heap w) fi xo yo xmsg xi yi
    x d m xi_a yi_a xo_a yo_a tx ty →
  well_chunked d →
  kernel_shapes _linint2 xi_a yi_a xo_a yo_a icycx m →
  da_dims x = lead ++ [dy; dx] →
  NoDup (da_dims x) →
  Forall (λ kv : string * variable,
            is_Some (read_ndarray (heap w) (v_data kv.2))) (da_coords x) →
  (key, v) ∈ da_coords x →
  key ≠ dx → key ≠ dy →
  read_ndarray (heap w) (v_data v) = Some a →
  v_dims v !! j = Some dx →
  nd_shape a !! j = Some nx →
  nx ≠ tx →
  ∃ w', linint2 fi xo yo icycx xmsg true xi yi w = (Raise ValueError, w').
Proof.
  intros Hcall Hwf Hk Hdims Hnd Hread Hin Hkx Hky Ha Hj Hnx Hne.
  pose proof Hcall as [Hfi Hd Hn Hm (lxi & Hxi & Hxi_a) (lyi & Hyi & Hyi_a)
                         Hxo Hyo Hsx Hsy].
  destruct (compute_dispatch_shape
              (λ b, _linint2 xi_a yi_a b xo_a yo_a icycx m) d [ty] [tx]
              ty tx (probed xi_a yi_a xo_a yo_a d icycx m (kstate w)) Hwf Hn)
    as (res & s' & Hc & Hshape).
  { by eapply kernel_shapes_vectors. }
  rewrite (linint2_resolved _ _ _ _ _ _ _ _ _ _ _ _ Hm Hxi Hyi).
  erewrite linint2_run_constructor by done.
  set (h' := heap w ++ [OList (setslice_last2 (dk_chunks d) [[ty]; [tx]]);
                        ONdarray res]).
  assert (heap w `prefix_of` h') as Hp by (by eexists).
  assert (read_ndarray h' (length (heap w) + 1) = Some res) as Hres.
  { unfold read_ndarray, h'. by rewrite lookup_fresh. }
  eexists.
  destruct (decide (length (da_dims x) = length (nd_shape res))) as [Hlen|Hlen];
    [|by eapply xr_DataArray_dims_mismatch].
  assert (length (take (length (dk_chunks d) - 2) (dk_shape d))
          = length lead) as Hlead.
  { rewrite Hshape, Hdims, !length_app in Hlen. simpl in Hlen. lia. }
  eapply xr_DataArray_conflict
    with (a := res) (vars := map (relabel (da_dims x) xo yo) (da_coords x)).
  - done.
  - apply mapM_map_pure. intros kv.
    eapply as_variable_relabel; simpl; eauto using read_ndarray_prefix.
  - simpl. apply Forall_map. eapply Forall_impl; [exact Hread|].
    intros kv [b Hb]. unfold relabel. simpl.
    destruct (bool_decide (kv.1 ∉ slice_last2 (da_dims x)));
      [|destruct (bool_decide (last (da_dims x) = Some kv.1))]; simpl;
      eauto using read_ndarray_prefix.
  - simpl. destruct (coords_fit h' (da_dims x) (nd_shape res)
                       (map (relabel (da_dims x) xo yo) (da_coords x)))
      eqn:Hfit; [exfalso|done].
    unfold coords_fit in Hfit. rewrite forallb_forall in Hfit.
    specialize (Hfit (relabel (da_dims x) xo yo (key, v))).
    rewrite <- list_elem_of_In in Hfit.
    specialize (Hfit (list_elem_of_fmap_2 _ _ _ Hin)).
    unfold relabel in Hfit. rewrite Hdims, slice_last2_app in Hfit.
    simpl in Hfit. rewrite bool_decide_eq_true_2 in Hfit.
    2:{ intros [?|[?|?%elem_of_nil]%elem_of_cons]%elem_of_cons; done. }
    rewrite (read_ndarray_prefix _ _ _ _ Ha Hp) in Hfit.
    unfold coord_fits in Hfit.
    apply andb_true_iff in Hfit as [_ Hfit].
    rewrite forallb_forall in Hfit. specialize (Hfit (dx, nx)).
    rewrite <- list_elem_of_In in Hfit. simpl in Hfit.
    rewrite Hdims in Hnd.
    destruct (index_of_last2 lead dy dx Hnd) as [_ Hix].
    rewrite Hix in Hfit.
    assert ((dx, nx) ∈ zip (v_dims v) (nd_shape a)) as Hzip.
    { apply list_elem_of_lookup. exists j.
      apply lookup_zip_with_Some. eauto. }
    specialize (Hfit Hzip). apply bool_decide_eq_true in Hfit.
    rewrite Hshape in Hfit.
    rewrite lookup_app_r in Hfit by lia.
    rewrite Hlead, Nat.sub_succ_l, Nat.sub_diag in Hfit by lia.
    simpl in Hfit. congruence.
Qed.

(** *** Exceptions of the kernel *)


(** X6.  An exception the kernel raises leaves [linint2] as it is: when the
    kernel raises [e] on every block, so does the call on a well-chunked
    DataArray, with either value of [meta]. *)
Theorem linint2_kernel_error_propagates
    (w : world) (fi xo yo : loc) (icycx : bool) (xmsg : option elt)
    (meta : bool) (xi yi : option loc)
    (x : DataArray) (d : dask_array (ndarray elt)) (m : elt)
    (xi_a yi_a xo_a yo_a : ndarray elt) (tx ty : nat) (e : exn) :
  chunked_call dtype_default_fill (heap w) fi xo yo xmsg xi yi
    x d m xi_a yi_a xo_a yo_a tx ty →
  well_chunked d →
  (∀ b s, ∃ s', _linint2 xi_a yi_a b xo_a yo_a icycx m s = (Raise e, s')) →
  (linint2 fi xo yo icycx xmsg meta xi yi w).1 = Raise e.
Proof.
  intros Hcall Hwf Hf.
  pose proof Hcall as [_ _ Hn _ _ _ _ _ _ _].
  unfold well_chunked in Hwf.
  destruct (split_last2 (dk_chunks d) Hn) as (c1 & c2 & Hsplit).
  set (lead := take (length (dk_chunks d) - 2) (dk_chunks d)) in *.
  assert (length lead = length (dk_chunks d) - 2) as Hlead
    by (unfold lead; rewrite length_take; lia).
  rewrite Hsplit in Hwf.
  destruct (run_map_blocks_raise
              (λ b, _linint2 xi_a yi_a b xo_a yo_a icycx m) e c1 c2 lead
              Hf [] _ (probed xi_a yi_a xo_a yo_a d icycx m (kstate w)) Hwf)
    as [s' Hrun].
  eapply linint2_chunked_raise with (s' := s'); [exact Hcall|].
  unfold compute_blocks, dispatch. simpl in *.
  by rewrite <- Hlead, Hrun.
Qed.

(** *** Calls without metadata on a well-chunked input *)

(** X7.  With [meta=False] the call on a well-chunked DataArray returns a
    DataArray that has as many dimensions as [fi], named [dim_0],
    [dim_1], ..., and neither coordinates nor attributes. *)
Theorem linint2_unlabelled_result
    (w : world) (fi xo yo : loc) (icycx : bool) (xmsg : option elt)
    (xi yi : option loc)
    (x : DataArray) (d : dask_array (ndarray elt)) (m : elt)
    (xi_a yi_a xo_a yo_a : ndarray elt) (tx ty : nat) :
  chunked_call dtype_default_fill (heap w) fi xo yo xmsg xi yi
    x d m xi_a yi_a xo_a yo_a tx ty →
  well_chunked d →
  kernel_shapes _linint2 xi_a yi_a xo_a yo_a icycx m →
  ∃ r w',
    linint2 fi xo yo icycx xmsg false xi yi w = (Ok r, w')
    ∧ read_dims (heap w') r = Some (default_dims (length (dk_chunks d)))
    ∧ read_coords (heap w') r = Some []
    ∧ read_attrs (heap w') r = Some [].
Proof.
  intros Hcall Hwf Hk.
  destruct (linint2_result_labels w fi xo yo icycx xmsg false xi yi
              x d m xi_a yi_a xo_a yo_a tx ty Hcall Hwf Hk)
    as (r & w' & Hrun & _ & Hfalse); [done|].
  exists r, w'. split; [done|]. by apply Hfalse.
Qed.

End Properties.

(** ** The calls the kernel receives *)

Section Calls.

Context {elt KS : Type}.
Variable of_nat : nat → elt.
Variable dtype_default_fill : dtype → option elt.
Variable _linint2 :
  ndarray elt → ndarray elt → ndarray elt → ndarray elt → ndarray elt →
  bool → elt → task elt KS.
Variable scheduler : nat → nat.

Lemma fmap_zip_uncurry {A B C} (h : A → B → C) (l : list A) (k : list B) :
  (λ p : A * B, h p.1 p.2) <$> zip l k = zip_with h l k.
Proof.
  revert k. induction l as [|a l IH]; intros [|b k]; simpl; [done..|].
  by rewrite IH.
Qed.

Lemma fmap_Ok_inj {A} (l k : list A) :
  Ok <$> l = Ok <$> k → l = k.
Proof.
  revert k. induction l as [|a l IH]; intros [|b k] H; simplify_eq/=; [done|].
  f_equal. auto.
Qed.

Lemma chain_log {X L St} (entry : X → ndarray elt → L)
    (order : list (X * ndarray elt)) (sl sl' : St * list L) :
  chain (KS:=St * list L) (λ x r sl sl', sl'.2 = sl.2 ++ [entry x r])
    order sl sl' →
  sl'.2 = sl.2 ++ ((λ p : X * ndarray elt, entry p.1 p.2) <$> order).
Proof.
  revert sl. induction order as [|[x r] order IH]; intros sl; simpl.
  - intros ->. by rewrite app_nil_r.
  - intros (s1 & H1 & Hch). rewrite (IH _ Hch), H1.
    by rewrite <- app_assoc.
Qed.

Lemma chain_count {X St} (order : list (X * ndarray elt))
    (sc sc' : St * nat) :
  chain (KS:=St * nat) (λ _ _ sc sc', sc'.2 = S sc.2) order sc sc' →
  sc'.2 = sc.2 + length order.
Proof.
  revert sc. induction order as [|[x r] order IH]; intros sc; simpl.
  - intros ->. lia.
  - intros (s1 & H1 & Hch). rewrite (IH _ Hch), H1. lia.
Qed.

Lemma linint2_recorded
    (w : world elt (KS * list (kernel_call elt))) (fi xo yo : loc)
    (icycx : bool) (xmsg : option elt) (meta : bool) (xi yi : option loc)
    (x : DataArray) (d : dask_array (ndarray elt)) (m : elt)
    (xi_a yi_a xo_a yo_a : ndarray elt) (tx ty : nat) :
  chunked_call dtype_default_fill (heap w) fi xo yo xmsg xi yi
    x d m xi_a yi_a xo_a yo_a tx ty →
  well_chunked d →
  kernel_shapes _linint2 xi_a yi_a xo_a yo_a icycx m →
  (meta = true →
   labels_fit (heap w) x xo yo
     (take (length (dk_chunks d) - 2) (dk_shape d) ++ [ty; tx])) →
  ∃ w' res joined outs g' po calls dims coords dict,
    linint2 of_nat dtype_default_fill (recording _linint2) scheduler
      fi xo yo icycx xmsg meta xi yi w = (Ok (length (heap w) + 3), w')
    ∧ heap w'
      = heap w ++ [OList (setslice_last2 (dk_chunks d) [[ty]; [tx]]);
                   ONdarray res; ODict dict;
                   ODataArray {| da_data := length (heap w) + 1;
                                 da_dims := dims; da_coords := coords;
                                 da_attrs := length (heap w) + 2 |}]
    ∧ nd_shape res = take (length (dk_chunks d) - 2) (dk_shape d) ++ [ty; tx]
    ∧ lead_blocks (length (dk_chunks d) - 2) 0 (dk_blocks d) = Ok <$> joined
    ∧ joined ≠ []
    ∧ length joined
      = product (map length (take (length (dk_chunks d) - 2) (dk_chunks d)))
    ∧ length outs = length joined
    ∧ refill (dk_blocks
                (dispatch (λ b, recording _linint2 xi_a yi_a b xo_a yo_a
                                  icycx m) d [ty] [tx])) outs
      = Some (g', [])
    ∧ concatenate3 0 g' = Ok res
    ∧ (kstate w').2
      = (kstate w).2 ++ probe_call xi_a yi_a xo_a yo_a d icycx m po :: calls
    ∧ calls ≡ₚ zip_with (block_call xi_a yi_a xo_a yo_a icycx m) joined outs.
Proof.
  intros Hcall Hwf Hk Hlab.
  pose proof Hcall as [_ _ Hn _ _ _ _ _ Hsx Hsy].
  pose proof (kernel_shapes_vectors _ _ _ _ _ _ _ _ _ Hk Hsx Hsy) as Hf.
  set (f := λ b, recording _linint2 xi_a yi_a b xo_a yo_a icycx m).
  set (s0 := probed (recording _linint2) xi_a yi_a xo_a yo_a d icycx m
               (kstate w)).
  destruct (compute_dispatch_chain scheduler f
              (λ b r sl sl',
                 sl'.2 = sl.2 ++ [block_call xi_a yi_a xo_a yo_a icycx m b r])
              d [ty] [tx] ty tx s0 Hwf Hn)
    as (res & s' & joined & outs & order & g' & Hc & Hshape & Hj & Hne & Hcount
        & Hlen & Hre & Hcat & Hperm & Hch).
  { intros b sl Hb. destruct (Hf b sl.1 Hb) as (r & s1 & Hr & Hs).
    exists r, (s1, sl.2 ++ [block_call xi_a yi_a xo_a yo_a icycx m b r]).
    unfold f, recording. by rewrite Hr. }
  destruct (linint2_chunked_run of_nat dtype_default_fill
              (recording _linint2) scheduler w fi xo yo icycx xmsg meta xi yi
              x d m xi_a yi_a xo_a yo_a tx ty res s' Hcall Hc)
    as (dims & coords & dict & Hrun & _).
  { intros Hm. rewrite Hshape. by apply Hlab. }
  apply chain_log in Hch.
  destruct (_linint2 (meta_from_array xi_a) (meta_from_array yi_a)
              (dask_meta d) (meta_from_array xo_a) (meta_from_array yo_a)
              icycx m (kstate w).1) as [po sp] eqn:Hprobe.
  assert (s0.2 = (kstate w).2
                 ++ [probe_call xi_a yi_a xo_a yo_a d icycx m po]) as Hs0.
  { unfold s0, probed, probe, recording. by rewrite Hprobe. }
  eexists _, res, joined, outs, g', po, _, dims, coords, dict.
  split; [exact Hrun|]. simpl.
  repeat (split; [done|]). split.
  - rewrite Hch, Hs0, <- app_assoc. done.
  - rewrite Hperm. by rewrite fmap_zip_uncurry.
Qed.

(** C4. Chunked execution.  On a well-chunked DataArray (with
    [meta=True]: one whose labels fit the interpolated data) the chunk
    list declared for the output is that of [fi] with the last two entries
    replaced by the lengths of [yo] and [xo]; dask probes the kernel once
    on empty arrays, and then the kernel is called exactly once for every
    block of the leading axes, on the chunks of that block joined along
    the last two axes, with [xi], [yi], [xo], [yo], [icycx] and [xmsg] as
    they are; the array returned has as many dimensions as [fi], the last
    two of sizes [len (yo)] and [len (xo)] (and the leading ones those of
    [fi]). *)
Theorem linint2_chunked_dispatch
    (w : world elt (KS * list (kernel_call elt))) (fi xo yo : loc)
    (icycx : bool) (xmsg : option elt) (meta : bool) (xi yi : option loc)
    (x : DataArray) (d : dask_array (ndarray elt)) (m : elt)
    (xi_a yi_a xo_a yo_a : ndarray elt) (tx ty : nat) :
  chunked_call dtype_default_fill (heap w) fi xo yo xmsg xi yi
    x d m xi_a yi_a xo_a yo_a tx ty →
  well_chunked d →
  kernel_shapes _linint2 xi_a yi_a xo_a yo_a icycx m →
  (meta = true →
   labels_fit (heap w) x xo yo
     (take (length (dk_chunks d) - 2) (dk_shape d) ++ [ty; tx])) →
  ∃ r w' res joined outs po calls,
    linint2 of_nat dtype_default_fill (recording _linint2) scheduler
      fi xo yo icycx xmsg meta xi yi w = (Ok r, w')
    ∧ heap w' !! length (heap w)
      = Some (OList (take (length (dk_chunks d) - 2) (dk_chunks d)
                     ++ [[ty]; [tx]]))
    ∧ lead_blocks (length (dk_chunks d) - 2) 0 (dk_blocks d) = Ok <$> joined
    ∧ length joined
      = product (map length (take (length (dk_chunks d) - 2) (dk_chunks d)))
    ∧ length outs = length joined
    ∧ (kstate w').2
      = (kstate w).2 ++ probe_call xi_a yi_a xo_a yo_a d icycx m po :: calls
    ∧ calls ≡ₚ zip_with (block_call xi_a yi_a xo_a yo_a icycx m) joined outs
    ∧ read_data (heap w') r = Some res
    ∧ length (nd_shape res) = length (dk_shape d)
    ∧ nd_shape res
      = take (length (dk_chunks d) - 2) (dk_shape d) ++ [ty; tx].
Proof.
  intros Hcall Hwf Hk Hlab.
  pose proof Hcall as [_ _ Hn _ _ _ _ _ _ _].
  destruct (linint2_recorded w fi xo yo icycx xmsg meta xi yi x d m
              xi_a yi_a xo_a yo_a tx ty Hcall Hwf Hk Hlab)
    as (w' & res & joined & outs & g' & po & calls & dims & coords & dict
        & Hrun & Hheap & Hshape & Hj & _ & Hcount & Hlen & _ & _ & Hlog
        & Hperm).
  destruct (returned_DataArray_reads (heap w)
              (setslice_last2 (dk_chunks d) [[ty]; [tx]]) res dict dims coords)
    as (Hlist & Hdata & _).
  rewrite <- Hheap in Hlist, Hdata.
  exists (length (heap w) + 3), w', res, joined, outs, po, calls.
  repeat (split; [done|]). split.
  - rewrite Hshape, length_app, length_take. simpl.
    unfold dk_shape. rewrite length_map. lia.
  - done.
Qed.

(** C3. [linint2] does no interpolation of its own.  On a well-chunked
    DataArray with one chunk along each of the last two axes (with
    [meta=True]: one whose labels fit the interpolated data), the kernel
    [_ncomp._linint2] is called, after dask's probe on empty arrays,
    exactly once on every chunk of [fi], with
    [(xi, yi, chunk, xo, yo, icycx, xmsg)], and the data of the result is
    what those calls returned, put in the places of the chunks and
    concatenated. *)
Theorem linint2_is_blockwise_kernel
    (w : world elt (KS * list (kernel_call elt))) (fi xo yo : loc)
    (icycx : bool) (xmsg : option elt) (meta : bool) (xi yi : option loc)
    (x : DataArray) (d : dask_array (ndarray elt)) (m : elt)
    (xi_a yi_a xo_a yo_a : ndarray elt) (tx ty : nat) :
  chunked_call dtype_default_fill (heap w) fi xo yo xmsg xi yi
    x d m xi_a yi_a xo_a yo_a tx ty →
  well_chunked d → unchunked_last2 d →
  kernel_shapes _linint2 xi_a yi_a xo_a yo_a icycx m →
  (meta = true →
   labels_fit (heap w) x xo yo
     (take (length (dk_chunks d) - 2) (dk_shape d) ++ [ty; tx])) →
  ∃ r w' res outs g' po calls,
    linint2 of_nat dtype_default_fill (recording _linint2) scheduler
      fi xo yo icycx xmsg meta xi yi w = (Ok r, w')
    ∧ (kstate w').2
      = (kstate w).2 ++ probe_call xi_a yi_a xo_a yo_a d icycx m po :: calls
    ∧ calls ≡ₚ zip_with (block_call xi_a yi_a xo_a yo_a icycx m)
                 (blocks_of (dk_blocks d)) outs
    ∧ length outs = length (blocks_of (dk_blocks d))
    ∧ refill (dk_blocks d) outs = Some (g', [])
    ∧ concatenate3 0 g' = Ok res
    ∧ read_data (heap w') r = Some res.
Proof.
  intros Hcall Hwf Hun Hk Hlab.
  pose proof Hcall as [_ _ Hn _ _ _ _ _ _ _].
  destruct (linint2_recorded w fi xo yo icycx xmsg meta xi yi x d m
              xi_a yi_a xo_a yo_a tx ty Hcall Hwf Hk Hlab)
    as (w' & res & joined & outs & g' & po & calls & dims & coords & dict
        & Hrun & Hheap & Hshape & Hj & _ & Hcount & Hlen & Hre & Hcat & Hlog
        & Hperm).
  destruct (returned_DataArray_reads (heap w)
              (setslice_last2 (dk_chunks d) [[ty]; [tx]]) res dict dims coords)
    as (_ & Hdata & _).
  rewrite <- Hheap in Hdata.
  (* one chunk along each of the last two axes *)
  unfold well_chunked in Hwf. unfold unchunked_last2 in Hun.
  destruct (split_last2 (dk_chunks d) Hn) as (c1 & c2 & Hsplit).
  set (lead := take (length (dk_chunks d) - 2) (dk_chunks d)) in *.
  assert (length lead = length (dk_chunks d) - 2) as Hlead
    by (unfold lead; rewrite length_take; lia).
  assert (slice_last2 (dk_chunks d) = [c1; c2]) as Hlast.
  { unfold slice_last2. rewrite Hsplit at 2.
    apply drop_app_length'. lia. }
  rewrite Hlast in Hun.
  apply Forall_cons in Hun as [H1 Hun]. apply Forall_cons in Hun as [H2 _].
  destruct c1 as [|n1 [|]]; try done. destruct c2 as [|n2 [|]]; try done.
  rewrite Hsplit in Hwf.
  pose proof (lead_blocks_unchunked n1 n2 lead [] _ Hwf) as Hlb.
  simpl in Hlb. rewrite Hlead, Hj in Hlb.
  apply fmap_Ok_inj in Hlb. subst joined.
  pose proof (refill_unchunked
                (λ b, recording _linint2 xi_a yi_a b xo_a yo_a icycx m)
                n1 n2 lead [] _ outs Hwf) as Hru.
  simpl in Hru. rewrite Hlead in Hru.
  unfold dispatch in Hre. simpl in Hre. rewrite Hru in Hre.
  rewrite (refill_grid_map _ _ _ _ _ Hwf) in Hre.
  exists (length (heap w) + 3), w', res, outs, g', po, calls.
  by repeat (split; [done|]).
Qed.


(** X5.  On a well-chunked DataArray of [n] dimensions the kernel is called
    once by dask's probe and then once for every block of the first
    [n - 2] axes, whatever [meta] is and whether or not the labels of the
    result are accepted. *)
Theorem linint2_kernel_calls
    (w : world elt (KS * nat)) (fi xo yo : loc) (icycx : bool)
    (xmsg : option elt) (meta : bool) (xi yi : option loc)
    (x : DataArray) (d : dask_array (ndarray elt)) (m : elt)
    (xi_a yi_a xo_a yo_a : ndarray elt) (tx ty : nat) :
  chunked_call dtype_default_fill (heap w) fi xo yo xmsg xi yi
    x d m xi_a yi_a xo_a yo_a tx ty →
  well_chunked d →
  kernel_shapes _linint2 xi_a yi_a xo_a yo_a icycx m →
  (kstate (linint2 of_nat dtype_default_fill (counting_kernel _linint2)
             scheduler fi xo yo icycx xmsg meta xi yi w).2).2
  = (kstate w).2
    + S (product (map length
                    (take (length (dk_chunks d) - 2) (dk_chunks d)))).
Proof.
  intros Hcall Hwf Hk.
  pose proof Hcall as [Hfi Hd Hn Hm (lxi & Hxi & Hxi_a) (lyi & Hyi & Hyi_a)
                         Hxo Hyo Hsx Hsy].
  pose proof (kernel_shapes_vectors _ _ _ _ _ _ _ _ _ Hk Hsx Hsy) as Hf.
  set (s0 := probed (counting_kernel _linint2) xi_a yi_a xo_a yo_a d icycx m
               (kstate w)).
  destruct (compute_dispatch_chain scheduler
              (counting (λ b, _linint2 xi_a yi_a b xo_a yo_a icycx m))
              (λ _ _ sc sc', sc'.2 = S sc.2)
              d [ty] [tx] ty tx s0 Hwf Hn)
    as (res & s' & joined & outs & order & g' & Hc & Hshape & Hj & Hne & Hcount
        & Hlen & Hre & Hcat & Hperm & Hch).
  { intros b sc Hb. destruct (Hf b sc.1 Hb) as (r & s1 & Hr & Hs).
    exists r, (s1, S sc.2). unfold counting. by rewrite Hr. }
  apply chain_count in Hch.
  assert (s0.2 = S (kstate w).2) as Hs0.
  { unfold s0, probed, probe, counting_kernel, counting.
    by destruct (_linint2 _ _ _ _ _ _ _ _). }
  assert (length order = length joined) as Hord.
  { rewrite Hperm, length_zip_with. lia. }
  assert (s'.2 = (kstate w).2
                 + S (product (map length
                                 (take (length (dk_chunks d) - 2)
                                    (dk_chunks d))))) as Hs'.
  { rewrite Hch, Hs0, Hord, Hcount. lia. }
  rewrite (linint2_resolved _ _ _ _ _ _ _ _ _ _ _ _ _ _ _ _ Hm Hxi Hyi).
  destruct meta.
  - erewrite linint2_run_constructor; [|done..|exact Hc].
    by rewrite quiet_xr_DataArray.
  - erewrite linint2_run_unlabelled; [|done..|exact Hc]. done.
Qed.

End Calls.

(** ** The properties on the example *)

Section Checks.

Import Example.
Local Open Scope string_scope.
Local Open Scope list_scope.
Local Open Scope nat_scope.

(** C1. The names the package offers for import.  [linint2] can be
    imported from [geocat.comp]; [eofunc_eofs], [eofunc_pcs], [eofunc] and
    [eofunc_ts], which the tests import, are bound by no statement of
    [__init__.py], and importing them raises ImportError. *)
Theorem import_from_package :
  Package.import_from "linint2" = Ok tt
  ∧ Package.import_from "eofunc_eofs" = Raise ImportError
  ∧ Package.import_from "eofunc_pcs" = Raise ImportError
  ∧ Package.import_from "eofunc" = Raise ImportError
  ∧ Package.import_from "eofunc_ts" = Raise ImportError.
Proof. repeat split; vm_compute; reflexivity. Qed.

(** C5. A call whose input is a plain numpy array returns no DataArray:
    with [xi] and [yi] given it raises AttributeError at [fi.chunks],
    without them at [fi.coords], with either value of [meta]; and on a
    DataArray held in memory it raises TypeError. *)
Theorem linint2_numpy_input_raises :
  (∀ meta,
     run fi_numpy xo yo false (Some 0) meta (Some lon) (Some lat) world0
     = (Raise AttributeError, world0))
  ∧ (∀ meta,
       run fi_numpy xo yo false None meta None None world0
       = (Raise AttributeError, world0))
  ∧ (∀ meta,
       run fi_unchunked xo yo false None meta None None world0
       = (Raise TypeError, world0)).
Proof. repeat split; intros []; vm_compute; reflexivity. Qed.

(** The example meets the assumptions of the theorems. *)

Lemma example_kernel_deterministic : kernel_deterministic kernel.
Proof. intros xi yi fi xo yo icycx xmsg s s'. reflexivity. Defined.

Lemma example_kernel_shapes xi yi xo yo icycx m :
  kernel_shapes kernel xi yi xo yo icycx m.
Proof. intros b s _. eexists _, _. split; reflexivity. Defined.

Lemma example_chunked_call :
  chunked_call fill heap0 fi xo yo None None None labelled chunked 99
    (vec [0; 1; 2]) (vec [0; 1]) (vec [0; 1; 2; 3]) (vec [0; 2; 4]) 4 3.
Proof.
  split; try reflexivity.
  - simpl. lia.
  - exists lon. split; reflexivity.
  - exists lat. split; reflexivity.
Defined.

Lemma example_labels_fit : labels_fit heap0 labelled xo yo [2; 3; 4].
Proof.
  split; [reflexivity|]. split; [|reflexivity].
  exists [("units", "K")]. reflexivity.
Defined.

Lemma linint2_preserves_metadata_witness :
  ∃ r w' rcs,
    run fi xo yo false None true None None world0 = (Ok r, w')
    ∧ read_attrs (heap w') r = Some [("units", "K")]
    ∧ read_dims (heap w') r = read_dims heap0 fi
    ∧ read_coords (heap w') r = Some rcs
    ∧ map fst rcs = ["time"; "lat"; "lon"]
    ∧ (∀ k c, k ≠ "lon" → k ≠ "lat" →
         assoc k [("time", (["time"], vec [10; 20]));
                  ("lat", (["lat"], vec [0; 1]));
                  ("lon", (["lon"], vec [0; 1; 2]))] = Some c →
         assoc k rcs = Some c)
    ∧ assoc "lon" rcs = Some (["lon"], vec [0; 1; 2; 3])
    ∧ assoc "lat" rcs = Some (["lat"], vec [0; 2; 4]).
Proof.
  apply (linint2_preserves_metadata id fill kernel sched world0 fi xo yo false None
           None None labelled chunked 99 (vec [0; 1; 2]) (vec [0; 1])
           (vec [0; 1; 2; 3]) (vec [0; 2; 4]) 4 3 ["time"] "lat" "lon"
           [("time", (["time"], vec [10; 20]));
            ("lat", (["lat"], vec [0; 1]));
            ("lon", (["lon"], vec [0; 1; 2]))]
           [("units", "K")]).
  - exact example_chunked_call.
  - reflexivity.
  - apply example_kernel_shapes.
  - reflexivity.
  - discriminate.
  - reflexivity.
  - eexists. reflexivity.
  - eexists. reflexivity.
  - reflexivity.
  - exact example_labels_fit.
Defined.

Lemma linint2_is_blockwise_kernel_witness :
  ∃ r w' res outs g' po calls,
    linint2 id fill (recording kernel) sched fi xo yo false None true None
      None logged0 = (Ok r, w')
    ∧ (kstate w').2
      = (kstate logged0).2
        ++ probe_call (vec [0; 1; 2]) (vec [0; 1]) (vec [0; 1; 2; 3])
             (vec [0; 2; 4]) chunked false 99 po :: calls
    ∧ calls ≡ₚ zip_with (block_call (vec [0; 1; 2]) (vec [0; 1])
                           (vec [0; 1; 2; 3]) (vec [0; 2; 4]) false 99)
                 (blocks_of (dk_blocks chunked)) outs
    ∧ length outs = length (blocks_of (dk_blocks chunked))
    ∧ refill (dk_blocks chunked) outs = Some (g', [])
    ∧ concatenate3 0 g' = Ok res
    ∧ read_data (heap w') r = Some res.
Proof.
  apply (linint2_is_blockwise_kernel id fill kernel sched logged0 fi xo yo
           false None true None None labelled chunked 99 (vec [0; 1; 2])
           (vec [0; 1]) (vec [0; 1; 2; 3]) (vec [0; 2; 4]) 4 3).
  - exact example_chunked_call.
  - reflexivity.
  - repeat constructor.
  - apply example_kernel_shapes.
  - intros _. exact example_labels_fit.
Defined.

(** C3 fails on an input with two chunks along each of its last two axes:
    the data of the result is not the kernel applied to every chunk of
    [fi], the results put together. *)
Lemma linint2_is_blockwise_kernel_counterexample :
  read_DataArray heap2 fi_tiled = Some tiled
  ∧ read_dask heap2 tiled_data = Some tiled_chunks
  ∧ well_chunked tiled_chunks
  ∧ (run fi_tiled xo yo false None false None None world2).1 = Ok 22
  ∧ read_data (heap (run fi_tiled xo yo false None false None None world2).2)
      22 = Some result_tiled
  ∧ (blockwise sched
       (λ b, kernel (vec [0; 1; 2]) (vec [0; 1]) b (vec [0; 1; 2; 3])
               (vec [0; 2; 4]) false 99) tiled_chunks 1).1
    = Ok chunkwise_tiled
  ∧ result_tiled ≠ chunkwise_tiled.
Proof.
  repeat split; try (vm_compute; reflexivity). discriminate.
Qed.

Lemma linint2_chunked_dispatch_witness :
  ∃ r w' res joined outs po calls,
    linint2 id fill (recording kernel) sched fi xo yo false None false None
      None logged0 = (Ok r, w')
    ∧ heap w' !! length (heap logged0)
      = Some (OList (take (length (dk_chunks chunked) - 2) (dk_chunks chunked)
                     ++ [[3]; [4]]))
    ∧ lead_blocks (length (dk_chunks chunked) - 2) 0 (dk_blocks chunked)
      = Ok <$> joined
    ∧ length joined
      = product (map length (take (length (dk_chunks chunked) - 2)
                               (dk_chunks chunked)))
    ∧ length outs = length joined
    ∧ (kstate w').2
      = (kstate logged0).2
        ++ probe_call (vec [0; 1; 2]) (vec [0; 1]) (vec [0; 1; 2; 3])
             (vec [0; 2; 4]) chunked false 99 po :: calls
    ∧ calls ≡ₚ zip_with (block_call (vec [0; 1; 2]) (vec [0; 1])
                           (vec [0; 1; 2; 3]) (vec [0; 2; 4]) false 99)
                 joined outs
    ∧ read_data (heap w') r = Some res
    ∧ length (nd_shape res) = length (dk_shape chunked)
    ∧ nd_shape res
      = take (length (dk_chunks chunked) - 2) (dk_shape chunked) ++ [3; 4].
Proof.
  apply (linint2_chunked_dispatch id fill kernel sched logged0 fi xo yo false
           None false None None labelled chunked 99 (vec [0; 1; 2])
           (vec [0; 1]) (vec [0; 1; 2; 3]) (vec [0; 2; 4]) 4 3).
  - exact example_chunked_call.
  - reflexivity.
  - apply example_kernel_shapes.
  - discriminate.
Defined.

(** C4 fails on an input of four chunks, two along each of the last two
    axes: beside dask's probe the kernel is called once, on the four
    chunks joined, and on no chunk of [fi]. *)
Lemma linint2_chunked_dispatch_counterexample :
  let out := linint2 id fill (recording kernel) sched fi_tiled xo yo false
               None false None None logged2 in
  read_dask heap2 tiled_data = Some tiled_chunks
  ∧ blocks_of (dk_blocks tiled_chunks)
    = [tile [1; 2] [1; 2]; tile [1; 1] [3]; tile [1; 2] [4; 5];
       tile [1; 1] [6]]
  ∧ out.1 = Ok 22
  ∧ map kc_fi (kstate out.2).2 = [dask_meta tiled_chunks; plain]
  ∧ plain ∉ blocks_of (dk_blocks tiled_chunks).
Proof.
  repeat split; try (vm_compute; reflexivity).
  vm_compute. intros H.
  repeat (apply elem_of_cons in H as [H|H]; [discriminate|]).
  by apply elem_of_nil in H.
Qed.

(** C2. Metadata of a DataArray with a coordinate over the interpolated
    dimensions.  [fi_curvilinear] is a chunked DataArray with coordinates
    [lat] and [lon] on its two rightmost dimensions and a further
    coordinate [xc] that spans them.  With [meta=True] the call computes
    the interpolated array and then raises ValueError: no DataArray is
    returned and no metadata is kept.  With [meta=False] the same call
    returns. *)
Theorem linint2_metadata_not_preserved :
  read_DataArray heap1 fi_curvilinear = Some curvilinear
  ∧ read_dask heap1 (da_data curvilinear) = Some chunked
  ∧ map fst (da_coords curvilinear) = ["time"; "lat"; "lon"; "xc"]
  ∧ run fi_curvilinear xo yo false None true None None world1
    = (Raise ValueError,
       {| heap := heap1 ++ [OList [[1; 1]; [3]; [4]]; ONdarray result];
          kstate := 3 |})
  ∧ (run fi_curvilinear xo yo false None false None None world1).1 = Ok 20.
Proof. repeat split; vm_compute; reflexivity. Qed.

Lemma example_closed_heap : closed_heap heap0.
Proof. repeat (constructor; simpl; try lia). Defined.

Lemma linint2_stateless_deterministic_witness :
  let call := run fi xo yo false None true None None in
  same_outcome (call world0) (call (call world0).2)
  ∧ ∀ w', heap0 `prefix_of` heap w' → same_outcome (call world0) (call w').
Proof.
  apply (linint2_stateless_deterministic id fill kernel sched world0 fi xo yo false
           None true None None).
  - exact example_kernel_deterministic.
  - exact example_closed_heap.
  - simpl. unfold fi. lia.
  - simpl. unfold xo. lia.
  - simpl. unfold yo. lia.
  - discriminate.
  - discriminate.
Defined.

Lemma linint2_requires_chunked_DataArray_witness :
  (∃ e, (run fi_numpy xo yo false None true None None world0).1 = Raise e
        ∧ (e = AttributeError ∨ e = KeyError))
  ∧ (∃ e, (run fi_unchunked xo yo false None true None None world0).1
          = Raise e)
  ∧ get_chunks fi_unchunked world0 = (Ok None, world0)
  ∧ run fi_unchunked xo yo false (Some 0) true (Some lon) (Some lat) world0
    = (Raise TypeError, world0).
Proof.
  destruct (linint2_requires_chunked_DataArray id fill kernel sched world0 fi_numpy
              xo yo false None true None None) as [Hnumpy _].
  destruct (linint2_requires_chunked_DataArray id fill kernel sched world0
              fi_unchunked xo yo false None true None None) as [_ Hmem].
  destruct (Hnumpy plain) as [Hraise _]; [reflexivity|].
  destruct (Hmem unchunked plain)
    as (Hraise' & Hchunks & Hexplicit); [reflexivity..|].
  split.
  { destruct Hraise as (e & He & [Ha|[_ Hk]]); exists e; auto. }
  split; [exact Hraise'|]. split; [exact Hchunks|].
  apply Hexplicit.
Defined.


Lemma linint2_leaves_arguments_unchanged_witness :
  let r := run fi xo yo false None true None None world0 in
  (∀ l o, heap0 !! l = Some o → heap r.2 !! l = Some o)
  ∧ (∀ res, r.1 = Ok res →
       heap0 !! res = None
       ∧ ∃ x, heap r.2 !! res = Some (ODataArray x)
              ∧ heap0 !! da_data x = None).
Proof.
  apply (linint2_leaves_arguments_unchanged id fill kernel sched world0 fi xo yo
           false None true None None).
Defined.

End Checks.

(** ** Edge cases on the example *)

Section EdgeChecks.

Import Example.
Local Open Scope string_scope.
Local Open Scope list_scope.
Local Open Scope nat_scope.

Lemma linint2_missing_fill_raises_witness :
  run fi_int xo yo false None true None None world1
  = (Raise KeyError, world1).
Proof.
  apply (linint2_missing_fill_raises id fill kernel sched world1 fi_int xo yo false
           true None None "int64"); reflexivity.
Defined.

Lemma linint2_too_few_dimensions_witness :
  run fi_scalar xo yo false None true None None world1
  = (Raise IndexError, world1)
  ∧ run fi_line xo yo false None true (Some lon) None world1
    = (Raise IndexError, world1).
Proof.
  split.
  - destruct (linint2_too_few_dimensions id fill kernel sched world1 fi_scalar xo yo
                false None true scalar 99) as [Hxi _]; [reflexivity..|].
    apply Hxi. reflexivity.
  - destruct (linint2_too_few_dimensions id fill kernel sched world1 fi_line xo yo
                false None true line 99) as [_ Hyi]; [reflexivity..|].
    apply Hyi. simpl. lia.
Defined.

Lemma linint2_default_index_witness :
  (∀ meta yi,
     run fi_int xo yo false (Some 0) meta None yi world1
     = run fi_int xo yo false (Some 0) meta (Some 17) yi
         {| heap := heap1 ++ [ONdarray (arange id 3)]; kstate := 0 |})
  ∧ (∀ meta,
       run fi_int xo yo false (Some 0) meta (Some lon) None world1
       = run fi_int xo yo false (Some 0) meta (Some lon) (Some 17)
           {| heap := heap1 ++ [ONdarray (arange id 2)]; kstate := 0 |}).
Proof.
  split.
  - intros meta yi.
    destruct (linint2_default_index id fill kernel sched world1 fi_int xo yo false
                (Some 0) meta bare chunked_int 0) as [Hxi _]; [reflexivity..|].
    apply (Hxi "lon" 1 3 yi); reflexivity.
  - intros meta.
    destruct (linint2_default_index id fill kernel sched world1 fi_int xo yo false
                (Some 0) meta bare chunked_int 0) as [_ Hyi]; [reflexivity..|].
    apply (Hyi "lat" 0 2 lon); (reflexivity || (simpl; lia)).
Defined.

Lemma linint2_kernel_not_called_witness :
  kstate (run fi_numpy xo yo false None true None None world0).2 = 0
  ∧ kstate (run fi_unchunked xo yo false None true None None world0).2 = 0.
Proof.
  split.
  - apply (linint2_kernel_not_called id fill kernel sched world0 fi_numpy xo yo
             false None true None None).
    left. exists plain. reflexivity.
  - apply (linint2_kernel_not_called id fill kernel sched world0 fi_unchunked xo yo
             false None true None None).
    right. exists unchunked, plain. split; reflexivity.
Defined.

Lemma linint2_coordinate_names_witness :
  ∃ r w' x',
    run fi xo yo false None true None None world0 = (Ok r, w')
    ∧ read_DataArray (heap w') r = Some x'
    ∧ map fst (da_coords x') = ["time"; "lat"; "lon"]
    ∧ ∀ key, assoc key (da_coords labelled) = None
             ↔ assoc key (da_coords x') = None.
Proof.
  apply (linint2_coordinate_names id fill kernel sched world0 fi xo yo false None
           None None labelled chunked 99 (vec [0; 1; 2]) (vec [0; 1])
           (vec [0; 1; 2; 3]) (vec [0; 2; 4]) 4 3).
  - exact example_chunked_call.
  - reflexivity.
  - apply example_kernel_shapes.
  - exact example_labels_fit.
Defined.

Lemma example_renamed_call :
  chunked_call fill heap1 fi_renamed xo yo (Some 99) (Some lon) (Some lat)
    renamed chunked 99
    (vec [0; 1; 2]) (vec [0; 1]) (vec [0; 1; 2; 3]) (vec [0; 2; 4]) 4 3.
Proof.
  split; try reflexivity.
  - simpl. lia.
  - exists lon. split; reflexivity.
  - exists lat. split; reflexivity.
Defined.

Lemma linint2_unlabelled_ignores_labels_witness :
  same_outcome
    (run fi xo yo false None false None None world0)
    (run fi_renamed xo yo false (Some 99) false (Some lon) (Some lat) world1).
Proof.
  apply (linint2_unlabelled_ignores_labels id fill kernel sched world0 world1
           fi xo yo fi_renamed xo yo false None (Some 99) None None
           (Some lon) (Some lat) labelled renamed chunked 99
           (vec [0; 1; 2]) (vec [0; 1]) (vec [0; 1; 2; 3]) (vec [0; 2; 4])
           4 3).
  - exact example_chunked_call.
  - exact example_renamed_call.
  - reflexivity.
Defined.

Lemma example_labelled_input :
  labelled_input heap0 labelled chunked ["time"] "lat" "lon".
Proof.
  split; [reflexivity|]. split.
  { apply (bool_decide_unpack _). vm_compute. reflexivity. }
  split; [reflexivity|]. split.
  { exists [("units", "K")]. reflexivity. }
  constructor; [|constructor; [|constructor; [|constructor]]].
  - right. right. exists (vec [10; 20]).
    split; [reflexivity|]. split; [reflexivity|].
    split; apply (bool_decide_unpack _); vm_compute; reflexivity.
  - right. left. reflexivity.
  - left. reflexivity.
Defined.

Lemma linint2_labelled_input_returns_witness :
  ∃ r w',
    run fi xo yo false None true None None world0 = (Ok r, w')
    ∧ read_dims (heap w') r = Some ["time"; "lat"; "lon"]
    ∧ read_attrs (heap w') r = Some [("units", "K")].
Proof.
  apply (linint2_labelled_input_returns id fill kernel sched world0 fi xo yo false
           None None None labelled chunked 99 (vec [0; 1; 2]) (vec [0; 1])
           (vec [0; 1; 2; 3]) (vec [0; 2; 4]) 4 3 ["time"] "lat" "lon").
  - exact example_chunked_call.
  - reflexivity.
  - apply example_kernel_shapes.
  - exact example_labelled_input.
Defined.

Lemma example_curvilinear_call :
  chunked_call fill heap1 fi_curvilinear xo yo None None None
    curvilinear chunked 99
    (vec [0; 1; 2]) (vec [0; 1]) (vec [0; 1; 2; 3]) (vec [0; 2; 4]) 4 3.
Proof.
  split; try reflexivity.
  - simpl. lia.
  - exists lon. split; reflexivity.
  - exists lat. split; reflexivity.
Defined.

Lemma linint2_conflicting_coordinate_witness :
  ∃ w', run fi_curvilinear xo yo false None true None None world1
        = (Raise ValueError, w').
Proof.
  apply (linint2_conflicting_coordinate id fill kernel sched world1 fi_curvilinear
           xo yo false None None None curvilinear chunked 99
           (vec [0; 1; 2]) (vec [0; 1]) (vec [0; 1; 2; 3]) (vec [0; 2; 4])
           4 3 ["time"] "lat" "lon" "xc"
           {| v_dims := ["lat"; "lon"]; v_data := fi_numpy |} plain 1 3).
  - exact example_curvilinear_call.
  - reflexivity.
  - apply example_kernel_shapes.
  - reflexivity.
  - apply (bool_decide_unpack _). vm_compute. reflexivity.
  - repeat constructor; eexists; reflexivity.
  - apply (list_elem_of_lookup_2 _ 3). reflexivity.
  - discriminate.
  - discriminate.
  - reflexivity.
  - reflexivity.
  - reflexivity.
  - lia.
Defined.

Lemma linint2_kernel_error_propagates_witness :
  (linint2 id fill refusing sched fi xo yo false None true None None world0).1
  = Raise ValueError.
Proof.
  apply (linint2_kernel_error_propagates id fill refusing sched world0 fi xo yo
           false None true None None labelled chunked 99 (vec [0; 1; 2])
           (vec [0; 1]) (vec [0; 1; 2; 3]) (vec [0; 2; 4]) 4 3 ValueError).
  - exact example_chunked_call.
  - reflexivity.
  - intros b s. eexists. reflexivity.
Defined.

Lemma linint2_unlabelled_result_witness :
  ∃ r w',
    run fi xo yo false None false None None world0 = (Ok r, w')
    ∧ read_dims (heap w') r = Some ["dim_0"; "dim_1"; "dim_2"]
    ∧ read_coords (heap w') r = Some []
    ∧ read_attrs (heap w') r = Some [].
Proof.
  apply (linint2_unlabelled_result id fill kernel sched world0 fi xo yo false None
           None None labelled chunked 99 (vec [0; 1; 2]) (vec [0; 1])
           (vec [0; 1; 2; 3]) (vec [0; 2; 4]) 4 3).
  - exact example_chunked_call.
  - reflexivity.
  - apply example_kernel_shapes.
Defined.

Lemma linint2_kernel_calls_witness :
  (kstate (linint2 id fill (counting_kernel kernel) sched fi xo yo false None
             true None None counted0).2).2 = 3.
Proof.
  apply (linint2_kernel_calls id fill kernel sched counted0 fi xo yo false None
           true None None labelled chunked 99 (vec [0; 1; 2]) (vec [0; 1])
           (vec [0; 1; 2; 3]) (vec [0; 2; 4]) 4 3).
  - exact example_chunked_call.
  - reflexivity.
  - apply example_kernel_shapes.
Defined.

End EdgeChecks.
